(** * My-Blog core: article store, search engine, plugin pipeline, cache

    A shallow embedding of the TypeScript core of the blog
    (src/core/utils.ts, ArticleManager.ts, SearchEngine.ts, PluginManager.ts,
    cache.ts) together with the properties stated about it.

    Conventions of the embedding.
    - A JavaScript string is a [string]: a sequence of code units, here the
      code units 0..255 (Basic Latin and Latin-1).  Character classes of the
      regular expressions ([\s], [\w], [\d], [\p{P}], the dot) and the case
      mappings are the restrictions of the ECMAScript ones to this alphabet.
    - A JavaScript [Map] iterates in insertion order, and several loops of
      the program depend on that order: a [Map] is an association list kept
      in insertion order ([JsMap]).
    - A class is its state record; a method takes the state and answers the
      new state or the value, inside [Result] when it may throw.  Objects
      are values of their TypeScript interface.  Loggers only print and
      are left out.
    - [Date.now()] and the other services of the host (date parsing and
      printing, printing of non-integral numbers) are explicit arguments.
    - A call into plugin code is described by what the program observes of
      it: a synchronous throw, or a promise that is fulfilled or rejected
      some time after the call, or never.  An asynchronous method runs to
      its end without other calls in between. *)

From Stdlib Require Import String Ascii List ZArith NArith QArith Bool Lia.
From Stdlib Require Import Qround Qreduction Qabs Permutation Sorted.
Import ListNotations.
Set Warnings "-register-all".
Open Scope string_scope.
Open Scope Z_scope.

(* ================================================================== *)
(** * Part I: the program *)
(* ================================================================== *)

(** ** JavaScript values the program relies on *)

Module Js.

Inductive JsError : Type :=
| TypeError (msg : string)
| RangeError (msg : string)
| Error (msg : string).

Inductive Result (A : Type) : Type :=
| Ok (a : A)
| Throw (e : JsError).
Arguments Ok {A} a.
Arguments Throw {A} e.

Definition bind {A B : Type} (r : Result A) (k : A -> Result B) : Result B :=
  match r with
  | Ok a => k a
  | Throw e => Throw e
  end.

Notation "x <- c1 ;; c2" := (bind c1 (fun x => c2))
  (at level 61, c1 at next level, right associativity).
Notation "c1 ;; c2" := (bind c1 (fun _ => c2))
  (at level 61, right associativity).

Definition isOk {A : Type} (r : Result A) : bool :=
  match r with Ok _ => true | Throw _ => false end.

Definition throws {A : Type} (r : Result A) : Prop :=
  exists e, r = Throw e.

(** *** Characters *)

Definition code (c : ascii) : N := N_of_ascii c.

Definition nl : ascii := ascii_of_N 10.
Definition cr : ascii := ascii_of_N 13.
Definition NL : string := String nl "".

(** [\s], also what [trim] strips: TAB, LF, VT, FF, CR, SPACE, NBSP. *)
Definition isWs (c : ascii) : bool :=
  let n := code c in
  ((9 <=? n) && (n <=? 13) || (n =? 32) || (n =? 160))%N.

(** A line terminator, which [.] does not match and after which [^]
    matches under the [m] flag. *)
Definition isLineTerminator (c : ascii) : bool :=
  let n := code c in ((n =? 10) || (n =? 13))%N.

Definition isDigit (c : ascii) : bool :=
  let n := code c in ((48 <=? n) && (n <=? 57))%N.

Definition isUpperAZ (c : ascii) : bool :=
  let n := code c in ((65 <=? n) && (n <=? 90))%N.

Definition isLowerAZ (c : ascii) : bool :=
  let n := code c in ((97 <=? n) && (n <=? 122))%N.

(** [\w] is [A-Za-z0-9_]. *)
Definition isWord (c : ascii) : bool :=
  isDigit c || isUpperAZ c || isLowerAZ c || (code c =? 95)%N.

(** [\p{P}]: the code units below 256 of general category P. *)
Definition isPunct (c : ascii) : bool :=
  existsb (N.eqb (code c))
    [33; 34; 35; 37; 38; 39; 40; 41; 42; 44; 45; 46; 47; 58; 59; 63; 64;
     91; 92; 93; 95; 123; 125; 161; 167; 171; 182; 183; 187; 191]%N.

(** [String.prototype.toLowerCase] on one code unit: A-Z, and the Latin-1
    capitals 192..222 other than the multiplication sign 215. *)
Definition toLowerChar (c : ascii) : ascii :=
  let n := code c in
  if (isUpperAZ c || ((192 <=? n) && (n <=? 222) && negb (n =? 215)))%N
  then ascii_of_N (n + 32) else c.

(** Canonicalisation of the [i] flag (without [u]): the upper case
    counterpart when it is a single code unit of the same block. *)
Definition canonChar (c : ascii) : ascii :=
  let n := code c in
  if (isLowerAZ c || ((224 <=? n) && (n <=? 254) && negb (n =? 247)))%N
  then ascii_of_N (n - 32) else c.

(** *** Strings *)

Fixpoint toLowerCase (s : string) : string :=
  match s with
  | "" => ""
  | String c r => String (toLowerChar c) (toLowerCase r)
  end.

Definition isEmpty (s : string) : bool :=
  match s with "" => true | _ => false end.

Fixpoint trimStart (s : string) : string :=
  match s with
  | "" => ""
  | String c r => if isWs c then trimStart r else s
  end.

Fixpoint trimEnd (s : string) : string :=
  match s with
  | "" => ""
  | String c r =>
      let t := trimEnd r in
      if isWs c && isEmpty t then "" else String c t
  end.

Definition trim (s : string) : string := trimEnd (trimStart s).

Definition startsWith (s p : string) : bool := String.prefix p s.

Fixpoint rev (s : string) : string :=
  match s with
  | "" => ""
  | String c r => rev r ++ String c ""
  end.

Definition endsWith (s p : string) : bool := String.prefix (rev p) (rev s).

(** [s.substring(0, n)] for [0 <= n]. *)
Fixpoint take (n : nat) (s : string) : string :=
  match n, s with
  | O, _ => ""
  | S _, "" => ""
  | S n', String c r => String c (take n' r)
  end.

Fixpoint drop (n : nat) (s : string) : string :=
  match n, s with
  | O, _ => s
  | S _, "" => ""
  | S n', String _ r => drop n' r
  end.

(** [s.split(sep)] for a one-character separator: never the empty list. *)
Fixpoint split (sep : ascii) (s : string) : list string :=
  match s with
  | "" => [""]
  | String c r =>
      if Ascii.eqb c sep then "" :: split sep r
      else match split sep r with
           | [] => [String c ""]
           | w :: ws => String c w :: ws
           end
  end.

(** The first occurrence of [pat] in [s]: the text before it and the text
    after it. *)
Fixpoint cut (pat s : string) : option (string * string) :=
  if String.prefix pat s then Some ("", drop (String.length pat) s)
  else match s with
       | "" => None
       | String c r =>
           match cut pat r with
           | Some (before, after) => Some (String c before, after)
           | None => None
           end
       end.

(** [s.includes(p)]. *)
Definition includes (s p : string) : bool :=
  match cut p s with Some _ => true | None => false end.

(** The longest prefix of characters satisfying [p], and the rest. *)
Fixpoint span (p : ascii -> bool) (s : string) : string * string :=
  match s with
  | "" => ("", "")
  | String c r =>
      if p c then let (a, b) := span p r in (String c a, b)
      else ("", s)
  end.

Fixpoint forallb (p : ascii -> bool) (s : string) : bool :=
  match s with
  | "" => true
  | String c r => p c && forallb p r
  end.

Fixpoint join (sep : string) (l : list string) : string :=
  match l with
  | [] => ""
  | [x] => x
  | x :: r => x ++ sep ++ join sep r
  end.

(** [s.split(/\s+/).filter(w => w.length > 0).length]: the number of
    maximal runs of characters that are not white space. *)
Fixpoint countWordsFrom (inWord : bool) (s : string) : nat :=
  match s with
  | "" => O
  | String c r =>
      if isWs c then countWordsFrom false r
      else if inWord then countWordsFrom true r
      else S (countWordsFrom true r)
  end.

Definition countWords (s : string) : nat := countWordsFrom false s.

(** *** Numbers

    A number is the exact rational it denotes.  The rounding of a literal
    to the nearest double (more than 15 significant digits, magnitudes
    beyond the double range) is not part of the model. *)

Fixpoint digitsValue (acc : Z) (s : string) : Z :=
  match s with
  | "" => acc
  | String c r => digitsValue (10 * acc + Z.of_N (code c - 48)) r
  end.

(** [parseInt(s, 10)] on a string of decimal digits. *)
Definition parseInt (s : string) : Z := digitsValue 0 s.

Definition isInteger (q : Q) : bool := (Qden (Qred q) =? 1)%positive.

Definition digitChar (d : Z) : ascii := ascii_of_N (48 + Z.to_N d).

Fixpoint natDigits (fuel : nat) (n : Z) (acc : string) : string :=
  match fuel with
  | O => acc
  | S f =>
      let acc' := String (digitChar (n mod 10)) acc in
      if n / 10 =? 0 then acc' else natDigits f (n / 10) acc'
  end.

(** Decimal notation of an integer, as [String(n)] prints integers below
    10^21 in magnitude. *)
Definition intToString (n : Z) : string :=
  if n <? 0 then String "-" (natDigits (Z.to_nat (Z.log2 (- n)) + 1) (- n) "")
  else natDigits (Z.to_nat (Z.log2 n) + 1) n "".

End Js.

(** ** types.ts *)

Module Types.
Import Js.

(** What a frontmatter value or a [JSON.parse] result can be. *)
Inductive Value : Type :=
| VNull
| VBool (b : bool)
| VNum (q : Q)
| VStr (s : string)
| VDate (t : option Z)          (* a [Date]; [None] is the invalid date *)
| VArr (xs : list Value)
| VObj (fs : list (string * Value)).

(** The services of the host the program calls. *)
Record Host : Type := {
  now : Z;                              (* [Date.now()], [new Date()] *)
  Date_parse : string -> option Z;      (* [new Date(string)] *)
  Date_toString : Z -> string;          (* [String(date)], valid date *)
  Date_getFullYear : Z -> Z;            (* [date.getFullYear()], valid date *)
  Number_toString : Q -> string         (* [String(n)], n not a small integer *)
}.

(** [interface Article].  An absent [draft] is [false] and an absent
    [readingTime] is [0]: the program only reads them through [!a.draft]
    and [a.readingTime || 0]. *)
Record Article : Type := {
  id : string;
  title : string;
  description : string;
  content : string;
  date : option Z;
  updated : option (option Z);
  author : option string;
  tags : list string;
  categories : list string;
  image : option string;
  draft : bool;
  readingTime : Z;
  meta : option Value;
  keywords : option (list string);
  raw : option string
}.

Record ArticleFilter : Type := {
  f_tag : option string;
  f_category : option string;
  f_author : option string;
  f_year : option Z;
  f_search : option string
}.

Record ArticleList : Type := {
  items : list Article;
  total : nat;
  filtered : nat
}.

(** [interface SearchIndex] (a posting). *)
Record SearchIndex : Type := {
  si_id : string;
  articleId : string;
  si_content : string;
  excerpt : string;
  weight : Z
}.

Record SearchResult : Type := {
  article : Article;
  score : Z;
  highlights : list string
}.

End Types.

(** ** A [Map] with string keys, in insertion order *)

Module JsMap.

Section WithValue.
Context {V : Type}.

Definition t : Type := list (string * V).

Fixpoint get (m : t) (k : string) : option V :=
  match m with
  | [] => None
  | (k', v) :: r => if String.eqb k' k then Some v else get r k
  end.

Definition has (m : t) (k : string) : bool :=
  match get m k with Some _ => true | None => false end.

(** [m.set(k, v)]: an existing key keeps its place. *)
Fixpoint set (m : t) (k : string) (v : V) : t :=
  match m with
  | [] => [(k, v)]
  | (k', v') :: r =>
      if String.eqb k' k then (k', v) :: r else (k', v') :: set r k v
  end.

Fixpoint delete (m : t) (k : string) : t :=
  match m with
  | [] => []
  | (k', v') :: r =>
      if String.eqb k' k then r else (k', v') :: delete r k
  end.

Definition keys (m : t) : list string := map fst m.
Definition values (m : t) : list V := map snd m.
Definition size (m : t) : nat := length m.

End WithValue.
Arguments t V : clear implicits.

End JsMap.

(** ** [JSON.parse] *)

Module Json.
Import Js Types.

(** The outcome of a parser: a value and the rest of the input, a syntax
    error, or the recursion bound of the model reached. *)
Inductive Parsed (A : Type) : Type :=
| POk (a : A) (rest : string)
| PSyntax
| PFuel.
Arguments POk {A} a rest.
Arguments PSyntax {A}.
Arguments PFuel {A}.

(** JSON white space: SPACE, TAB, LF, CR. *)
Definition isJsonWs (c : ascii) : bool :=
  let n := code c in ((n =? 32) || (n =? 9) || (n =? 10) || (n =? 13))%N.

Fixpoint skipWs (s : string) : string :=
  match s with
  | "" => ""
  | String c r => if isJsonWs c then skipWs r else s
  end.

Definition hexValue (c : ascii) : option N :=
  let n := code c in
  if isDigit c then Some (n - 48)%N
  else if ((97 <=? n) && (n <=? 102))%N then Some (n - 87)%N
  else if ((65 <=? n) && (n <=? 70))%N then Some (n - 55)%N
  else None.

Definition unescape (c : ascii) : option ascii :=
  let n := code c in
  if (n =? 34)%N then Some c                       (* quote *)
  else if (n =? 92)%N then Some c                  (* backslash *)
  else if (n =? 47)%N then Some c                  (* slash *)
  else if (n =? 98)%N then Some (ascii_of_N 8)     (* \b *)
  else if (n =? 102)%N then Some (ascii_of_N 12)   (* \f *)
  else if (n =? 110)%N then Some (ascii_of_N 10)   (* \n *)
  else if (n =? 114)%N then Some (ascii_of_N 13)   (* \r *)
  else if (n =? 116)%N then Some (ascii_of_N 9)    (* \t *)
  else None.

(** The characters of a string literal after its opening quote.  An
    escape [\uXXXX] above [\u00FF] names a code unit outside the alphabet
    of the model and is answered as a syntax error. *)
Fixpoint pChars (s : string) : Parsed string :=
  match s with
  | "" => PSyntax
  | String c r =>
      if (code c =? 34)%N then POk "" r
      else if (code c =? 92)%N then
        match r with
        | String e r' =>
            if (code e =? 117)%N then
              match r' with
              | String h1 (String h2 (String h3 (String h4 r''))) =>
                  match hexValue h1, hexValue h2, hexValue h3, hexValue h4 with
                  | Some a, Some b, Some c', Some d =>
                      let u := (((a * 16 + b) * 16 + c') * 16 + d)%N in
                      if (u <? 256)%N then
                        match pChars r'' with
                        | POk t rest => POk (String (ascii_of_N u) t) rest
                        | other => other
                        end
                      else PSyntax
                  | _, _, _, _ => PSyntax
                  end
              | _ => PSyntax
              end
            else
              match unescape e with
              | Some ch =>
                  match pChars r' with
                  | POk t rest => POk (String ch t) rest
                  | other => other
                  end
              | None => PSyntax
              end
        | "" => PSyntax
        end
      else if (code c <? 32)%N then PSyntax
      else
        match pChars r with
        | POk t rest => POk (String c t) rest
        | other => other
        end
  end.

(** [m * 10^e] as a rational. *)
Definition decimal (m e : Z) : Q :=
  if 0 <=? e then Qred ((m * 10 ^ e) # 1)
  else Qred (m # Z.to_pos (10 ^ (- e))).

(** A number: an optional minus sign; the integer part, a single zero
    or digits that do not start with zero; an optional fraction, a dot
    and at least one digit; an optional exponent, [e] or [E], an
    optional sign and at least one digit. *)
Definition pNumber (s : string) : Parsed Q :=
  let '(neg, s1) :=
    match s with
    | String c r => if (code c =? 45)%N then (true, r) else (false, s)
    | "" => (false, s)
    end in
  let '(ip, s2) := span isDigit s1 in
  let intOk :=
    match ip with
    | "" => false
    | String d "" => true
    | String d _ => negb (code d =? 48)%N
    end in
  if negb intOk then PSyntax else
  let '(fracOk, fp, s3) :=
    match s2 with
    | String c r =>
        if (code c =? 46)%N then
          let '(f, r') := span isDigit r in (negb (isEmpty f), f, r')
        else (true, "", s2)
    | "" => (true, "", s2)
    end in
  if negb fracOk then PSyntax else
  let '(expOk, ex, s4) :=
    match s3 with
    | String c r =>
        if ((code c =? 101) || (code c =? 69))%N then
          let '(eneg, r1) :=
            match r with
            | String g r0 =>
                if (code g =? 45)%N then (true, r0)
                else if (code g =? 43)%N then (false, r0)
                else (false, r)
            | "" => (false, r)
            end in
          let '(ed, r2) := span isDigit r1 in
          (negb (isEmpty ed), (if eneg then - parseInt ed else parseInt ed), r2)
        else (true, 0, s3)
    | "" => (true, 0, s3)
    end in
  if negb expOk then PSyntax else
  let m := parseInt (ip ++ fp) in
  POk (decimal (if neg then - m else m) (ex - Z.of_nat (String.length fp))) s4.

(** [obj[k] = v] while parsing an object: a repeated key keeps its place
    and takes the last value. *)
Definition setField (fs : list (string * Value)) (k : string) (v : Value)
  : list (string * Value) := JsMap.set fs k v.

Fixpoint pValue (fuel : nat) (s : string) {struct fuel} : Parsed Value :=
  match fuel with
  | O => PFuel
  | S f =>
      match skipWs s with
      | "" => PSyntax
      | String c r =>
          if (code c =? 91)%N then                       (* [ *)
            match skipWs r with
            | String c' r' =>
                if (code c' =? 93)%N then POk (VArr []) r'
                else match pElements f r with
                     | POk xs rest => POk (VArr xs) rest
                     | PSyntax => PSyntax
                     | PFuel => PFuel
                     end
            | "" => PSyntax
            end
          else if (code c =? 123)%N then                 (* { *)
            match skipWs r with
            | String c' r' =>
                if (code c' =? 125)%N then POk (VObj []) r'
                else match pMembers f [] r with
                     | POk fs rest => POk (VObj fs) rest
                     | PSyntax => PSyntax
                     | PFuel => PFuel
                     end
            | "" => PSyntax
            end
          else if (code c =? 34)%N then                  (* a string *)
            match pChars r with
            | POk t rest => POk (VStr t) rest
            | PSyntax => PSyntax
            | PFuel => PFuel
            end
          else if String.prefix "true" (String c r) then POk (VBool true) (drop 4 (String c r))
          else if String.prefix "false" (String c r) then POk (VBool false) (drop 5 (String c r))
          else if String.prefix "null" (String c r) then POk VNull (drop 4 (String c r))
          else
            match pNumber (String c r) with
            | POk q rest => POk (VNum q) rest
            | PSyntax => PSyntax
            | PFuel => PFuel
            end
      end
  end
with pElements (fuel : nat) (s : string) {struct fuel} : Parsed (list Value) :=
  match fuel with
  | O => PFuel
  | S f =>
      match pValue f s with
      | POk v r =>
          match skipWs r with
          | String c r' =>
              if (code c =? 44)%N then
                match pElements f r' with
                | POk vs rest => POk (v :: vs) rest
                | other => other
                end
              else if (code c =? 93)%N then POk [v] r'
              else PSyntax
          | "" => PSyntax
          end
      | PSyntax => PSyntax
      | PFuel => PFuel
      end
  end
with pMembers (fuel : nat) (acc : list (string * Value)) (s : string)
       {struct fuel} : Parsed (list (string * Value)) :=
  match fuel with
  | O => PFuel
  | S f =>
      match skipWs s with
      | String q r =>
          if (code q =? 34)%N then
            match pChars r with
            | POk k r1 =>
                match skipWs r1 with
                | String c r2 =>
                    if (code c =? 58)%N then
                      match pValue f r2 with
                      | POk v r3 =>
                          let acc' := setField acc k v in
                          match skipWs r3 with
                          | String c' r4 =>
                              if (code c' =? 44)%N then pMembers f acc' r4
                              else if (code c' =? 125)%N then POk acc' r4
                              else PSyntax
                          | "" => PSyntax
                          end
                      | PSyntax => PSyntax
                      | PFuel => PFuel
                      end
                    else PSyntax
                | "" => PSyntax
                end
            | PSyntax => PSyntax
            | PFuel => PFuel
            end
          else PSyntax
      | "" => PSyntax
      end
  end.

(** Every call of [pValue] but the first follows the reading of a
    character, and [pElements] and [pMembers] call [pValue] at once:
    twice the length of the text bounds the depth of the recursion. *)
Definition parseFuel (s : string) : nat := 2 * String.length s + 2.

Definition parseText (s : string) : Parsed Value :=
  match pValue (parseFuel s) s with
  | POk v rest => if isEmpty (skipWs rest) then POk v "" else PSyntax
  | other => other
  end.

(** [JSON.parse(s)]: [None] when it throws a [SyntaxError]. *)
Definition parse (s : string) : option Value :=
  match parseText s with
  | POk v _ => Some v
  | _ => None
  end.

End Json.

(** ** utils.ts *)

Module Utils.
Import Js Types.

(** *** Conversions of values *)

(** [!!v]. *)
Definition truthy (v : Value) : bool :=
  match v with
  | VNull => false
  | VBool b => b
  | VNum q => negb (Qnum q =? 0)
  | VStr s => negb (isEmpty s)
  | VDate _ | VArr _ | VObj _ => true
  end.

Definition numberToString (h : Host) (q : Q) : string :=
  if isInteger q && (Z.abs (Qnum (Qred q)) <? 10 ^ 21)
  then intToString (Qnum (Qred q))
  else Number_toString h q.

(** [String(v)].  An array prints its elements joined by commas, [null]
    as the empty string.  An object parsed from JSON prints as
    [[object Object]], unless it has a field [toString]: that field is
    not a function, neither is a field [valueOf], the inherited [valueOf]
    answers the object itself, and the conversion throws. *)
Fixpoint toString (h : Host) (v : Value) : Result string :=
  match v with
  | VNull => Ok "null"
  | VBool true => Ok "true"
  | VBool false => Ok "false"
  | VNum q => Ok (numberToString h q)
  | VStr s => Ok s
  | VDate (Some t) => Ok (Date_toString h t)
  | VDate None => Ok "Invalid Date"
  | VArr xs =>
      (fix elements (l : list Value) : Result string :=
         match l with
         | [] => Ok ""
         | x :: r =>
             sx <- match x with VNull => Ok "" | _ => toString h x end ;;
             match r with
             | [] => Ok sx
             | _ => sr <- elements r ;; Ok (sx ++ "," ++ sr)
             end
         end) xs
  | VObj fs =>
      if JsMap.has fs "toString"
      then Throw (TypeError "Cannot convert object to primitive value")
      else Ok "[object Object]"
  end.

(** The time value of [new Date(v)]; [None] is the invalid date. *)
Definition newDate (h : Host) (v : Value) : Result (option Z) :=
  match v with
  | VDate t => Ok t
  | VNull => Ok (Some 0)
  | VBool b => Ok (Some (if b then 1 else 0))
  | VNum q =>
      let n := if Qnum q <? 0 then - Qfloor (Qopp q) else Qfloor q in
      Ok (if Qle_bool (Qabs q) (inject_Z 8640000000000000)
          then Some n else None)
  | VStr s => Ok (Date_parse h s)
  | VArr _ | VObj _ => s <- toString h v ;; Ok (Date_parse h s)
  end.

(** *** parseFrontmatter *)

(** The object [data]: its own properties and, once the key [__proto__]
    was assigned an object, the prototype consulted after them. *)
Record Data : Type := {
  own : JsMap.t Value;
  proto : option Value
}.

Definition emptyData : Data := {| own := []; proto := None |}.

(** [data[k]]; [None] is [undefined].  No key the program reads is a
    property of [Object.prototype], [Array.prototype] or
    [Date.prototype]. *)
Definition lookup (d : Data) (k : string) : option Value :=
  match JsMap.get (own d) k with
  | Some v => Some v
  | None =>
      match proto d with
      | Some (VObj fs) => JsMap.get fs k
      | _ => None
      end
  end.

(** [data[k] = v]. *)
Definition assign (d : Data) (k : string) (v : Value) : Data :=
  if String.eqb k "__proto__" then
    match v with
    | VDate _ | VArr _ | VObj _ => {| own := own d; proto := Some v |}
    | _ => d
    end
  else {| own := JsMap.set (own d) k v; proto := proto d |}.

(** [/^\d{4}-\d{2}-\d{2}/.test(s)]. *)
Definition isDateLike (s : string) : bool :=
  match s with
  | String y1 (String y2 (String y3 (String y4 (String h1
      (String m1 (String m2 (String h2 (String d1 (String d2 _))))))))) =>
      isDigit y1 && isDigit y2 && isDigit y3 && isDigit y4
      && (code h1 =? 45)%N && isDigit m1 && isDigit m2
      && (code h2 =? 45)%N && isDigit d1 && isDigit d2
  | _ => false
  end.

Definition parseValue (h : Host) (value : string) : Value :=
  if isEmpty value then VNull
  else if String.eqb value "true" then VBool true
  else if String.eqb value "false" then VBool false
  else if forallb isDigit value then VNum (inject_Z (parseInt value))
  else if isDateLike value then VDate (Date_parse h value)
  else if startsWith value "[" && endsWith value "]" then
    match Json.parse value with
    | Some v => v
    | None => VStr value
    end
  else if startsWith value "{" && endsWith value "}" then
    match Json.parse value with
    | Some v => v
    | None => VStr value
    end
  else VStr value.

(** One line of the block against the pattern of a key and a value:
    the key is the longest run of word characters [\w+] at the start of
    the line, white space may surround the colon, and the value, the rest
    of the line, holds no line terminator (it is matched by dots). *)
Definition matchLine (line : string) : option (string * string) :=
  let '(key, r1) := span isWord line in
  if isEmpty key then None
  else
    match trimStart r1 with
    | String c r2 =>
        if (code c =? 58)%N then
          let value := trimStart r2 in
          if forallb (fun x => negb (isLineTerminator x)) value
          then Some (key, value)
          else None
        else None
    | "" => None
    end.

Definition parseFrontmatterYAML (h : Host) (content : string) : Data :=
  fold_left
    (fun data line =>
       if forallb isWs line then data
       else
         match matchLine line with
         | None => data
         | Some (key, value) =>
             if negb (isEmpty key) && negb (isEmpty value)
             then assign data (trim key) (parseValue h (trim value))
             else data
         end)
    (split nl content) emptyData.

(** The pattern of [parseFrontmatter]: three dashes and a line feed at
    the very start, the block (lazily, so it ends at the first closing
    line), a line feed, three dashes and a line feed, then the body. *)
Definition matchFrontmatter (content : string) : option (string * string) :=
  if String.prefix ("---" ++ NL) content
  then cut (NL ++ "---" ++ NL) (drop 4 content)
  else None.

Definition parseFrontmatter (h : Host) (content : string) : Data * string :=
  if isEmpty (trim content) then (emptyData, "")
  else
    match matchFrontmatter content with
    | None => (emptyData, content)
    | Some (frontmatter, body) =>
        (parseFrontmatterYAML h frontmatter, trim body)
    end.

(** *** calculateReadingTime *)

Definition calculateReadingTime (content : string) : Z :=
  let words := Z.of_nat (countWords content) in
  let minutes := (words + 199) / 200 in
  Z.max 1 minutes.

(** *** extractSummary *)

(** [s.replace(re, ...)] with the [g] flag, for a pattern that matches no
    empty text: [m] answers, for a match that starts at the head of its
    argument, the replacement and the text after the match.  The search
    resumes after each match and each match consumes a character, so the
    length of the text bounds the number of steps. *)
Fixpoint replaceAllFrom (m : string -> option (string * string))
    (fuel : nat) (s : string) : string :=
  match fuel with
  | O => s
  | S f =>
      match m s with
      | Some (replacement, rest) => replacement ++ replaceAllFrom m f rest
      | None =>
          match s with
          | "" => ""
          | String c r => String c (replaceAllFrom m f r)
          end
      end
  end.

Definition replaceAll (m : string -> option (string * string)) (s : string)
  : string := replaceAllFrom m (S (String.length s)) s.

Definition isChar (n : N) (c : ascii) : bool := (code c =? n)%N.
Definition notChar (n : N) (c : ascii) : bool := negb (code c =? n)%N.

(** A heading mark: at the start of a line, one or more [#] then one or
    more white space characters, removed.  The scan is written as the
    automaton of the pattern; [hashes] counts the marks read at the start
    of the line before the white space that decides the match. *)
Inductive HeadingState : Type :=
| LineStart                       (* the position follows a line terminator *)
| Inside                          (* the position is inside a line *)
| Hashes (n : nat)                (* [n] marks read from the line start *)
| Spaces (afterTerminator : bool) (* marks and white space matched so far *).

Fixpoint repeatChar (n : nat) (c : ascii) (s : string) : string :=
  match n with
  | O => s
  | S n' => String c (repeatChar n' c s)
  end.

Fixpoint stripHeadingsFrom (st : HeadingState) (s : string) : string :=
  match s with
  | "" =>
      match st with
      | Hashes n => repeatChar n "#" ""
      | _ => ""
      end
  | String c r =>
      let plain :=
        String c (stripHeadingsFrom
                    (if isLineTerminator c then LineStart else Inside) r) in
      match st with
      | LineStart =>
          if isChar 35 c then stripHeadingsFrom (Hashes 1) r else plain
      | Inside => plain
      | Hashes n =>
          if isChar 35 c then stripHeadingsFrom (Hashes (S n)) r
          else if isWs c then stripHeadingsFrom (Spaces (isLineTerminator c)) r
          else repeatChar n "#" plain
      | Spaces lt =>
          if isWs c then stripHeadingsFrom (Spaces (isLineTerminator c)) r
          else if lt && isChar 35 c then stripHeadingsFrom (Hashes 1) r
          else plain
      end
  end.

Definition stripHeadings (s : string) : string :=
  stripHeadingsFrom LineStart s.

(** A link: a bracketed text, at least one character other than the
    closing bracket, then a parenthesised target, at least one character
    other than the closing parenthesis; the text replaces the link. *)
Definition matchLink (s : string) : option (string * string) :=
  match s with
  | String c r =>
      if isChar 91 c then
        let '(text, r1) := span (notChar 93) r in
        if isEmpty text then None
        else if String.prefix "](" r1 then
          let '(target, r2) := span (notChar 41) (drop 2 r1) in
          if isEmpty target then None
          else
            match r2 with
            | String c' r3 => if isChar 41 c' then Some (text, r3) else None
            | "" => None
            end
        else None
      else None
  | "" => None
  end.

(** Text between [open] and [close], at least one character other than
    [stop]; the text replaces the whole. *)
Definition matchDelimited (open : string) (stop : N) (close : string)
    (s : string) : option (string * string) :=
  if String.prefix open s then
    let '(text, r1) := span (notChar stop) (drop (String.length open) s) in
    if isEmpty text then None
    else if String.prefix close r1
         then Some (text, drop (String.length close) r1)
         else None
  else None.

Definition matchBold : string -> option (string * string) :=
  matchDelimited "**" 42 "**".

Definition backtick : string := String (ascii_of_N 96) "".

Definition matchCode : string -> option (string * string) :=
  matchDelimited backtick 96 backtick.

(** A fenced block: three backticks, lazily anything, three backticks;
    removed. *)
Definition matchFence (s : string) : option (string * string) :=
  let fence := backtick ++ backtick ++ backtick in
  if String.prefix fence s then
    match cut fence (drop 3 s) with
    | Some (_, rest) => Some ("", rest)
    | None => None
    end
  else None.

(** [extractSummary(content)] with the default length 150. *)
Definition extractSummary (content : string) : string :=
  let text :=
    trim (replaceAll matchFence
           (replaceAll matchCode
             (replaceAll matchBold
               (replaceAll matchLink
                 (stripHeadings content))))) in
  let summary := trim (take 150 text) in
  if endsWith summary "." || endsWith summary "!" || endsWith summary "?"
  then summary
  else summary ++ "...".

(** *** sortArticles, filterArticles *)

(** The comparator of [sortArticles]; it answers [0] when either date
    is invalid. *)
Definition compareDates (asc : bool) (a b : Article) : Z :=
  match date a, date b with
  | Some timeA, Some timeB => if asc then timeA - timeB else timeB - timeA
  | _, _ => 0
  end.

(** [Array.prototype.sort] is stable: insertion from the right keeps
    elements that compare equal in their order.  (With invalid dates the
    comparator is not an order and the outcome of the engine's algorithm
    is not fixed by the language; the properties below do not depend on
    it.) *)
Fixpoint insertBy {A : Type} (cmp : A -> A -> Z) (x : A) (l : list A)
  : list A :=
  match l with
  | [] => [x]
  | y :: r => if cmp x y <=? 0 then x :: y :: r else y :: insertBy cmp x r
  end.

Fixpoint sortBy {A : Type} (cmp : A -> A -> Z) (l : list A) : list A :=
  match l with
  | [] => []
  | x :: r => insertBy cmp x (sortBy cmp r)
  end.

Definition sortArticles (articles : list Article) (asc : bool)
  : list Article := sortBy (compareDates asc) articles.

(** The argument of [filterArticles]: tag, category, year. *)
Record DateFilter : Type := {
  tag : option string;
  category : option string;
  year : option Z
}.

Definition truthyString (o : option string) : option string :=
  match o with
  | Some s => if isEmpty s then None else Some s
  | None => None
  end.

Definition keepArticle (h : Host) (filter : DateFilter) (a : Article) : bool :=
  (match truthyString (tag filter) with
   | Some t => existsb (String.eqb t) (tags a)
   | None => true
   end)
  &&
  (match truthyString (category filter) with
   | Some c => existsb (String.eqb c) (categories a)
   | None => true
   end)
  &&
  (match year filter with
   | Some y =>
       if y =? 0 then true
       else match date a with
            | Some t => Date_getFullYear h t =? y
            | None => false
            end
   | None => true
   end).

Definition filterArticles (h : Host) (articles : list Article)
    (filter : option DateFilter) : list Article :=
  match filter with
  | None => articles
  | Some f => List.filter (keepArticle h f) articles
  end.

(** *** slugify *)

Fixpoint filterChars (p : ascii -> bool) (s : string) : string :=
  match s with
  | "" => ""
  | String c r => if p c then String c (filterChars p r) else filterChars p r
  end.

(** [s.replace(re, '-')] with the [g] flag for a pattern that matches one
    or more characters of a class: every maximal run of the class becomes
    one hyphen.  [inRun] tells that the character before belongs to the
    run being replaced. *)
Fixpoint squeezeFrom (p : ascii -> bool) (inRun : bool) (s : string)
  : string :=
  match s with
  | "" => ""
  | String c r =>
      if p c then
        if inRun then squeezeFrom p true r
        else String "-" (squeezeFrom p true r)
      else String c (squeezeFrom p false r)
  end.

Definition squeeze (p : ascii -> bool) (s : string) : string :=
  squeezeFrom p false s.

Definition isHyphen (c : ascii) : bool := (code c =? 45)%N.

(** The characters the first replacement of [slugify] keeps: word
    characters, white space and the hyphen. *)
Definition isSlugSource (c : ascii) : bool := isWord c || isWs c || isHyphen c.

Definition slugify (text : string) : string :=
  squeeze isHyphen
    (squeeze isWs
       (filterChars isSlugSource (trim (toLowerCase text)))).

(** *** groupByDate *)

(** [date.getFullYear().toString()] of an article with a valid date. *)
Definition yearKey (h : Host) (a : Article) : option string :=
  match date a with
  | Some t => Some (intToString (Date_getFullYear h t))
  | None => None
  end.

Definition groupByDate (h : Host) (articles : list Article)
  : JsMap.t (list Article) :=
  fold_left
    (fun groups a =>
       match yearKey h a with
       | None => groups
       | Some y =>
           let group :=
             match JsMap.get groups y with Some l => l | None => [] end in
           JsMap.set groups y (group ++ [a])%list
       end)
    articles [].

(** *** extractTags, extractCategories, calculateStats *)

(** [m.set(k, (m.get(k) || 0) + 1)]. *)
Definition countKey (m : JsMap.t Z) (k : string) : JsMap.t Z :=
  JsMap.set m k
    (match JsMap.get m k with Some n => n + 1 | None => 1 end).

(** [tag.trim()] is truthy. *)
Definition notBlank (s : string) : bool := negb (isEmpty (trim s)).

Definition extractTags (articles : list Article) : JsMap.t Z :=
  fold_left
    (fun m a => fold_left countKey (List.filter notBlank (tags a)) m)
    articles [].

Definition extractCategories (articles : list Article) : JsMap.t Z :=
  fold_left
    (fun m a => fold_left countKey (List.filter notBlank (categories a)) m)
    articles [].

Record BlogTotals : Type := {
  totalArticles : nat;
  totalTags : nat;
  totalCategories : nat;
  totalWords : nat
}.

Definition calculateStats (articles : list Article) : BlogTotals :=
  {| totalArticles := length articles;
     totalTags := JsMap.size (extractTags articles);
     totalCategories := JsMap.size (extractCategories articles);
     totalWords :=
       fold_left (fun n a => (n + countWords (content a))%nat) articles O |}.

End Utils.

(** ** ArticleManager.ts *)

Module ArticleManager.
Import Js Types Utils.

(** [ArticleManagerConfig]; the logger only prints and is left out. *)
Record ArticleManagerConfig : Type := {
  includeDrafts : option bool;
  defaultAuthor : option string;
  maxArticles : option Z
}.

Record State : Type := {
  articles : JsMap.t Article;
  config : ArticleManagerConfig;
  disposed : bool
}.

(** [new ArticleManager(config)]: the default [maxArticles] is 10000 and
    the fields of [config] replace the defaults. *)
Definition new (cfg : ArticleManagerConfig) : Result State :=
  match maxArticles cfg with
  | Some n =>
      if n <=? 0 then Throw (RangeError "maxArticles must be greater than 0")
      else Ok {| articles := []; config := cfg; disposed := false |}
  | None =>
      Ok {| articles := [];
            config := {| includeDrafts := includeDrafts cfg;
                         defaultAuthor := defaultAuthor cfg;
                         maxArticles := Some 10000 |};
            disposed := false |}
  end.

Definition checkDisposed (s : State) : Result unit :=
  if disposed s then Throw (Error "ArticleManager has been disposed")
  else Ok tt.

Definition withArticles (s : State) (m : JsMap.t Article) : State :=
  {| articles := m; config := config s; disposed := disposed s |}.

(** [addArticle(article)] for an article with a string [id]; over the
    limit it warns and stores all the same. *)
Definition addArticle (s : State) (a : Article) : Result State :=
  checkDisposed s ;;
  Ok (withArticles s (JsMap.set (articles s) (id a) a)).

(** [data[k]] when it is truthy. *)
Definition field (d : Data) (k : string) : option Value :=
  match lookup d k with
  | Some v => if truthy v then Some v else None
  | None => None
  end.

Fixpoint mapResult {A B : Type} (f : A -> Result B) (l : list A)
  : Result (list B) :=
  match l with
  | [] => Ok []
  | x :: r =>
      y <- f x ;; ys <- mapResult f r ;; Ok (y :: ys)
  end.

Definition nonEmpty (s : string) : bool := negb (isEmpty s).

(** [Array.isArray(v) ? v.map(t => String(t).trim()).filter(t => t.length > 0)
    : absent]. *)
Definition stringArray (h : Host) (v : option Value)
  : Result (option (list string)) :=
  match v with
  | Some (VArr xs) =>
      l <- mapResult (fun t => x <- toString h t ;; Ok (trim x)) xs ;;
      Ok (Some (List.filter nonEmpty l))
  | _ => Ok None
  end.

Definition orEmpty (o : option (list string)) : list string :=
  match o with Some l => l | None => [] end.

Definition createArticleFromMarkdown (h : Host) (s : State)
    (id content : string) : Result Article :=
  if isEmpty (trim id) then Throw (TypeError "id must be a non-empty string")
  else
    let '(data, body) := parseFrontmatter h content in
    title0 <- match field data "title" with
              | Some v => toString h v
              | None => Ok id
              end ;;
    let title := trim title0 in
    description0 <- match field data "description" with
                    | Some v => toString h v
                    | None => Ok (extractSummary body)
                    end ;;
    let description := trim description0 in
    date <- match field data "date" with
            | Some v => newDate h v
            | None => Ok (Some (now h))
            end ;;
    author <- match field data "author" with
              | Some v => a <- toString h v ;; Ok (Some (trim a))
              | None => Ok (defaultAuthor (config s))
              end ;;
    tags <- stringArray h (lookup data "tags") ;;
    categories <- stringArray h (lookup data "categories") ;;
    keywords <- stringArray h (lookup data "keywords") ;;
    updated <- match field data "updated" with
               | Some v => t <- newDate h v ;; Ok (Some t)
               | None => Ok None
               end ;;
    image <- match field data "image" with
             | Some v => i <- toString h v ;; Ok (Some (trim i))
             | None => Ok None
             end ;;
    Ok {| Types.id := id;
          Types.title := if isEmpty title then id else title;
          Types.description := description;
          Types.content := body;
          Types.date := date;
          Types.updated := updated;
          Types.author := truthyString author;
          Types.tags := orEmpty tags;
          Types.categories := orEmpty categories;
          Types.image := image;
          Types.draft :=
            match lookup data "draft" with
            | Some (VBool true) => true
            | _ => false
            end;
          Types.readingTime := calculateReadingTime body;
          Types.meta := field data "meta";
          Types.keywords := keywords;
          Types.raw := Some content |}.

Definition visible (s : State) : list Article :=
  let all := JsMap.values (articles s) in
  match includeDrafts (config s) with
  | Some true => all
  | _ => List.filter (fun a => negb (draft a)) all
  end.

Definition getArticles (s : State) : Result (list Article) :=
  checkDisposed s ;; Ok (visible s).

Definition getArticleById (s : State) (id : string)
  : Result (option Article) :=
  checkDisposed s ;; Ok (JsMap.get (articles s) id).

Inductive SortOrder : Type := Asc | Desc.

Record ListOptions : Type := {
  sort : option SortOrder;
  page : option Z;
  pageSize : option Z
}.

(** [x] when the number [x] is given and truthy. *)
Definition truthyNumber (o : option Z) : option Z :=
  match o with
  | Some n => if n =? 0 then None else Some n
  | None => None
  end.

(** [l.slice(start, end)] for [0 <= start <= end]. *)
Definition slice {A : Type} (l : list A) (start stop : Z) : list A :=
  firstn (Z.to_nat (stop - start)) (skipn (Z.to_nat start) l).

Definition matchesSearch (query : string) (a : Article) : bool :=
  includes (toLowerCase (title a)) query
  || includes (toLowerCase (description a)) query
  || includes (toLowerCase (content a)) query.

Definition applyFilter (h : Host) (filter : option ArticleFilter)
    (l : list Article) : list Article :=
  match filter with
  | None => l
  | Some f =>
      let l1 :=
        filterArticles h l
          (Some {| tag := f_tag f; category := f_category f;
                   year := f_year f |}) in
      match truthyString (f_search f) with
      | Some q => List.filter (matchesSearch (toLowerCase q)) l1
      | None => l1
      end
  end.

Definition paginate (options : option ListOptions) (l : list Article)
  : list Article :=
  match options with
  | None => l
  | Some o =>
      match truthyNumber (page o), truthyNumber (pageSize o) with
      | Some p, Some ps =>
          let page := Z.max 1 p in
          let pageSize := Z.max 1 ps in
          let start := (page - 1) * pageSize in
          slice l start (start + pageSize)
      | _, _ => l
      end
  end.

Definition sortOrder (options : option ListOptions) : bool :=
  match options with
  | Some o => match sort o with Some Asc => true | _ => false end
  | None => false
  end.

Definition getArticleList (h : Host) (s : State)
    (filter : option ArticleFilter) (options : option ListOptions)
  : Result ArticleList :=
  checkDisposed s ;;
  all <- getArticles s ;;
  let matching := applyFilter h filter all in
  let total := length matching in
  let sorted := sortArticles matching (sortOrder options) in
  let shown := paginate options sorted in
  Ok {| items := shown; total := total; filtered := length shown |}.

(** The relatedness of [candidate] to [a]: 10 for each tag of [a] the
    candidate has, 15 for each category, 5 for the same author. *)
Definition relatedScore (a candidate : Article) : Z :=
  10 * Z.of_nat (length (List.filter
                   (fun t => existsb (String.eqb t) (tags candidate))
                   (tags a)))
  + 15 * Z.of_nat (length (List.filter
                     (fun c => existsb (String.eqb c) (categories candidate))
                     (categories a)))
  + match truthyString (author a), author candidate with
    | Some x, Some y => if String.eqb x y then 5 else 0
    | _, _ => 0
    end.

Definition clampLimit (limit : option Z) : Z :=
  Z.max 1 (Z.min 100 (match limit with Some n => n | None => 3 end)).

Definition getRelatedArticles (s : State) (articleId : string)
    (limit : option Z) : Result (list Article) :=
  checkDisposed s ;;
  match JsMap.get (articles s) articleId with
  | None => Ok []
  | Some a =>
      all <- getArticles s ;;
      let candidates :=
        List.filter (fun c => negb (String.eqb (id c) articleId)) all in
      let scored := map (fun c => (c, relatedScore a c)) candidates in
      let positive := List.filter (fun p => 0 <? snd p) scored in
      let ranked := sortBy (fun x y => snd y - snd x) positive in
      Ok (map fst (firstn (Z.to_nat (clampLimit limit)) ranked))
  end.

(** [stats.set(k, (stats.get(k) || 0) + 1)] for each key in turn. *)
Definition countInto (stats : JsMap.t Z) (k : string) : JsMap.t Z :=
  JsMap.set stats k
    (match JsMap.get stats k with Some n => n + 1 | None => 1 end).

Definition getTagStats (s : State) : Result (JsMap.t Z) :=
  checkDisposed s ;;
  all <- getArticles s ;;
  Ok (fold_left (fun st a => fold_left countInto (tags a) st) all []).

Definition getCategoryStats (s : State) : Result (JsMap.t Z) :=
  checkDisposed s ;;
  all <- getArticles s ;;
  Ok (fold_left (fun st a => fold_left countInto (categories a) st) all []).

Record Stats : Type := {
  totalArticles : nat;
  totalTags : nat;
  totalCategories : nat;
  totalWords : nat;
  averageReadingTime : Z
}.

(** [Math.round(a / n)] for [0 < n]. *)
Definition roundDiv (a n : Z) : Z := (2 * a + n) / (2 * n).

Definition getStats (s : State) : Result Stats :=
  checkDisposed s ;;
  all <- getArticles s ;;
  tagStats <- getTagStats s ;;
  categoryStats <- getCategoryStats s ;;
  let words := fold_left (fun n a => (n + countWords (content a))%nat) all O in
  let reading := fold_left (fun n a => n + readingTime a) all 0 in
  Ok {| totalArticles := length all;
        totalTags := JsMap.size tagStats;
        totalCategories := JsMap.size categoryStats;
        totalWords := words;
        averageReadingTime :=
          match all with
          | [] => 0
          | _ => roundDiv reading (Z.of_nat (length all))
          end |}.

Definition clear (s : State) : Result State :=
  checkDisposed s ;; Ok (withArticles s []).

Definition dispose (s : State) : Result State :=
  s' <- clear s ;;
  Ok {| articles := articles s'; config := config s'; disposed := true |}.

End ArticleManager.

(** ** SearchEngine.ts *)

Module SearchEngine.
Import Js Types.

(** [SearchEngineConfig]; an absent field is [None].  The logger only
    prints and is left out. *)
Record SearchEngineConfig : Type := {
  minSearchLength : option Z;
  highlightTag : option (string * string);
  caseSensitive : option bool;
  maxResults : option Z;
  maxQueryLength : option Z;
  maxIndexSize : option Z
}.

Definition noConfig : SearchEngineConfig :=
  {| minSearchLength := None; highlightTag := None; caseSensitive := None;
     maxResults := None; maxQueryLength := None; maxIndexSize := None |}.

Record State : Type := {
  index : JsMap.t (list SearchIndex);
  articles : JsMap.t Article;
  config : SearchEngineConfig;
  disposed : bool
}.

Definition orDefault {A : Type} (o : option A) (d : A) : option A :=
  match o with Some x => Some x | None => Some d end.

Definition belowOne (o : option Z) : bool :=
  match o with Some n => n <? 1 | None => false end.

(** [new SearchEngine(config)]. *)
Definition new (cfg : SearchEngineConfig) : Result State :=
  if belowOne (maxResults cfg)
  then Throw (RangeError "maxResults must be at least 1")
  else if belowOne (maxQueryLength cfg)
  then Throw (RangeError "maxQueryLength must be at least 1")
  else if belowOne (maxIndexSize cfg)
  then Throw (RangeError "maxIndexSize must be at least 1")
  else
    Ok {| index := [];
          articles := [];
          config :=
            {| minSearchLength := orDefault (minSearchLength cfg) 2;
               highlightTag :=
                 orDefault (highlightTag cfg) ("<mark>", "</mark>");
               caseSensitive := orDefault (caseSensitive cfg) false;
               maxResults := orDefault (maxResults cfg) 20;
               maxQueryLength := orDefault (maxQueryLength cfg) 500;
               maxIndexSize := orDefault (maxIndexSize cfg) 100000 |};
          disposed := false |}.

Definition checkDisposed (s : State) : Result unit :=
  if disposed s then Throw (Error "SearchEngine has been disposed")
  else Ok tt.

(** [n || d] for a number of the configuration. *)
Definition numberOr (o : option Z) (d : Z) : Z :=
  match o with
  | Some n => if n =? 0 then d else n
  | None => d
  end.

(** [str.substring(0, n)]: a negative [n] counts as [0] and an absent
    one as the length of the string. *)
Definition substringTo (str : string) (n : option Z) : string :=
  match n with
  | Some k => take (Z.to_nat k) str
  | None => str
  end.

Definition validateString (cfg : SearchEngineConfig) (str : string) : string :=
  if numberOr (maxQueryLength cfg) 500 <? Z.of_nat (String.length str)
  then substringTo str (maxQueryLength cfg)
  else str.

(** *** tokenize *)

Definition isSeparator (c : ascii) : bool := isWs c || isPunct c.

(** The pieces of [text.split(sep)] that are not empty: the maximal
    runs of characters that are not separators. *)
Fixpoint runs (s : string) : list string :=
  match s with
  | "" => []
  | String c r =>
      if isSeparator c then runs r
      else
        match r with
        | "" => [String c ""]
        | String c' _ =>
            if isSeparator c' then String c "" :: runs r
            else
              match runs r with
              | w :: ws => String c w :: ws
              | [] => [String c ""]
              end
        end
  end.

(** [[...new Set(words)]]: the first occurrence of each word, in order. *)
Fixpoint dedupeFrom (seen : list string) (l : list string) : list string :=
  match l with
  | [] => []
  | x :: r =>
      if existsb (String.eqb x) seen then dedupeFrom seen r
      else x :: dedupeFrom (x :: seen) r
  end.

Definition dedupe (l : list string) : list string := dedupeFrom [] l.

Definition isCaseSensitive (cfg : SearchEngineConfig) : bool :=
  match caseSensitive cfg with Some true => true | _ => false end.

Definition tokenize (cfg : SearchEngineConfig) (text : string) : list string :=
  if isEmpty text then []
  else
    let query := if isCaseSensitive cfg then text else toLowerCase text in
    let words :=
      firstn 50
        (List.filter (fun w => (String.length w <? 100)%nat) (runs query)) in
    dedupe words.

(** *** indexArticle *)

Definition posting (a : Article) (word content : string) (w : Z)
  : SearchIndex :=
  {| si_id := id a ++ ":" ++ word;
     articleId := id a;
     si_content := take 200 content;
     excerpt := take 100 content;
     weight := w |}.

(** [existing.weight = Math.min(existing.weight + w, 1000)] on the first
    posting of the article. *)
Fixpoint bump (articleId' : string) (w : Z) (l : list SearchIndex)
  : list SearchIndex :=
  match l with
  | [] => []
  | i :: r =>
      if String.eqb (articleId i) articleId' then
        {| si_id := si_id i; articleId := articleId i;
           si_content := si_content i; excerpt := excerpt i;
           weight := Z.min (weight i + w) 1000 |} :: r
      else i :: bump articleId' w r
  end.

Definition hasPosting (articleId' : string) (l : list SearchIndex) : bool :=
  existsb (fun i => String.eqb (articleId i) articleId') l.

Definition addWord (a : Article) (content : string) (w : Z)
    (idx : JsMap.t (list SearchIndex)) (word : string)
  : JsMap.t (list SearchIndex) :=
  let postings :=
    match JsMap.get idx word with Some l => l | None => [] end in
  if hasPosting (id a) postings
  then JsMap.set idx word (bump (id a) w postings)
  else JsMap.set idx word (postings ++ [posting a word content w])%list.

(** The five weighted fields of an article. *)
Definition indexItems (cfg : SearchEngineConfig) (a : Article)
  : list (string * Z) :=
  [ (validateString cfg (title a), 10);
    (validateString cfg (description a), 5);
    (join " " (tags a), 4);
    (join " " (categories a), 4);
    (validateString cfg (content a), 1) ].

Definition addItem (cfg : SearchEngineConfig) (a : Article)
    (idx : JsMap.t (list SearchIndex)) (item : string * Z)
  : JsMap.t (list SearchIndex) :=
  let '(content, w) := item in
  if isEmpty content then idx
  else fold_left (addWord a content w) (tokenize cfg content) idx.

Definition indexArticle (cfg : SearchEngineConfig)
    (idx : JsMap.t (list SearchIndex)) (a : Article)
  : Result (JsMap.t (list SearchIndex)) :=
  if isEmpty (id a) || isEmpty (title a) || isEmpty (content a)
  then Throw (Error "Invalid article: missing required fields")
  else Ok (fold_left (addItem cfg a) (indexItems cfg a) idx).

(** *** indexArticles *)

(** An element of the array given to [indexArticles]: something that is
    not an object with a string [id], or an article. *)
Inductive Unknown : Type :=
| NotAnArticle
| AnArticle (a : Article).

(** The loop of [indexArticles] over what is left of the array. *)
Fixpoint indexLoop (cfg : SearchEngineConfig)
    (idx : JsMap.t (list SearchIndex)) (arts : JsMap.t Article)
    (l : list Unknown) : JsMap.t (list SearchIndex) * JsMap.t Article :=
  match l with
  | [] => (idx, arts)
  | NotAnArticle :: r => indexLoop cfg idx arts r
  | AnArticle a :: r =>
      match indexArticle cfg idx a with
      | Throw _ => indexLoop cfg idx arts r
      | Ok idx' =>
          let arts' := JsMap.set arts (id a) a in
          if numberOr (maxIndexSize cfg) 100000 <? Z.of_nat (JsMap.size idx')
          then (idx', arts')
          else indexLoop cfg idx' arts' r
      end
  end.

(** [indexArticles(articles)]; [None] is an argument that is not an
    array. *)
Definition indexArticles (s : State) (articles' : option (list Unknown))
  : Result State :=
  checkDisposed s ;;
  match articles' with
  | None => Ok s
  | Some l =>
      let '(idx, arts) := indexLoop (config s) [] [] l in
      Ok {| index := idx; articles := arts; config := config s;
            disposed := disposed s |}
  end.

(** *** search *)

(** [searchIndex(keyword)]: the postings of the keyword itself, at most
    100, then those of the first 50 other terms it is a prefix of, at
    most 50 each, in the order of the index. *)
Fixpoint prefixMatches (keyword : string) (count : nat)
    (entries : list (string * list SearchIndex)) : list SearchIndex :=
  match count, entries with
  | O, _ => []
  | _, [] => []
  | S count', (key, items) :: r =>
      if String.prefix keyword key && negb (String.eqb key keyword)
      then (firstn 50 items ++ prefixMatches keyword count' r)%list
      else prefixMatches keyword count r
  end.

Definition searchIndex (idx : JsMap.t (list SearchIndex)) (keyword : string)
  : list SearchIndex :=
  if isEmpty keyword then []
  else
    ((match JsMap.get idx keyword with
      | Some items => firstn 100 items
      | None => []
      end) ++ prefixMatches keyword 50 idx)%list.

(** [escapeRegex]: each character of the table gains a backslash. *)
Definition isSpecial (c : ascii) : bool :=
  existsb (N.eqb (code c))
    [46; 42; 43; 63; 94; 36; 123; 125; 40; 41; 124; 91; 93; 92]%N.

Fixpoint escapeRegex (s : string) : string :=
  match s with
  | "" => ""
  | String c r =>
      if isSpecial c then String (ascii_of_N 92) (String c (escapeRegex r))
      else String c (escapeRegex r)
  end.

(** A match of the escaped keyword, a literal, at the head of [s] under
    the [i] flag: the matched text and what follows it. *)
Fixpoint matchLiteral (keyword s : string) : option (string * string) :=
  match keyword, s with
  | "", _ => Some ("", s)
  | String k kr, String c r =>
      if Ascii.eqb (canonChar k) (canonChar c) then
        match matchLiteral kr r with
        | Some (m, rest) => Some (String c m, rest)
        | None => None
        end
      else None
  | String _ _, "" => None
  end.

(** [content.replace(regex, ...)]: the first 100 matches are wrapped. *)
Fixpoint wrapMatches (fuel : nat) (open close keyword : string)
    (count : nat) (s : string) : string :=
  match fuel with
  | O => s
  | S f =>
      match s with
      | "" => ""
      | String c r =>
          match matchLiteral keyword s with
          | Some (m, rest) =>
              (if (count <? 100)%nat then open ++ m ++ close else m)
              ++ wrapMatches f open close keyword (S count) rest
          | None => String c (wrapMatches f open close keyword count r)
          end
      end
  end.

Definition tagsOf (cfg : SearchEngineConfig) : string * string :=
  match highlightTag cfg with
  | Some t => t
  | None => ("<mark>", "</mark>")
  end.

Definition highlightMatch (cfg : SearchEngineConfig)
    (content keyword : string) : string :=
  if isEmpty keyword || isEmpty content then content
  else
    let '(open, close) := tagsOf cfg in
    if (100 <? String.length (escapeRegex keyword))%nat then content
    else wrapMatches (String.length content) open close keyword 0 content.

(** An entry of [resultMap]: the score and the set of highlights. *)
Definition Hit : Type := (Z * list string)%type.

Definition addToSet (l : list string) (x : string) : list string :=
  if existsb (String.eqb x) l then l else (l ++ [x])%list.

Definition addHit (cfg : SearchEngineConfig) (keyword : string)
    (resultMap : JsMap.t Hit) (i : SearchIndex) : JsMap.t Hit :=
  let '(score0, highlights0) :=
    match JsMap.get resultMap (articleId i) with
    | Some hit => hit
    | None => (0, [])
    end in
  let highlight := highlightMatch cfg (si_content i) keyword in
  JsMap.set resultMap (articleId i)
    (score0 + weight i,
     if isEmpty highlight then highlights0
     else addToSet highlights0 highlight).

Definition addKeyword (s : State) (resultMap : JsMap.t Hit)
    (keyword : string) : JsMap.t Hit :=
  fold_left (addHit (config s) keyword) (searchIndex (index s) keyword)
    resultMap.

Definition toResults (s : State) (resultMap : JsMap.t Hit)
  : list SearchResult :=
  flat_map
    (fun entry : string * Hit =>
       let '(articleId', (score', highlights')) := entry in
       match JsMap.get (articles s) articleId' with
       | Some a =>
           [{| article := a; score := score';
               highlights := firstn 10 highlights' |}]
       | None => []
       end)
    resultMap.

Definition byScore (a b : SearchResult) : Z := score b - score a.

(** The body of [search] once the query is validated. *)
Definition searchValidated (s : State) (validatedQuery : string)
  : list SearchResult :=
  let keywords := tokenize (config s) validatedQuery in
  match keywords with
  | [] => []
  | _ =>
      let resultMap := fold_left (addKeyword s) keywords [] in
      firstn (Z.to_nat (Z.max 1 (numberOr (maxResults (config s)) 20)))
        (Utils.sortBy byScore (toResults s resultMap))
  end.

(** [search(query)]; [None] is a query that is not a string. *)
Definition search (s : State) (query : option string)
  : Result (list SearchResult) :=
  checkDisposed s ;;
  match query with
  | None => Ok []
  | Some q =>
      if Z.of_nat (String.length q) <? numberOr (minSearchLength (config s)) 2
      then Ok []
      else
        let validatedQuery := validateString (config s) q in
        if isEmpty validatedQuery then Ok []
        else Ok (searchValidated s validatedQuery)
  end.

Definition clear (s : State) : Result State :=
  checkDisposed s ;;
  Ok {| index := []; articles := []; config := config s;
        disposed := disposed s |}.

Record IndexStats : Type := {
  indexedWords : nat;
  indexedArticles : nat;
  totalIndices : nat
}.

Definition getStats (s : State) : Result IndexStats :=
  checkDisposed s ;;
  Ok {| indexedWords := JsMap.size (index s);
        indexedArticles := JsMap.size (articles s);
        totalIndices :=
          fold_left (fun n items => (n + length items)%nat)
            (JsMap.values (index s)) O |}.

Definition dispose (s : State) : Result State :=
  s' <- clear s ;;
  Ok {| index := index s'; articles := articles s'; config := config s';
        disposed := true |}.

End SearchEngine.

(** ** cache.ts *)

Module Cache.
Import Js.

Section WithValue.
Context {T : Type}.

Record CacheEntry : Type := {
  value : T;
  expiresAt : Z;
  createdAt : Z;
  hits : Z
}.

Inductive EvictionPolicy : Type := LRU | LFU | FIFO.

(** A [MemoryCache].  Every operation that reads the clock takes the
    value of [Date.now()] as its argument [now]; the reads within one
    call are taken to be equal. *)
Record MemoryCache : Type := {
  cache : JsMap.t CacheEntry;
  statHits : Z;
  statMisses : Z;
  defaultExpireMs : Z;
  maxSize : Z;
  evictionPolicy : EvictionPolicy
}.

(** [new MemoryCache(defaultExpireMs, maxSize, evictionPolicy)]. *)
Definition new (defaultExpireMs' maxSize' : option Z)
    (policy : option EvictionPolicy) : MemoryCache :=
  {| cache := [];
     statHits := 0;
     statMisses := 0;
     defaultExpireMs :=
       match defaultExpireMs' with Some n => n | None => 3600000 end;
     maxSize := match maxSize' with Some n => n | None => 1000 end;
     evictionPolicy := match policy with Some p => p | None => LRU end |}.

Definition withCache (c : MemoryCache) (m : JsMap.t CacheEntry)
  : MemoryCache :=
  {| cache := m; statHits := statHits c; statMisses := statMisses c;
     defaultExpireMs := defaultExpireMs c; maxSize := maxSize c;
     evictionPolicy := evictionPolicy c |}.

Definition miss (c : MemoryCache) (m : JsMap.t CacheEntry) : MemoryCache :=
  {| cache := m; statHits := statHits c; statMisses := statMisses c + 1;
     defaultExpireMs := defaultExpireMs c; maxSize := maxSize c;
     evictionPolicy := evictionPolicy c |}.

Definition hit (e : CacheEntry) : CacheEntry :=
  {| value := value e; expiresAt := expiresAt e; createdAt := createdAt e;
     hits := hits e + 1 |}.

Definition get (now : Z) (c : MemoryCache) (key : string)
  : MemoryCache * option T :=
  match JsMap.get (cache c) key with
  | None => (miss c (cache c), None)
  | Some entry =>
      if expiresAt entry <? now
      then (miss c (JsMap.delete (cache c) key), None)
      else
        ({| cache := JsMap.set (cache c) key (hit entry);
            statHits := statHits c + 1; statMisses := statMisses c;
            defaultExpireMs := defaultExpireMs c; maxSize := maxSize c;
            evictionPolicy := evictionPolicy c |},
         Some (value entry))
  end.

(** One loop of [evict]: the key of the first entry whose measure is
    below every measure before it and below the initial bound; [None]
    as a bound is [Infinity], [None] as a key is [undefined]. *)
Fixpoint selectKey (measure : CacheEntry -> Z) (bound : option Z)
    (key : option string) (entries : list (string * CacheEntry))
  : option string :=
  match entries with
  | [] => key
  | (k, e) :: r =>
      let below :=
        match bound with
        | Some b => measure e <? b
        | None => true
        end in
      if below then selectKey measure (Some (measure e)) (Some k) r
      else selectKey measure bound key r
  end.

Definition keyToEvict (now : Z) (c : MemoryCache) : option string :=
  match evictionPolicy c with
  | LRU => selectKey expiresAt (Some now) None (cache c)
  | LFU => selectKey hits None None (cache c)
  | FIFO => selectKey createdAt (Some now) None (cache c)
  end.

Definition evict (now : Z) (c : MemoryCache) : MemoryCache :=
  match cache c with
  | [] => c
  | _ =>
      match keyToEvict now c with
      | Some k =>
          if isEmpty k then c            (* [if (keyToEvict)] *)
          else withCache c (JsMap.delete (cache c) k)
      | None => c
      end
  end.

(** [set(key, value, expireMs)]; [None] is the default expiry. *)
Definition set (now : Z) (c : MemoryCache) (key : string) (v : T)
    (expireMs : option Z) : MemoryCache :=
  let c1 :=
    if (maxSize c <=? Z.of_nat (JsMap.size (cache c)))
       && negb (JsMap.has (cache c) key)
    then evict now c else c in
  withCache c1
    (JsMap.set (cache c1) key
       {| value := v;
          expiresAt :=
            now + match expireMs with
                  | Some n => n
                  | None => defaultExpireMs c
                  end;
          createdAt := now;
          hits := 0 |}).

Definition has (now : Z) (c : MemoryCache) (key : string)
  : MemoryCache * bool :=
  match JsMap.get (cache c) key with
  | None => (c, false)
  | Some entry =>
      if expiresAt entry <? now
      then (withCache c (JsMap.delete (cache c) key), false)
      else (c, true)
  end.

Definition delete (c : MemoryCache) (key : string) : MemoryCache :=
  withCache c (JsMap.delete (cache c) key).

Definition clear (c : MemoryCache) : MemoryCache :=
  {| cache := []; statHits := 0; statMisses := 0;
     defaultExpireMs := defaultExpireMs c; maxSize := maxSize c;
     evictionPolicy := evictionPolicy c |}.

Definition size (c : MemoryCache) : nat := JsMap.size (cache c).

(** The periodic sweep started by the constructor. *)
Definition cleanup (now : Z) (c : MemoryCache) : MemoryCache :=
  withCache c
    (List.filter (fun ke => negb (expiresAt (snd ke) <? now)) (cache c)).

Record CacheStats : Type := {
  cs_size : nat;
  cs_hits : Z;
  cs_misses : Z;
  hitRate : Q
}.

Definition getStats (c : MemoryCache) : CacheStats :=
  let total := statHits c + statMisses c in
  {| cs_size := JsMap.size (cache c);
     cs_hits := statHits c;
     cs_misses := statMisses c;
     hitRate := if 0 <? total then statHits c # Z.to_pos total else 0%Q |}.

(** [cached !== undefined]: what [get] answered, when it is a value
    other than [undefined]; [isUndefined] tells which value of [T], if
    any, is [undefined]. *)
Definition defined (isUndefined : T -> bool) (cached : option T) : option T :=
  match cached with
  | Some v => if isUndefined v then None else Some v
  | None => None
  end.

(** The function [createCacheWrapper(fn, cache, expireMs)] answers, called
    on [key]: [fn(key)] is a promise that is fulfilled or rejected; the
    cache is read at [now] and, after the promise is fulfilled, written
    at [later]. *)
Definition createCacheWrapper (isUndefined : T -> bool)
    (fn : string -> Result T) (expireMs : option Z)
    (now later : Z) (c : MemoryCache) (key : string)
  : MemoryCache * Result T :=
  let '(c1, cached) := get now c key in
  match defined isUndefined cached with
  | Some v => (c1, Ok v)
  | None =>
      match fn key with
      | Ok result =>
          (set later c1 key result
             (Some (match expireMs with Some n => n | None => 3600000 end)),
           Ok result)
      | Throw e => (c1, Throw e)
      end
  end.

End WithValue.
Arguments CacheEntry T : clear implicits.
Arguments MemoryCache T : clear implicits.

End Cache.

(** ** logger.ts *)

Module Logger.
Import Types.

Inductive LogLevel : Type := DEBUG | INFO | WARN | ERROR.

Definition levelNumber (l : LogLevel) : Z :=
  match l with DEBUG => 0 | INFO => 1 | WARN => 2 | ERROR => 3 end.

Record LogMessage : Type := {
  level : LogLevel;
  message : string;
  timestamp : Z;
  context : list (string * Value);
  error : option Js.JsError
}.

(** A [MemoryLogHandler]. *)
Record MemoryLogHandler : Type := {
  logs : list LogMessage;
  maxLogs : Z
}.

Definition new (maxLogs' : option Z) : MemoryLogHandler :=
  {| logs := [];
     maxLogs := match maxLogs' with Some n => n | None => 1000 end |}.

(** [handle(message)]: the message is appended and, when the list is
    then longer than [maxLogs], the oldest one leaves. *)
Definition handle (m : MemoryLogHandler) (msg : LogMessage)
  : MemoryLogHandler :=
  let pushed := (logs m ++ [msg])%list in
  {| logs := if maxLogs m <? Z.of_nat (length pushed) then tl pushed
             else pushed;
     maxLogs := maxLogs m |}.

Definition sameLevel (a b : LogLevel) : bool :=
  levelNumber a =? levelNumber b.

Definition getLogs (m : MemoryLogHandler) (level' : option LogLevel)
  : list LogMessage :=
  match level' with
  | None => logs m
  | Some l => List.filter (fun x => sameLevel (level x) l) (logs m)
  end.

Definition clear (m : MemoryLogHandler) : MemoryLogHandler :=
  {| logs := []; maxLogs := maxLogs m |}.

End Logger.

(** ** PluginManager.ts *)

Module PluginManager.
Import Js Types.

(** *** Asynchronous calls

    What the program observes of a call into plugin code: it throws
    before returning, or it returns a value or a promise, which settles
    some time after the call or never.  A value that is not a promise is
    a promise fulfilled at time 0; [after] is the delay, in
    milliseconds, of the timer the call set to settle its promise. *)
Inductive Settlement (A : Type) : Type :=
| Resolves (after : Z) (v : A)
| Rejects (after : Z)
| Never.
Arguments Resolves {A} after v.
Arguments Rejects {A} after.
Arguments Never {A}.

Inductive Behaviour (A : Type) : Type :=
| ThrowsSync
| Returns (p : Settlement A).
Arguments ThrowsSync {A}.
Arguments Returns {A} p.

(** The delay of the timer: [setTimeout] raises a delay below 1 to 1. *)
Definition deadline (timeoutMs : Z) : Z := Z.max 1 timeoutMs.

(** [await withTimeout(promise, timeoutMs, logger)]: the promise wins
    the race when it settles before the timer of [withTimeout] fires.
    The argument of [withTimeout] is evaluated first, so the timer of the
    call is the older one and fires first when the delays are equal: the
    race is lost only by a promise that settles after a longer delay. *)
Definition withTimeout {A : Type} (promise : Settlement A) (timeoutMs : Z)
  : Result A :=
  match promise with
  | Resolves after v =>
      if after <=? deadline timeoutMs then Ok v
      else Throw (Error "Operation timeout")
  | Rejects after =>
      if after <=? deadline timeoutMs then Throw (Error "rejected")
      else Throw (Error "Operation timeout")
  | Never => Throw (Error "Operation timeout")
  end.

(** [await withTimeout(Promise.resolve(f(x)), timeoutMs, logger)] inside
    a [try]. *)
Definition call {A : Type} (b : Behaviour A) (timeoutMs : Z) : Result A :=
  match b with
  | ThrowsSync => Throw (Error "thrown")
  | Returns p => withTimeout p timeoutMs
  end.

(** *** Plugins *)

(** What a processor answers: an article, or anything that is not an
    object (a primitive, [null], [undefined]). *)
Inductive Processed : Type :=
| NotAnObject
| AnObject (a : Article).

(** A call [fn(processed)] of a processor.  The article is handed over
    as the object it is, and nothing keeps the processor from changing
    it in place ([processArticle] does not freeze it, and [Object.freeze],
    where a caller used it, is shallow): [leaves] is that object as the
    loop finds it when it goes on, [answers] is how the call ends.  A
    processor that answers the object it was given answers what it
    leaves. *)
Record ProcessorCall : Type := {
  leaves : Article;
  answers : Behaviour Processed
}.

Definition ArticleProcessor : Type := Article -> ProcessorCall.

(** A search extension answers results or [undefined]. *)
Definition SearchExtension : Type :=
  string -> list Article -> Behaviour (option (list SearchResult)).

(** A call the activation hook makes on its context. *)
Inductive Registration : Type :=
| RegisterArticleProcessor (fn : ArticleProcessor)
| RegisterSearchExtension (fn : SearchExtension).

(** [plugin.activate(context)]: the registrations it makes before the
    activation settles or is given up, and how it ends. *)
Record Activation : Type := {
  registrations : list Registration;
  outcome : Behaviour unit
}.

Record Plugin : Type := {
  name : string;
  version : string;
  description : option string;
  activate : Activation;
  deactivate : option (Behaviour unit)
}.

Record PluginConfig : Type := {
  timeout : option Z;
  maxProcessors : option Z
}.

Record State : Type := {
  plugins : JsMap.t Plugin;
  activePlugins : list string;
  articleProcessors : list (string * ArticleProcessor);
  searchExtensions : list (string * SearchExtension);
  config : PluginConfig;
  disposed : bool
}.

(** [new PluginManager(articleManager, searchEngine, config)]. *)
Definition new (cfg : PluginConfig) : State :=
  {| plugins := [];
     activePlugins := [];
     articleProcessors := [];
     searchExtensions := [];
     config :=
       {| timeout :=
            match timeout cfg with Some t => Some t | None => Some 10000 end;
          maxProcessors :=
            match maxProcessors cfg with
            | Some n => Some n
            | None => Some 100
            end |};
     disposed := false |}.

Definition checkDisposed (s : State) : Result unit :=
  if disposed s then Throw (Error "PluginManager has been disposed")
  else Ok tt.

Definition numberOr (o : option Z) (d : Z) : Z :=
  match o with
  | Some n => if n =? 0 then d else n
  | None => d
  end.

Definition timeoutOf (s : State) : Z := numberOr (timeout (config s)) 10000.
Definition processorLimit (s : State) : Z :=
  numberOr (maxProcessors (config s)) 100.

Definition registerArticleProcessor (s : State) (pluginName : string)
    (fn : ArticleProcessor) : Result State :=
  checkDisposed s ;;
  if processorLimit s <=? Z.of_nat (length (articleProcessors s))
  then Ok s
  else
    Ok {| plugins := plugins s; activePlugins := activePlugins s;
          articleProcessors :=
            (articleProcessors s ++ [(pluginName, fn)])%list;
          searchExtensions := searchExtensions s;
          config := config s; disposed := disposed s |}.

Definition registerSearchExtension (s : State) (pluginName : string)
    (fn : SearchExtension) : Result State :=
  checkDisposed s ;;
  if processorLimit s <=? Z.of_nat (length (searchExtensions s))
  then Ok s
  else
    Ok {| plugins := plugins s; activePlugins := activePlugins s;
          articleProcessors := articleProcessors s;
          searchExtensions :=
            (searchExtensions s ++ [(pluginName, fn)])%list;
          config := config s; disposed := disposed s |}.

(** The calls of the hook on its context, in order. *)
Definition register (pluginName : string) (s : State) (r : Registration)
  : State :=
  match
    match r with
    | RegisterArticleProcessor fn => registerArticleProcessor s pluginName fn
    | RegisterSearchExtension fn => registerSearchExtension s pluginName fn
    end
  with
  | Ok s' => s'
  | Throw _ => s
  end.

Definition addToSet (l : list string) (x : string) : list string :=
  if existsb (String.eqb x) l then l else (l ++ [x])%list.

(** [registerPlugin(plugin)]; [None] is an argument that fails
    [validatePlugin].  The answer is the state afterwards and whether the
    promise is fulfilled or rejected. *)
Definition registerPlugin (s : State) (plugin : option Plugin)
  : State * Result unit :=
  match checkDisposed s with
  | Throw e => (s, Throw e)
  | Ok _ =>
      match plugin with
      | None => (s, Throw (TypeError "Invalid plugin: missing required fields"))
      | Some p =>
          if JsMap.has (plugins s) (name p) then (s, Ok tt)
          else
            let s1 :=
              fold_left (register (name p)) (registrations (activate p)) s in
            match call (outcome (activate p)) (timeoutOf s) with
            | Ok _ =>
                ({| plugins := JsMap.set (plugins s1) (name p) p;
                    activePlugins := addToSet (activePlugins s1) (name p);
                    articleProcessors := articleProcessors s1;
                    searchExtensions := searchExtensions s1;
                    config := config s1; disposed := disposed s1 |},
                 Ok tt)
            | Throw e => (s1, Throw e)
            end
      end
  end.

Definition unregisterPlugin (s : State) (name' : string)
  : State * Result unit :=
  match checkDisposed s with
  | Throw e => (s, Throw e)
  | Ok _ =>
      if isEmpty (trim name')
      then (s, Throw (TypeError "Plugin name must be a non-empty string"))
      else
        match JsMap.get (plugins s) name' with
        | None => (s, Ok tt)
        | Some p =>
            match
              match deactivate p with
              | Some d => call d (timeoutOf s)
              | None => Ok tt
              end
            with
            | Throw e => (s, Throw e)
            | Ok _ =>
                ({| plugins := JsMap.delete (plugins s) name';
                    activePlugins :=
                      List.filter (fun n => negb (String.eqb n name'))
                        (activePlugins s);
                    articleProcessors :=
                      List.filter (fun p => negb (String.eqb (fst p) name'))
                        (articleProcessors s);
                    searchExtensions :=
                      List.filter (fun p => negb (String.eqb (fst p) name'))
                        (searchExtensions s);
                    config := config s; disposed := disposed s |},
                 Ok tt)
            end
        end
  end.

(** [result && typeof result === 'object' && result.id]. *)
Definition accepted (result : Processed) : option Article :=
  match result with
  | AnObject a => if isEmpty (id a) then None else Some a
  | NotAnObject => None
  end.

(** One round of the loop of [processArticle]: [processed] becomes the
    result when it is accepted and stays the object it is otherwise. *)
Definition applyProcessor (timeoutMs : Z) (processed : Article)
    (processor : string * ArticleProcessor) : Article :=
  let called := snd processor processed in
  match call (answers called) timeoutMs with
  | Ok result =>
      match accepted result with
      | Some a => a
      | None => leaves called
      end
  | Throw _ => leaves called
  end.

Definition runProcessors (timeoutMs : Z)
    (processors : list (string * ArticleProcessor)) (a : Article) : Article :=
  fold_left (applyProcessor timeoutMs) processors a.

(** [processArticle(article)] for an article with a string [id]. *)
Definition processArticle (s : State) (a : Article) : Result Article :=
  checkDisposed s ;;
  Ok (runProcessors (timeoutOf s) (articleProcessors s) a).

(** [executeSearchExtensions(query, articles)]. *)
Definition executeSearchExtensions (s : State) (query : string)
    (articles : list Article) : Result (list (list SearchResult)) :=
  checkDisposed s ;;
  Ok (flat_map
        (fun extension : string * SearchExtension =>
           match call (snd extension query articles) (timeoutOf s) with
           | Ok (Some result) => [result]
           | Ok None => []
           | Throw _ => []
           end)
        (searchExtensions s)).

Definition getPlugins (s : State) : Result (list Plugin) :=
  checkDisposed s ;; Ok (JsMap.values (plugins s)).

Definition getActivePlugins (s : State) : Result (list string) :=
  checkDisposed s ;; Ok (activePlugins s).

Definition getPluginInfo (s : State) (name' : string)
  : Result (option Plugin) :=
  checkDisposed s ;; Ok (JsMap.get (plugins s) name').

Record ProcessorStats : Type := {
  totalProcessors : nat;
  totalSearchExtensions : nat;
  processorsByPlugin : JsMap.t Z
}.

Definition getProcessorStats (s : State) : Result ProcessorStats :=
  checkDisposed s ;;
  Ok {| totalProcessors := length (articleProcessors s);
        totalSearchExtensions := length (searchExtensions s);
        processorsByPlugin :=
          fold_left
            (fun m p =>
               JsMap.set m (fst p)
                 (match JsMap.get m (fst p) with
                  | Some n => n + 1
                  | None => 1
                  end))
            (articleProcessors s) [] |}.

(** [cleanup()]: a plugin that fails to unload stays. *)
Definition cleanup (s : State) : State :=
  let s1 :=
    fold_left (fun st n => fst (unregisterPlugin st n)) (activePlugins s) s in
  {| plugins := plugins s1; activePlugins := activePlugins s1;
     articleProcessors := []; searchExtensions := [];
     config := config s1; disposed := disposed s1 |}.

Definition dispose (s : State) : State :=
  if disposed s then s
  else
    let s1 := cleanup s in
    {| plugins := plugins s1; activePlugins := activePlugins s1;
       articleProcessors := articleProcessors s1;
       searchExtensions := searchExtensions s1;
       config := config s1; disposed := true |}.

End PluginManager.

(** ** index.ts: BlogCore *)

Module BlogCore.
Import Js Types.

(** A [BlogCore] with its three components. *)
Record State : Type := {
  articles : ArticleManager.State;
  searchEngine : SearchEngine.State;
  plugins : PluginManager.State;
  initialized : bool;
  initializing : bool;
  disposed : bool
}.

Definition checkDisposed (s : State) : Result unit :=
  if disposed s then Throw (Error "BlogCore has been disposed")
  else Ok tt.

(** An element of the array given to [initialize]: an object whose [id]
    and [content] are strings, or anything else. *)
Inductive Item : Type :=
| NotAnItem
| AnItem (id content : string).

(** One round of the loop of [initialize], on the store and the articles
    processed so far.  An article that cannot be made or stored is
    passed over; when the processors fail as a whole the article is kept
    as it was made. *)
Definition loadItem (h : Host) (pm : PluginManager.State)
    (acc : ArticleManager.State * list Article) (item : Item)
  : ArticleManager.State * list Article :=
  match item with
  | NotAnItem => acc
  | AnItem id content =>
      match ArticleManager.createArticleFromMarkdown h (fst acc) id content with
      | Throw _ => acc
      | Ok article =>
          let processed :=
            match PluginManager.processArticle pm article with
            | Ok p => p
            | Throw _ => article
            end in
          match ArticleManager.addArticle (fst acc) processed with
          | Ok am => (am, (snd acc ++ [processed])%list)
          | Throw _ => acc
          end
      end
  end.

(** [initialize(articles)]; [None] is an argument that is not an array.
    The clock is read as [now h] for every article. *)
Definition initialize (h : Host) (s : State) (articles' : option (list Item))
  : Result State :=
  checkDisposed s ;;
  if initialized s then Ok s
  else if initializing s then Ok s
  else
    match articles' with
    | None => Throw (TypeError "Articles must be an array")
    | Some [] =>
        Ok {| articles := articles s; searchEngine := searchEngine s;
              plugins := plugins s; initialized := true;
              initializing := initializing s; disposed := disposed s |}
    | Some l =>
        let loaded := fold_left (loadItem h (plugins s)) l (articles s, []) in
        let engine :=
          match snd loaded with
          | [] => searchEngine s
          | processedArticles =>
              match
                SearchEngine.indexArticles (searchEngine s)
                  (Some (map SearchEngine.AnArticle processedArticles))
              with
              | Ok engine' => engine'
              | Throw _ => searchEngine s
              end
          end in
        Ok {| articles := fst loaded; searchEngine := engine;
              plugins := plugins s; initialized := true;
              initializing := false; disposed := disposed s |}
    end.

Definition isInitialized (s : State) : bool :=
  initialized s && negb (disposed s).

Definition getArticles (s : State) : Result (list Article) :=
  checkDisposed s ;;
  match ArticleManager.getArticles (articles s) with
  | Ok l => Ok l
  | Throw _ => Ok []
  end.

Definition findArticles (s : State) (query : option string)
  : Result (list SearchResult) :=
  checkDisposed s ;;
  match SearchEngine.search (searchEngine s) query with
  | Ok l => Ok l
  | Throw _ => Ok []
  end.

Definition getStats (s : State) : Result ArticleManager.Stats :=
  checkDisposed s ;;
  match ArticleManager.getStats (articles s) with
  | Ok stats => Ok stats
  | Throw _ =>
      Ok {| ArticleManager.totalArticles := O;
            ArticleManager.totalTags := O;
            ArticleManager.totalCategories := O;
            ArticleManager.totalWords := O;
            ArticleManager.averageReadingTime := 0 |}
  end.

(** [cleanup()]: the plugins first, then the store, then the engine; an
    error ends it where it is. *)
Definition cleanup (s : State) : State :=
  if disposed s then s
  else
    let plugins' := PluginManager.cleanup (plugins s) in
    match ArticleManager.clear (articles s) with
    | Throw _ =>
        {| articles := articles s; searchEngine := searchEngine s;
           plugins := plugins'; initialized := initialized s;
           initializing := initializing s; disposed := disposed s |}
    | Ok articles' =>
        {| articles := articles';
           searchEngine :=
             match SearchEngine.clear (searchEngine s) with
             | Ok engine' => engine'
             | Throw _ => searchEngine s
             end;
           plugins := plugins'; initialized := initialized s;
           initializing := initializing s; disposed := disposed s |}
    end.

End BlogCore.

(* ================================================================== *)
(** * Part II: properties *)
(* ================================================================== *)

Import Js Types.

(** ** Creating an article from its source text *)

Definition dq : string := String (ascii_of_N 34) "".

(** The text [---\ntitle: Hello\ntags: [x,y]\n---\nBody text]. *)
Definition helloSource : string :=
  "---" ++ NL ++ "title: Hello" ++ NL ++ "tags: [x,y]" ++ NL ++ "---" ++ NL
  ++ "Body text".

(** The same text with the tags written as JSON strings. *)
Definition helloSourceQuoted : string :=
  "---" ++ NL ++ "title: Hello" ++ NL
  ++ "tags: [" ++ dq ++ "x" ++ dq ++ "," ++ dq ++ "y" ++ dq ++ "]" ++ NL
  ++ "---" ++ NL ++ "Body text".

Definition helloArticle (h : Host) (s : ArticleManager.State)
    (source : string) (tags' : list string) : Article :=
  {| id := "a";
     title := "Hello";
     description := "Body text...";
     content := "Body text";
     date := Some (now h);
     updated := None;
     author := Utils.truthyString
                 (ArticleManager.defaultAuthor (ArticleManager.config s));
     tags := tags';
     categories := [];
     image := None;
     draft := false;
     readingTime := 1;
     meta := None;
     keywords := None;
     raw := Some source |}.

Example frontmatter_of_helloSource :
  forall h,
    Utils.parseFrontmatter h helloSource
    = ({| Utils.own := [("title", VStr "Hello"); ("tags", VStr "[x,y]")];
          Utils.proto := None |},
       "Body text").
Proof. intros h. vm_compute. reflexivity. Qed.

(** [JSON.parse] rejects the unquoted list for its syntax, not for want
    of recursion depth in the model. *)
Example json_rejects_unquoted_list : Json.parseText "[x,y]" = Json.PSyntax.
Proof. vm_compute. reflexivity. Qed.

Example json_reads_quoted_list :
  Json.parse ("[" ++ dq ++ "x" ++ dq ++ "," ++ dq ++ "y" ++ dq ++ "]")
  = Some (VArr [VStr "x"; VStr "y"]).
Proof. vm_compute. reflexivity. Qed.

Lemma createArticle_helloSource :
  forall h s,
    ArticleManager.createArticleFromMarkdown h s "a" helloSource
    = Ok (helloArticle h s helloSource []).
Proof. intros h s. vm_compute. reflexivity. Qed.

Lemma createArticle_helloSourceQuoted :
  forall h s,
    ArticleManager.createArticleFromMarkdown h s "a" helloSourceQuoted
    = Ok (helloArticle h s helloSourceQuoted ["x"; "y"]).
Proof. intros h s. vm_compute. reflexivity. Qed.

(** Whatever the host and the manager, the article created from
    [helloSource] does not have the tags x and y. *)
Lemma C1_tags_not_parsed :
  ~ (exists h s a,
        ArticleManager.createArticleFromMarkdown h s "a" helloSource = Ok a
        /\ title a = "Hello"
        /\ tags a = ["x"; "y"]
        /\ content a = "Body text").
Proof.
  intros (h & s & a & Hcreate & _ & Htags & _).
  rewrite createArticle_helloSource in Hcreate.
  injection Hcreate as <-.
  discriminate Htags.
Qed.

(** C1, the defect: the article created from [helloSource] with id [a]
    has the title Hello and the body [Body text] but no tag at all,
    where the tags x and y are expected.  The array branch of
    [parseValue] hands the bracketed value to [JSON.parse], which rejects
    the unquoted list, so the value stays a string and is not taken for
    a list of tags.  The same branch reads the list when its elements
    are written as JSON strings: the article then has exactly the tags x
    and y. *)
Theorem C1_createArticle_from_source :
  forall h s,
    (exists a,
        ArticleManager.createArticleFromMarkdown h s "a" helloSource = Ok a
        /\ title a = "Hello" /\ tags a = [] /\ content a = "Body text")
    /\
    (exists a,
        ArticleManager.createArticleFromMarkdown h s "a" helloSourceQuoted
        = Ok a
        /\ title a = "Hello" /\ tags a = ["x"; "y"]
        /\ content a = "Body text").
Proof.
  intros h s. split.
  - exists (helloArticle h s helloSource []).
    rewrite createArticle_helloSource. repeat split.
  - exists (helloArticle h s helloSourceQuoted ["x"; "y"]).
    rewrite createArticle_helloSourceQuoted. repeat split.
Qed.

(** ** Facts about maps in insertion order *)


Section JsMapFacts.
Context {V : Type}.
Implicit Types (m : JsMap.t V) (k : string) (v : V).

Lemma has_true_get m k :
  JsMap.has m k = true <-> exists v, JsMap.get m k = Some v.
Proof.
  unfold JsMap.has. destruct (JsMap.get m k) as [v|].
  - split; [eauto | reflexivity].
  - split; [discriminate | intros [v Hv]; discriminate].
Qed.

Lemma has_false_get m k : JsMap.has m k = false <-> JsMap.get m k = None.
Proof.
  unfold JsMap.has. destruct (JsMap.get m k); split; congruence.
Qed.

Lemma get_In m k v : JsMap.get m k = Some v -> In (k, v) m.
Proof.
  induction m as [|[k' v'] r IH]; simpl; [discriminate|].
  destruct (String.eqb k' k) eqn:E.
  - apply String.eqb_eq in E. intros [= ->]. subst. now left.
  - intros H. right. auto.
Qed.

Lemma get_None_keys m k : JsMap.get m k = None <-> ~ In k (JsMap.keys m).
Proof.
  induction m as [|[k' v'] r IH]; simpl.
  - split; [intros _ []| reflexivity].
  - destruct (String.eqb k' k) eqn:E.
    + apply String.eqb_eq in E. split; [discriminate | intros H; exfalso; auto].
    + apply String.eqb_neq in E. rewrite IH. tauto.
Qed.

Lemma has_In_keys m k : JsMap.has m k = true <-> In k (JsMap.keys m).
Proof.
  destruct (JsMap.has m k) eqn:E.
  - split; [intros _ | reflexivity].
    destruct (in_dec string_dec k (JsMap.keys m)) as [|Hn]; [assumption|].
    apply get_None_keys in Hn. apply has_false_get in Hn. congruence.
  - apply has_false_get in E. apply get_None_keys in E.
    split; [discriminate | contradiction].
Qed.

Lemma In_get m k v :
  NoDup (JsMap.keys m) -> In (k, v) m -> JsMap.get m k = Some v.
Proof.
  induction m as [|[k' v'] r IH]; simpl; [intros _ []|].
  intros Hnd [H|H].
  - injection H as -> ->. now rewrite String.eqb_refl.
  - inversion Hnd as [|? ? Hnot Hnd']; subst.
    destruct (String.eqb k' k) eqn:E.
    + apply String.eqb_eq in E. subst. exfalso. apply Hnot.
      change k with (fst (k, v)). now apply in_map.
    + auto.
Qed.

Lemma get_set_same m k v : JsMap.get (JsMap.set m k v) k = Some v.
Proof.
  induction m as [|[k' v'] r IH]; simpl.
  - now rewrite String.eqb_refl.
  - destruct (String.eqb k' k) eqn:E; simpl; rewrite E; auto.
Qed.

Lemma get_set_other m k k' v :
  k <> k' -> JsMap.get (JsMap.set m k v) k' = JsMap.get m k'.
Proof.
  intros Hne. induction m as [|[k0 v0] r IH]; simpl.
  - apply String.eqb_neq in Hne. now rewrite Hne.
  - destruct (String.eqb k0 k) eqn:E; simpl.
    + apply String.eqb_eq in E. subst k0.
      apply String.eqb_neq in Hne. now rewrite Hne.
    + destruct (String.eqb k0 k'); auto.
Qed.

Lemma keys_set_present m k v :
  JsMap.has m k = true -> JsMap.keys (JsMap.set m k v) = JsMap.keys m.
Proof.
  unfold JsMap.has. induction m as [|[k' v'] r IH]; simpl; [discriminate|].
  destruct (String.eqb k' k) eqn:E; simpl; [reflexivity|].
  intros H. f_equal. auto.
Qed.

Lemma keys_set_absent m k v :
  JsMap.has m k = false ->
  JsMap.keys (JsMap.set m k v) = (JsMap.keys m ++ [k])%list.
Proof.
  unfold JsMap.has. induction m as [|[k' v'] r IH]; simpl; [reflexivity|].
  destruct (String.eqb k' k) eqn:E; simpl; [discriminate|].
  intros H. f_equal. auto.
Qed.

Lemma In_keys_set m k v k' :
  In k' (JsMap.keys (JsMap.set m k v)) <-> k' = k \/ In k' (JsMap.keys m).
Proof.
  destruct (JsMap.has m k) eqn:E.
  - rewrite keys_set_present by assumption.
    apply has_In_keys in E. split; [tauto | intros [->|]; assumption].
  - rewrite keys_set_absent by assumption. rewrite in_app_iff. simpl.
    split; [intros [|[|[]]]; auto | intros [|]; auto].
Qed.

Lemma NoDup_keys_set m k v :
  NoDup (JsMap.keys m) -> NoDup (JsMap.keys (JsMap.set m k v)).
Proof.
  intros Hnd. destruct (JsMap.has m k) eqn:E.
  - now rewrite keys_set_present.
  - rewrite keys_set_absent by assumption.
    apply has_false_get, get_None_keys in E.
    apply NoDup_rev in Hnd.
    rewrite <- (rev_involutive (JsMap.keys m ++ [k])).
    apply NoDup_rev. rewrite rev_app_distr. simpl.
    constructor; [now rewrite <- in_rev | assumption].
Qed.

Lemma size_set_present m k v :
  JsMap.has m k = true -> JsMap.size (JsMap.set m k v) = JsMap.size m.
Proof.
  intros H. unfold JsMap.size.
  rewrite <- (length_map fst), <- (length_map fst m).
  fold (JsMap.keys (JsMap.set m k v)). fold (JsMap.keys m).
  now rewrite keys_set_present.
Qed.

Lemma size_set_absent m k v :
  JsMap.has m k = false -> JsMap.size (JsMap.set m k v) = S (JsMap.size m).
Proof.
  intros H. unfold JsMap.size.
  rewrite <- (length_map fst), <- (length_map fst m).
  fold (JsMap.keys (JsMap.set m k v)). fold (JsMap.keys m).
  rewrite keys_set_absent by assumption. rewrite length_app. simpl. lia.
Qed.

Lemma size_delete_present m k :
  JsMap.has m k = true -> S (JsMap.size (JsMap.delete m k)) = JsMap.size m.
Proof.
  unfold JsMap.has, JsMap.size.
  induction m as [|[k' v'] r IH]; simpl; [discriminate|].
  destruct (String.eqb k' k) eqn:E; simpl; [reflexivity|].
  intros H. f_equal. auto.
Qed.

Lemma size_delete_le m k : (JsMap.size (JsMap.delete m k) <= JsMap.size m)%nat.
Proof.
  unfold JsMap.size. induction m as [|[k' v'] r IH]; simpl; [lia|].
  destruct (String.eqb k' k); simpl; lia.
Qed.

End JsMapFacts.

(** ** The cache: eviction *)

Section CacheFacts.
Context {T : Type}.
Implicit Types (c : Cache.MemoryCache T).

(** The loop of [evict] answers the key it started with or a key of the
    cache. *)
Lemma selectKey_key (measure : Cache.CacheEntry T -> Z) entries :
  forall bound key,
    Cache.selectKey measure bound key entries = key
    \/ exists k, Cache.selectKey measure bound key entries = Some k
                 /\ In k (JsMap.keys entries).
Proof.
  induction entries as [|[k e] r IH]; intros bound key; simpl.
  - now left.
  - destruct (match bound with Some b => measure e <? b | None => true end).
    + destruct (IH (Some (measure e)) (Some k)) as [H|(k' & H & Hin)].
      * right. exists k. split; [assumption | now left].
      * right. exists k'. split; [assumption | now right].
    + destruct (IH bound key) as [H|(k' & H & Hin)].
      * now left.
      * right. exists k'. split; [assumption | now right].
Qed.

(** Without an initial bound the loop selects a key as soon as there is
    an entry: the case of LFU, which starts from [Infinity]. *)
Lemma selectKey_unbounded (measure : Cache.CacheEntry T -> Z) entries key :
  entries <> [] ->
  exists k, Cache.selectKey measure None key entries = Some k
            /\ In k (JsMap.keys entries).
Proof.
  destruct entries as [|[k e] r]; [congruence|]. intros _. simpl.
  destruct (selectKey_key measure r (Some (measure e)) (Some k))
    as [H|(k' & H & Hin)].
  - exists k. split; [assumption | now left].
  - exists k'. split; [assumption | now right].
Qed.

(** With the clock as initial bound the loop selects nothing when no
    measure is below the clock: the case of LRU and FIFO. *)
Lemma selectKey_bounded_none (measure : Cache.CacheEntry T -> Z) now entries :
  Forall (fun ke => now <= measure (snd ke)) entries ->
  Cache.selectKey measure (Some now) None entries = None.
Proof.
  induction 1 as [|[k e] r Hle _ IH]; simpl; [reflexivity|].
  simpl in Hle. destruct (measure e <? now) eqn:E; [lia | assumption].
Qed.

Lemma evict_cases now c :
  Cache.evict now c = c
  \/ exists k, Cache.evict now c
               = Cache.withCache c (JsMap.delete (Cache.cache c) k).
Proof.
  unfold Cache.evict.
  destruct (Cache.cache c) as [|x r] eqn:Ec; [now left|]. rewrite <- Ec.
  destruct (Cache.keyToEvict now c) as [k|]; [|now left].
  destruct (isEmpty k); [now left|]. right. now exists k.
Qed.

Lemma evict_size_le now c :
  (Cache.size (Cache.evict now c) <= Cache.size c)%nat.
Proof.
  destruct (evict_cases now c) as [->|[k ->]]; [lia|].
  unfold Cache.size. simpl. apply size_delete_le.
Qed.

Lemma delete_absent {V : Type} (m : JsMap.t V) k :
  JsMap.has m k = false -> JsMap.delete m k = m.
Proof.
  unfold JsMap.has. induction m as [|[k' v'] r IH]; simpl; [reflexivity|].
  destruct (String.eqb k' k); [discriminate|]. intros H. f_equal. auto.
Qed.

(** [evict] removes at most one entry. *)
Lemma evict_size_ge now c :
  (Cache.size c <= S (Cache.size (Cache.evict now c)))%nat.
Proof.
  destruct (evict_cases now c) as [->|[k ->]]; [lia|].
  unfold Cache.size. simpl.
  destruct (JsMap.has (Cache.cache c) k) eqn:Eh.
  - rewrite (size_delete_present _ _ Eh). lia.
  - rewrite delete_absent by assumption. lia.
Qed.

(** A [set] with a key that is present never evicts: the keys and their
    order are unchanged. *)
Lemma set_present_keeps_keys now c key v expireMs :
  JsMap.has (Cache.cache c) key = true ->
  JsMap.keys (Cache.cache (Cache.set now c key v expireMs))
  = JsMap.keys (Cache.cache c).
Proof.
  intros H. unfold Cache.set. rewrite H, andb_false_r. simpl.
  now apply keys_set_present.
Qed.

(** Below capacity a [set] never evicts. *)
Lemma set_below_capacity now c key v expireMs :
  Z.of_nat (Cache.size c) < Cache.maxSize c ->
  Cache.cache (Cache.set now c key v expireMs)
  = JsMap.set (Cache.cache c) key
      {| Cache.value := v;
         Cache.expiresAt :=
           now + match expireMs with
                 | Some n => n
                 | None => Cache.defaultExpireMs c
                 end;
         Cache.createdAt := now;
         Cache.hits := 0 |}.
Proof.
  intros H. unfold Cache.set, Cache.size in *.
  destruct (Cache.maxSize c <=? Z.of_nat (JsMap.size (Cache.cache c))) eqn:E;
    [lia | reflexivity].
Qed.

(** Under LFU a cache at capacity whose keys are not empty strings loses
    exactly one entry to a [set] with a new key, so it stays within its
    capacity. *)
Lemma lfu_set_within_capacity now c key v expireMs :
  Cache.evictionPolicy c = Cache.LFU ->
  ~ In "" (JsMap.keys (Cache.cache c)) ->
  (0 < Cache.size c)%nat ->
  Z.of_nat (Cache.size c) <= Cache.maxSize c ->
  Z.of_nat (Cache.size (Cache.set now c key v expireMs)) <= Cache.maxSize c.
Proof.
  intros Hp Hne Hpos Hle. unfold Cache.set, Cache.size in *.
  destruct (JsMap.has (Cache.cache c) key) eqn:Eh.
  - rewrite andb_false_r. simpl. rewrite size_set_present by assumption. lia.
  - rewrite andb_true_r.
    destruct (Cache.maxSize c <=? Z.of_nat (JsMap.size (Cache.cache c))) eqn:E.
    + assert (exists k, Cache.keyToEvict now c = Some k
                        /\ In k (JsMap.keys (Cache.cache c)))
        as (k & Hk & Hin).
      { unfold Cache.keyToEvict. rewrite Hp. apply selectKey_unbounded.
        intros E0. rewrite E0 in Hpos. simpl in Hpos. lia. }
      unfold Cache.evict. rewrite Hk.
      destruct (Cache.cache c) as [|x r] eqn:Ec; [simpl in Hpos; lia|].
      rewrite <- Ec in *.
      destruct (isEmpty k) eqn:Ek.
      { destruct k; [contradiction | discriminate]. }
      simpl.
      apply has_In_keys in Hin.
      pose proof (size_delete_present _ _ Hin) as Hd.
      destruct (JsMap.has (JsMap.delete (Cache.cache c) k) key) eqn:Eh2.
      * rewrite size_set_present by assumption. lia.
      * rewrite size_set_absent by assumption. lia.
    + simpl. rewrite size_set_absent by assumption. lia.
Qed.

End CacheFacts.

(** The caches of the examples hold numbers and have room for two
    entries. *)
Definition cacheOfTwo (policy : Cache.EvictionPolicy) : Cache.MemoryCache nat :=
  Cache.new None (Some 2) (Some policy).

(** FIFO, the three insertions at three successive instants: A is
    evicted. *)
Example fifo_evicts_first_inserted :
  JsMap.keys (Cache.cache
    (Cache.set 1002 (Cache.set 1001 (Cache.set 1000 (cacheOfTwo Cache.FIFO)
       "A" 1%nat None) "B" 2%nat None) "C" 3%nat None))
  = ["B"; "C"].
Proof. vm_compute. reflexivity. Qed.

(** LFU, A read once before C is inserted: B is evicted. *)
Example lfu_evicts_least_used :
  let c2 := Cache.set 1000 (Cache.set 1000 (cacheOfTwo Cache.LFU)
              "A" 1%nat None) "B" 2%nat None in
  let c3 := fst (Cache.get 1000 c2 "A") in
  JsMap.keys (Cache.cache (Cache.set 1000 c3 "C" 3%nat None)) = ["A"; "C"].
Proof. vm_compute. reflexivity. Qed.

(** FIFO, the three insertions within one millisecond: no creation time
    is below the clock and nothing is evicted. *)
Example fifo_same_instant_evicts_nothing :
  JsMap.keys (Cache.cache
    (Cache.set 1000 (Cache.set 1000 (Cache.set 1000 (cacheOfTwo Cache.FIFO)
       "A" 1%nat None) "B" 2%nat None) "C" 3%nat None))
  = ["A"; "B"; "C"].
Proof. vm_compute. reflexivity. Qed.

(** LRU and FIFO evict nothing from a cache none of whose entries has
    expired, respectively was created before the present instant. *)
Lemma lru_evicts_only_expired (now : Z) (c : Cache.MemoryCache nat) :
  Cache.evictionPolicy c = Cache.LRU ->
  Forall (fun ke => now <= Cache.expiresAt (snd ke)) (Cache.cache c) ->
  Cache.evict now c = c.
Proof.
  intros Hp Hall. unfold Cache.evict, Cache.keyToEvict. rewrite Hp.
  rewrite selectKey_bounded_none by assumption.
  now destruct (Cache.cache c).
Qed.

(** C3, the defect: under LRU (the default policy), with room for two
    entries and the default expiry of one hour, inserting A, B and C at
    successive instants evicts nothing, and the cache holds three
    entries. *)
Theorem C3_lru_exceeds_capacity :
  let c :=
    Cache.set 1002 (Cache.set 1001 (Cache.set 1000 (cacheOfTwo Cache.LRU)
      "A" 1%nat None) "B" 2%nat None) "C" 3%nat None in
  JsMap.keys (Cache.cache c) = ["A"; "B"; "C"]
  /\ Cache.size c = 3%nat
  /\ Cache.maxSize c = 2.
Proof. vm_compute. repeat split. Qed.

(** ** Sorting *)

Section SortFacts.
Context {A : Type}.
Variable cmp : A -> A -> Z.

Lemma insertBy_perm x l : Permutation (Utils.insertBy cmp x l) (x :: l).
Proof.
  induction l as [|y r IH]; simpl; [reflexivity|].
  destruct (cmp x y <=? 0); [reflexivity|].
  rewrite IH. apply perm_swap.
Qed.

Lemma sortBy_perm l : Permutation (Utils.sortBy cmp l) l.
Proof.
  induction l as [|x r IH]; simpl; [reflexivity|].
  rewrite insertBy_perm. now constructor.
Qed.

Lemma sortBy_length l : length (Utils.sortBy cmp l) = length l.
Proof. apply Permutation_length, sortBy_perm. Qed.

Lemma sortBy_In x l : In x (Utils.sortBy cmp l) <-> In x l.
Proof.
  split; apply Permutation_in; [|symmetry]; apply sortBy_perm.
Qed.

End SortFacts.

(** ** The article store: drafts *)

Definition notDraft (a : Article) : Prop := draft a = false.

Lemma visible_not_draft s :
  ArticleManager.includeDrafts (ArticleManager.config s) <> Some true ->
  Forall notDraft (ArticleManager.visible s).
Proof.
  intros Hcfg. unfold ArticleManager.visible.
  destruct (ArticleManager.includeDrafts (ArticleManager.config s))
    as [[|]|]; try congruence;
    apply Forall_forall; intros a Ha; apply filter_In in Ha;
    destruct Ha as [_ Ha]; unfold notDraft; now destruct (draft a).
Qed.

Lemma In_firstn_list {A : Type} (x : A) n l : In x (firstn n l) -> In x l.
Proof.
  intros H. rewrite <- (firstn_skipn n l). apply in_or_app. now left.
Qed.

Lemma In_skipn_list {A : Type} (x : A) n l : In x (skipn n l) -> In x l.
Proof.
  intros H. rewrite <- (firstn_skipn n l). apply in_or_app. now right.
Qed.

Lemma slice_incl {A : Type} (l : list A) start stop :
  incl (ArticleManager.slice l start stop) l.
Proof.
  unfold ArticleManager.slice. intros x Hx.
  apply In_firstn_list in Hx. eapply In_skipn_list; eassumption.
Qed.

Lemma paginate_incl options l : incl (ArticleManager.paginate options l) l.
Proof.
  unfold ArticleManager.paginate.
  destruct options as [o|]; [|apply incl_refl].
  destruct (ArticleManager.truthyNumber (ArticleManager.page o));
    [|apply incl_refl].
  destruct (ArticleManager.truthyNumber (ArticleManager.pageSize o));
    [apply slice_incl | apply incl_refl].
Qed.

Lemma applyFilter_incl h filter l :
  incl (ArticleManager.applyFilter h filter l) l.
Proof.
  unfold ArticleManager.applyFilter, Utils.filterArticles.
  destruct filter as [f|]; [|apply incl_refl].
  destruct (Utils.truthyString (f_search f)); intros x Hx;
    repeat (apply filter_In in Hx; destruct Hx as [Hx _]); assumption.
Qed.

(** The reads that go through [getArticles] leave drafts out unless the
    store was told to include them. *)
Lemma listing_reads_exclude_drafts h s :
  ArticleManager.includeDrafts (ArticleManager.config s) <> Some true ->
  (forall l, ArticleManager.getArticles s = Ok l -> Forall notDraft l)
  /\ (forall filter options r,
         ArticleManager.getArticleList h s filter options = Ok r ->
         Forall notDraft (items r))
  /\ (forall articleId limit l,
         ArticleManager.getRelatedArticles s articleId limit = Ok l ->
         Forall notDraft l).
Proof.
  intros Hcfg. pose proof (visible_not_draft s Hcfg) as Hv.
  rewrite Forall_forall in Hv.
  unfold ArticleManager.getArticleList, ArticleManager.getRelatedArticles,
    ArticleManager.getArticles, ArticleManager.checkDisposed.
  destruct (ArticleManager.disposed s); simpl.
  - repeat split; intros; discriminate.
  - split; [|split].
    + intros l [= <-]. now apply Forall_forall.
    + intros filter options r [= <-]. simpl. apply Forall_forall.
      intros a Ha. apply Hv.
      apply paginate_incl in Ha. apply sortBy_In in Ha.
      now apply applyFilter_incl in Ha.
    + intros articleId limit l.
      destruct (JsMap.get (ArticleManager.articles s) articleId) as [a0|];
        intros [= <-]; [|constructor].
      apply Forall_forall. intros a Ha.
      apply in_map_iff in Ha. destruct Ha as ([a' sc] & <- & Ha). simpl.
      apply In_firstn_list in Ha. apply sortBy_In in Ha.
      apply filter_In in Ha. destruct Ha as [Ha _].
      apply in_map_iff in Ha. destruct Ha as (a'' & [= -> _] & Ha).
      apply filter_In in Ha. destruct Ha as [Ha _]. now apply Hv.
Qed.

Definition defaultStore : ArticleManager.ArticleManagerConfig :=
  {| ArticleManager.includeDrafts := None;
     ArticleManager.defaultAuthor := None;
     ArticleManager.maxArticles := None |}.

Definition draftArticle : Article :=
  {| id := "d"; title := "Unfinished"; description := "A draft";
     content := "Not ready"; date := Some 0; updated := None;
     author := None; tags := []; categories := []; image := None;
     draft := true; readingTime := 1; meta := None; keywords := None;
     raw := None |}.

(** C4, the defect: in a store with the default configuration that
    holds one draft, [getArticles] leaves the draft out and
    [getArticleById] answers it. *)
Theorem C4_getArticleById_returns_draft :
  exists s0 s,
    ArticleManager.new defaultStore = Ok s0
    /\ ArticleManager.addArticle s0 draftArticle = Ok s
    /\ ArticleManager.getArticles s = Ok []
    /\ ArticleManager.getArticleById s "d" = Ok (Some draftArticle)
    /\ draft draftArticle = true.
Proof.
  eexists. eexists. repeat split.
Qed.

(** ** The article store: pagination *)

Definition pageOf (options : option ArticleManager.ListOptions) : option Z :=
  match options with Some o => ArticleManager.page o | None => None end.

Definition pageSizeOf (options : option ArticleManager.ListOptions)
  : option Z :=
  match options with Some o => ArticleManager.pageSize o | None => None end.

(** An option that is absent or 0. *)
Definition absentOrZero (o : option Z) : Prop := o = None \/ o = Some 0.

Lemma truthyNumber_absentOrZero o :
  absentOrZero o <-> ArticleManager.truthyNumber o = None.
Proof.
  unfold absentOrZero, ArticleManager.truthyNumber.
  destruct o as [n|]; [|tauto].
  destruct (n =? 0) eqn:E.
  - apply Z.eqb_eq in E. subst. tauto.
  - apply Z.eqb_neq in E. split; [intros [|]; congruence | discriminate].
Qed.

Lemma truthyNumber_nonzero n :
  n <> 0 -> ArticleManager.truthyNumber (Some n) = Some n.
Proof.
  intros H. unfold ArticleManager.truthyNumber.
  apply Z.eqb_neq in H. now rewrite H.
Qed.

(** The filtered and sorted list of [getArticleList], before paging. *)
Definition listed (h : Host) (s : ArticleManager.State)
    (filter : option ArticleFilter)
    (options : option ArticleManager.ListOptions) : list Article :=
  Utils.sortArticles
    (ArticleManager.applyFilter h filter (ArticleManager.visible s))
    (ArticleManager.sortOrder options).

(** C10: [getArticleList] pages its answer only when [page] and
    [pageSize] are both given and not 0.  When either is absent or 0 the
    whole filtered and sorted list is answered and [filtered] equals
    [total]; when both are given and not 0, each is raised to at least 1
    and the list is sliced accordingly. *)
Theorem C10_pagination_needs_page_and_pageSize :
  forall h s filter options r,
    ArticleManager.getArticleList h s filter options = Ok r ->
    total r = length (listed h s filter options)
    /\ filtered r = length (items r)
    /\ (absentOrZero (pageOf options) \/ absentOrZero (pageSizeOf options) ->
        items r = listed h s filter options /\ filtered r = total r)
    /\ (forall p ps,
           pageOf options = Some p -> pageSizeOf options = Some ps ->
           p <> 0 -> ps <> 0 ->
           let start := (Z.max 1 p - 1) * Z.max 1 ps in
           items r
           = ArticleManager.slice (listed h s filter options)
               start (start + Z.max 1 ps)).
Proof.
  intros h s filter options r.
  unfold ArticleManager.getArticleList, ArticleManager.getArticles,
    ArticleManager.checkDisposed.
  destruct (ArticleManager.disposed s); simpl; [discriminate|].
  intros [= <-]. simpl. fold (listed h s filter options).
  split; [|split; [reflexivity|split]].
  - unfold listed, Utils.sortArticles. now rewrite sortBy_length.
  - intros Habs.
    assert (ArticleManager.paginate options (listed h s filter options)
            = listed h s filter options) as ->.
    { unfold ArticleManager.paginate. destruct options as [o|]; [|reflexivity].
      simpl in Habs.
      destruct Habs as [H|H]; apply truthyNumber_absentOrZero in H; rewrite H;
        [reflexivity|].
      now destruct (ArticleManager.truthyNumber (ArticleManager.page o)). }
    split; [reflexivity|].
    unfold listed, Utils.sortArticles. now rewrite sortBy_length.
  - intros p ps Hp Hps Hp0 Hps0. unfold ArticleManager.paginate.
    destruct options as [o|]; [|discriminate]. simpl in Hp, Hps.
    rewrite Hp, Hps, !truthyNumber_nonzero by assumption. reflexivity.
Qed.

Definition exampleHost : Host :=
  {| now := 0;
     Date_parse := fun _ => None;
     Date_toString := fun _ => "";
     Date_getFullYear := fun _ => 1970;
     Number_toString := fun _ => "" |}.

Definition plainArticle (id' title' content' : string) (date' : Z) : Article :=
  {| id := id'; title := title'; description := ""; content := content';
     date := Some date'; updated := None; author := None; tags := [];
     categories := []; image := None; draft := false; readingTime := 1;
     meta := None; keywords := None; raw := None |}.

Definition first : Article := plainArticle "p1" "First" "one" 1000.
Definition second : Article := plainArticle "p2" "Second" "two" 3000.
Definition third : Article := plainArticle "p3" "Third" "three" 2000.

Definition storeOfThree : ArticleManager.State :=
  {| ArticleManager.articles := [("p1", first); ("p2", second); ("p3", third)];
     ArticleManager.config := defaultStore;
     ArticleManager.disposed := false |}.

Definition paging (p ps : Z) : option ArticleManager.ListOptions :=
  Some {| ArticleManager.sort := None;
          ArticleManager.page := Some p;
          ArticleManager.pageSize := Some ps |}.

(** With [page] 0 and [pageSize] 2 the three articles are answered,
    newest first; with [page] -3 and [pageSize] 2 the first page of two. *)
Lemma C10_pagination_witness :
  (exists r,
      ArticleManager.getArticleList exampleHost storeOfThree None (paging 0 2)
      = Ok r
      /\ items r = [second; third; first] /\ filtered r = total r)
  /\ (exists r,
      ArticleManager.getArticleList exampleHost storeOfThree None
        (paging (-3) 2) = Ok r
      /\ items r = [second; third]).
Proof.
  split.
  - eexists. split; [reflexivity|].
    destruct (C10_pagination_needs_page_and_pageSize
                exampleHost storeOfThree None (paging 0 2) _ eq_refl)
      as (_ & _ & Hall & _).
    destruct (Hall (or_introl (or_intror eq_refl))) as [Hitems Hsame].
    split; [rewrite Hitems; reflexivity | exact Hsame].
  - eexists. split; [reflexivity|].
    destruct (C10_pagination_needs_page_and_pageSize
                exampleHost storeOfThree None (paging (-3) 2) _ eq_refl)
      as (_ & _ & _ & Hpage).
    rewrite (Hpage (-3) 2 eq_refl eq_refl); [reflexivity | lia | lia].
Defined.

(** ** Calls after disposal *)

(** The public calls of an [ArticleManager]. *)
Inductive ArticleManagerCall : Type :=
| AddArticle (a : Article)
| CreateArticleFromMarkdown (h : Host) (id content : string)
| GetArticles
| GetArticleById (id : string)
| GetArticleList (h : Host) (filter : option ArticleFilter)
    (options : option ArticleManager.ListOptions)
| GetRelatedArticles (articleId : string) (limit : option Z)
| GetTagStats
| GetCategoryStats
| GetStats
| Clear
| Dispose.

Definition forget {A : Type} (r : Result A) : Result unit :=
  r ;; Ok tt.

(** Whether the call returns or throws. *)
Definition articleManagerCall (s : ArticleManager.State)
    (c : ArticleManagerCall) : Result unit :=
  match c with
  | AddArticle a => forget (ArticleManager.addArticle s a)
  | CreateArticleFromMarkdown h id content =>
      forget (ArticleManager.createArticleFromMarkdown h s id content)
  | GetArticles => forget (ArticleManager.getArticles s)
  | GetArticleById id => forget (ArticleManager.getArticleById s id)
  | GetArticleList h filter options =>
      forget (ArticleManager.getArticleList h s filter options)
  | GetRelatedArticles articleId limit =>
      forget (ArticleManager.getRelatedArticles s articleId limit)
  | GetTagStats => forget (ArticleManager.getTagStats s)
  | GetCategoryStats => forget (ArticleManager.getCategoryStats s)
  | GetStats => forget (ArticleManager.getStats s)
  | Clear => forget (ArticleManager.clear s)
  | Dispose => forget (ArticleManager.dispose s)
  end.

(** The calls of an [ArticleManager] that begin with [checkDisposed]. *)
Definition articleManagerChecked (c : ArticleManagerCall) : bool :=
  match c with
  | CreateArticleFromMarkdown _ _ _ => false
  | _ => true
  end.

(** The public calls of a [SearchEngine]. *)
Inductive SearchEngineCall : Type :=
| IndexArticles (articles : option (list SearchEngine.Unknown))
| Search (query : option string)
| ClearIndex
| GetIndexStats
| DisposeEngine.

Definition searchEngineCall (s : SearchEngine.State) (c : SearchEngineCall)
  : Result unit :=
  match c with
  | IndexArticles articles => forget (SearchEngine.indexArticles s articles)
  | Search query => forget (SearchEngine.search s query)
  | ClearIndex => forget (SearchEngine.clear s)
  | GetIndexStats => forget (SearchEngine.getStats s)
  | DisposeEngine => forget (SearchEngine.dispose s)
  end.

(** The public calls of a [PluginManager]. *)
Inductive PluginManagerCall : Type :=
| RegisterPlugin (plugin : option PluginManager.Plugin)
| UnregisterPlugin (name : string)
| RegisterArticleProcessor (pluginName : string)
    (fn : PluginManager.ArticleProcessor)
| ProcessArticle (a : Article)
| RegisterSearchExtension (pluginName : string)
    (fn : PluginManager.SearchExtension)
| ExecuteSearchExtensions (query : string) (articles : list Article)
| GetPlugins
| GetActivePlugins
| GetPluginInfo (name : string)
| GetProcessorStats
| Cleanup
| DisposePlugins.

(** Whether the call returns (its promise is fulfilled) or throws (its
    promise is rejected). *)
Definition pluginManagerCall (s : PluginManager.State) (c : PluginManagerCall)
  : Result unit :=
  match c with
  | RegisterPlugin plugin => snd (PluginManager.registerPlugin s plugin)
  | UnregisterPlugin name => snd (PluginManager.unregisterPlugin s name)
  | RegisterArticleProcessor pluginName fn =>
      forget (PluginManager.registerArticleProcessor s pluginName fn)
  | ProcessArticle a => forget (PluginManager.processArticle s a)
  | RegisterSearchExtension pluginName fn =>
      forget (PluginManager.registerSearchExtension s pluginName fn)
  | ExecuteSearchExtensions query articles =>
      forget (PluginManager.executeSearchExtensions s query articles)
  | GetPlugins => forget (PluginManager.getPlugins s)
  | GetActivePlugins => forget (PluginManager.getActivePlugins s)
  | GetPluginInfo name => forget (PluginManager.getPluginInfo s name)
  | GetProcessorStats => forget (PluginManager.getProcessorStats s)
  | Cleanup => Ok tt
  | DisposePlugins => Ok tt
  end.

(** The calls of a [PluginManager] that begin with [checkDisposed]. *)
Definition pluginManagerChecked (c : PluginManagerCall) : bool :=
  match c with
  | Cleanup | DisposePlugins => false
  | _ => true
  end.

Lemma articleManager_dispose_sets_flag s s' :
  ArticleManager.dispose s = Ok s' -> ArticleManager.disposed s' = true.
Proof.
  unfold ArticleManager.dispose, ArticleManager.clear,
    ArticleManager.checkDisposed.
  destruct (ArticleManager.disposed s); simpl; [discriminate|].
  now intros [= <-].
Qed.

Lemma searchEngine_dispose_sets_flag s s' :
  SearchEngine.dispose s = Ok s' -> SearchEngine.disposed s' = true.
Proof.
  unfold SearchEngine.dispose, SearchEngine.clear, SearchEngine.checkDisposed.
  destruct (SearchEngine.disposed s); simpl; [discriminate|].
  now intros [= <-].
Qed.

Lemma pluginManager_dispose_sets_flag s :
  PluginManager.disposed (PluginManager.dispose s) = true.
Proof.
  unfold PluginManager.dispose.
  destruct (PluginManager.disposed s) eqn:E; [assumption | reflexivity].
Qed.

Definition defaultPlugins : PluginManager.State :=
  PluginManager.new
    {| PluginManager.timeout := None; PluginManager.maxProcessors := None |}.

(** C5, as stated, fails: on a disposed [PluginManager], [dispose] is a
    public call that returns without an error. *)
Lemma C5_dispose_twice_does_not_throw :
  PluginManager.disposed (PluginManager.dispose defaultPlugins) = true
  /\ PluginManager.dispose (PluginManager.dispose defaultPlugins)
     = PluginManager.dispose defaultPlugins
  /\ ~ throws (pluginManagerCall (PluginManager.dispose defaultPlugins)
                 DisposePlugins).
Proof.
  repeat split. intros [e He]. discriminate He.
Qed.

(** [createArticleFromMarkdown] does not look at the flag either. *)
Example createArticle_after_dispose :
  exists s0 s,
    ArticleManager.new defaultStore = Ok s0
    /\ ArticleManager.dispose s0 = Ok s
    /\ ArticleManager.createArticleFromMarkdown exampleHost s "a" helloSource
       = Ok (helloArticle exampleHost s helloSource []).
Proof.
  eexists. eexists. split; [reflexivity|]. split; [reflexivity|].
  apply createArticle_helloSource.
Qed.

(** C5, amended: once a component is disposed, every public call of the
    [SearchEngine], every public call of the [ArticleManager] that begins
    with the disposed check (all but [createArticleFromMarkdown]) and
    every public call of the [PluginManager] other than [cleanup] and
    [dispose] throws, for all arguments; [dispose] of a disposed
    [PluginManager] returns and changes nothing. *)
Theorem C5_calls_after_dispose_throw :
  (forall s s' c,
      ArticleManager.dispose s = Ok s' ->
      articleManagerChecked c = true ->
      throws (articleManagerCall s' c))
  /\ (forall s s' c,
         SearchEngine.dispose s = Ok s' ->
         throws (searchEngineCall s' c))
  /\ (forall s c,
         pluginManagerChecked c = true ->
         throws (pluginManagerCall (PluginManager.dispose s) c))
  /\ (forall s,
         PluginManager.dispose (PluginManager.dispose s)
         = PluginManager.dispose s).
Proof.
  split; [|split; [|split]].
  - intros s s' c Hd Hc. apply articleManager_dispose_sets_flag in Hd.
    destruct c; try discriminate Hc; eexists;
      unfold articleManagerCall, forget,
        ArticleManager.addArticle, ArticleManager.getArticles,
        ArticleManager.getArticleById, ArticleManager.getArticleList,
        ArticleManager.getRelatedArticles, ArticleManager.getTagStats,
        ArticleManager.getCategoryStats, ArticleManager.getStats,
        ArticleManager.dispose, ArticleManager.clear,
        ArticleManager.checkDisposed;
      rewrite Hd; reflexivity.
  - intros s s' c Hd. apply searchEngine_dispose_sets_flag in Hd.
    destruct c; eexists;
      unfold searchEngineCall, forget, SearchEngine.indexArticles,
        SearchEngine.search, SearchEngine.getStats, SearchEngine.dispose,
        SearchEngine.clear, SearchEngine.checkDisposed;
      rewrite Hd; reflexivity.
  - intros s c Hc. pose proof (pluginManager_dispose_sets_flag s) as Hd.
    destruct c; try discriminate Hc; eexists;
      unfold pluginManagerCall, forget, PluginManager.registerPlugin,
        PluginManager.unregisterPlugin,
        PluginManager.registerArticleProcessor,
        PluginManager.processArticle,
        PluginManager.registerSearchExtension,
        PluginManager.executeSearchExtensions, PluginManager.getPlugins,
        PluginManager.getActivePlugins, PluginManager.getPluginInfo,
        PluginManager.getProcessorStats, PluginManager.checkDisposed;
      rewrite Hd; reflexivity.
  - intros s. unfold PluginManager.dispose at 1.
    now rewrite pluginManager_dispose_sets_flag.
Qed.

Definition freshStore : ArticleManager.State :=
  {| ArticleManager.articles := [];
     ArticleManager.config :=
       {| ArticleManager.includeDrafts := None;
          ArticleManager.defaultAuthor := None;
          ArticleManager.maxArticles := Some 10000 |};
     ArticleManager.disposed := false |}.

Definition defaultEngineConfig : SearchEngine.SearchEngineConfig :=
  {| SearchEngine.minSearchLength := Some 2;
     SearchEngine.highlightTag := Some ("<mark>", "</mark>");
     SearchEngine.caseSensitive := Some false;
     SearchEngine.maxResults := Some 20;
     SearchEngine.maxQueryLength := Some 500;
     SearchEngine.maxIndexSize := Some 100000 |}.

Definition freshEngine : SearchEngine.State :=
  {| SearchEngine.index := [];
     SearchEngine.articles := [];
     SearchEngine.config := defaultEngineConfig;
     SearchEngine.disposed := false |}.

Example new_store : ArticleManager.new defaultStore = Ok freshStore.
Proof. reflexivity. Qed.

Example new_engine : SearchEngine.new SearchEngine.noConfig = Ok freshEngine.
Proof. reflexivity. Qed.

(** The three components of the examples, disposed: a listing, a search
    and a query of the registry all throw. *)
Lemma C5_calls_after_dispose_witness :
  (exists s,
      ArticleManager.dispose freshStore = Ok s
      /\ throws (articleManagerCall s GetArticles))
  /\ (exists s,
         SearchEngine.dispose freshEngine = Ok s
         /\ throws (searchEngineCall s (Search (Some "guide"))))
  /\ throws (pluginManagerCall (PluginManager.dispose defaultPlugins)
               GetPlugins).
Proof.
  destruct C5_calls_after_dispose_throw as (Ha & Hs & Hp & _).
  split; [|split].
  - eexists. split; [reflexivity|].
    exact (Ha freshStore _ GetArticles eq_refl eq_refl).
  - eexists. split; [reflexivity|].
    exact (Hs freshEngine _ (Search (Some "guide")) eq_refl).
  - exact (Hp defaultPlugins GetPlugins eq_refl).
Defined.

(** ** The processor chain *)

(** A processor call the chain skips: it throws, its promise is
    rejected, it has not settled when the timer of the deadline fires,
    or it settles with something that is not an object with a truthy
    [id]. *)
Inductive Skipped (timeoutMs : Z)
  : PluginManager.Behaviour PluginManager.Processed -> Prop :=
| SkippedThrows :
    Skipped timeoutMs PluginManager.ThrowsSync
| SkippedRejects after :
    Skipped timeoutMs (PluginManager.Returns (PluginManager.Rejects after))
| SkippedNever :
    Skipped timeoutMs (PluginManager.Returns PluginManager.Never)
| SkippedLate after v :
    PluginManager.deadline timeoutMs < after ->
    Skipped timeoutMs
      (PluginManager.Returns (PluginManager.Resolves after v))
| SkippedNotAnObject after :
    Skipped timeoutMs
      (PluginManager.Returns
         (PluginManager.Resolves after PluginManager.NotAnObject))
| SkippedNoId after a :
    id a = "" ->
    Skipped timeoutMs
      (PluginManager.Returns
         (PluginManager.Resolves after (PluginManager.AnObject a))).

Lemma skipped_call timeoutMs b :
  Skipped timeoutMs b ->
  match PluginManager.call b timeoutMs with
  | Ok r => PluginManager.accepted r = None
  | Throw _ => True
  end.
Proof.
  unfold PluginManager.call, PluginManager.withTimeout.
  intros H. destruct H as [|t|  |t v Hlate|t|t a Hid]; simpl; trivial.
  - now destruct (t <=? PluginManager.deadline timeoutMs).
  - destruct (t <=? PluginManager.deadline timeoutMs) eqn:E; [lia|trivial].
  - now destruct (t <=? PluginManager.deadline timeoutMs).
  - destruct (t <=? PluginManager.deadline timeoutMs); [|trivial].
    simpl. now rewrite Hid.
Qed.

(** After a skipped call the chain goes on with the object the
    processor was given, as the processor left it. *)
Lemma skipped_keeps_document timeoutMs processed p :
  Skipped timeoutMs (PluginManager.answers (snd p processed)) ->
  PluginManager.applyProcessor timeoutMs processed p
  = PluginManager.leaves (snd p processed).
Proof.
  intros H. apply skipped_call in H. revert H.
  unfold PluginManager.applyProcessor. cbv zeta.
  destruct (PluginManager.call _ _) as [r|]; [|reflexivity].
  now intros ->.
Qed.

Lemma runProcessors_app timeoutMs before after a :
  PluginManager.runProcessors timeoutMs (before ++ after)%list a
  = PluginManager.runProcessors timeoutMs after
      (PluginManager.runProcessors timeoutMs before a).
Proof. unfold PluginManager.runProcessors. apply fold_left_app. Qed.

(** A round of the chain either keeps the object, as the processor left
    it, or takes the accepted answer of the processor. *)
Lemma applyProcessor_cases timeoutMs processed p :
  PluginManager.applyProcessor timeoutMs processed p
  = PluginManager.leaves (snd p processed)
  \/ exists r,
       PluginManager.call (PluginManager.answers (snd p processed)) timeoutMs
       = Ok (PluginManager.AnObject r)
       /\ id r <> ""
       /\ PluginManager.applyProcessor timeoutMs processed p = r.
Proof.
  unfold PluginManager.applyProcessor. cbv zeta.
  destruct (PluginManager.call
              (PluginManager.answers (snd p processed)) timeoutMs)
    as [[|r]|]; simpl; try (now left).
  destruct (isEmpty (id r)) eqn:E; [now left|].
  right. exists r. repeat split. intros H. rewrite H in E. discriminate.
Qed.

Definition withProcessors (s : PluginManager.State)
    (processors : list (string * PluginManager.ArticleProcessor))
  : PluginManager.State :=
  {| PluginManager.plugins := PluginManager.plugins s;
     PluginManager.activePlugins := PluginManager.activePlugins s;
     PluginManager.articleProcessors := processors;
     PluginManager.searchExtensions := PluginManager.searchExtensions s;
     PluginManager.config := PluginManager.config s;
     PluginManager.disposed := PluginManager.disposed s |}.

Definition withId (id' : string) (a : Article) : Article :=
  {| id := id'; title := title a; description := description a;
     content := content a; date := date a; updated := updated a;
     author := author a; tags := tags a; categories := categories a;
     image := image a; draft := draft a; readingTime := readingTime a;
     meta := meta a; keywords := keywords a; raw := raw a |}.

Definition withTags (tags' : list string) (a : Article) : Article :=
  {| id := id a; title := title a; description := description a;
     content := content a; date := date a; updated := updated a;
     author := author a; tags := tags'; categories := categories a;
     image := image a; draft := draft a; readingTime := readingTime a;
     meta := meta a; keywords := keywords a; raw := raw a |}.

Definition withDate (date' : option Z) (a : Article) : Article :=
  {| id := id a; title := title a; description := description a;
     content := content a; date := date'; updated := updated a;
     author := author a; tags := tags a; categories := categories a;
     image := image a; draft := draft a; readingTime := readingTime a;
     meta := meta a; keywords := keywords a; raw := raw a |}.

(** A call that leaves the object it was given as it is. *)
Definition untouched (a : Article)
    (b : PluginManager.Behaviour PluginManager.Processed)
  : PluginManager.ProcessorCall :=
  {| PluginManager.leaves := a; PluginManager.answers := b |}.

(** A processor that answers a copy of its article under the id [b]. *)
Definition renaming : PluginManager.ArticleProcessor :=
  fun a =>
    untouched a
      (PluginManager.Returns
         (PluginManager.Resolves 0 (PluginManager.AnObject (withId "b" a)))).

(** A processor that always throws. *)
Definition throwing : PluginManager.ArticleProcessor :=
  fun a => untouched a PluginManager.ThrowsSync.

(** A processor that answers a tagged copy of its article. *)
Definition tagging : PluginManager.ArticleProcessor :=
  fun a =>
    untouched a
      (PluginManager.Returns
         (PluginManager.Resolves 0
            (PluginManager.AnObject (withTags ["seen"] a)))).

(** A processor that sets the date of the article it is given to the
    epoch ([article.date.setTime(0)]) and throws. *)
Definition backdating : PluginManager.ArticleProcessor :=
  fun a =>
    {| PluginManager.leaves := withDate (Some 0) a;
       PluginManager.answers := PluginManager.ThrowsSync |}.

(** C2, as stated, fails: the answer of [renaming] is an object whose id
    is not the id of the document, yet it is not skipped, and the final
    document does not have the id of the input. *)
Lemma C2_other_id_is_accepted :
  PluginManager.processArticle
    (withProcessors defaultPlugins [("renamer", renaming)]) first
  = Ok (withId "b" first)
  /\ id (withId "b" first) <> id first.
Proof. split; [reflexivity | discriminate]. Qed.

(** What a skipped processor changed on the article in place is not
    undone: after [backdating] the tagging processor works on the
    article with the date of the epoch, and the chain does not answer
    what it answers without [backdating]. *)
Example skipped_processor_change_stays :
  PluginManager.processArticle
    (withProcessors defaultPlugins
       [("backdater", backdating); ("tagger", tagging)]) first
  = Ok (withTags ["seen"] (withDate (Some 0) first))
  /\ PluginManager.processArticle
       (withProcessors defaultPlugins [("tagger", tagging)]) first
     = Ok (withTags ["seen"] first)
  /\ date (withDate (Some 0) first) <> date first.
Proof. split; [reflexivity | split; [reflexivity | discriminate]]. Qed.

(** C2, amended: in [processArticle] a processor that throws, is
    rejected, has not settled when the timer of the deadline fires or
    answers something that is not an object with a truthy id is skipped:
    its answer is dropped and the object it was given, as it left it,
    goes to the next processor; when it left the object as it was, the
    chain answers what it answers without that processor.  In particular
    the processors after one that always throws still run.  The final
    document has the id of the input when no processor changes the id of
    the object it is given and every answer the chain accepts has the id
    of the object the processor was given. *)
Theorem C2_failing_processor_is_skipped :
  forall s a,
    PluginManager.disposed s = false ->
    (forall before p after,
        PluginManager.articleProcessors s = (before ++ p :: after)%list ->
        let given :=
          PluginManager.runProcessors (PluginManager.timeoutOf s) before a in
        Skipped (PluginManager.timeoutOf s)
          (PluginManager.answers (snd p given)) ->
        PluginManager.processArticle s a
        = Ok (PluginManager.runProcessors (PluginManager.timeoutOf s) after
                (PluginManager.leaves (snd p given)))
        /\ (PluginManager.leaves (snd p given) = given ->
            PluginManager.processArticle s a
            = PluginManager.processArticle
                (withProcessors s (before ++ after)%list) a))
    /\ (forall before p after,
           PluginManager.articleProcessors s = (before ++ p :: after)%list ->
           (forall x,
               PluginManager.answers (snd p x) = PluginManager.ThrowsSync) ->
           PluginManager.processArticle s a
           = Ok (PluginManager.runProcessors (PluginManager.timeoutOf s) after
                   (PluginManager.leaves
                      (snd p (PluginManager.runProcessors
                                (PluginManager.timeoutOf s) before a)))))
    /\ ((forall p processed,
            In p (PluginManager.articleProcessors s) ->
            id (PluginManager.leaves (snd p processed)) = id processed) ->
        (forall p processed r,
            In p (PluginManager.articleProcessors s) ->
            PluginManager.call (PluginManager.answers (snd p processed))
              (PluginManager.timeoutOf s)
            = Ok (PluginManager.AnObject r) ->
            id r <> "" ->
            id r = id processed) ->
        exists r, PluginManager.processArticle s a = Ok r /\ id r = id a).
Proof.
  intros s a Hd.
  assert (Hskip : forall before p after,
             PluginManager.articleProcessors s = (before ++ p :: after)%list ->
             Skipped (PluginManager.timeoutOf s)
               (PluginManager.answers
                  (snd p (PluginManager.runProcessors
                            (PluginManager.timeoutOf s) before a))) ->
             PluginManager.processArticle s a
             = Ok (PluginManager.runProcessors (PluginManager.timeoutOf s)
                     after
                     (PluginManager.leaves
                        (snd p (PluginManager.runProcessors
                                  (PluginManager.timeoutOf s) before a))))).
  { intros before p after Hchain Hskipped.
    unfold PluginManager.processArticle, PluginManager.checkDisposed.
    rewrite Hd. cbn [bind]. rewrite Hchain, runProcessors_app.
    unfold PluginManager.runProcessors at 1. cbn [fold_left].
    now rewrite skipped_keeps_document. }
  split; [|split].
  - intros before p after Hchain given Hskipped.
    split; [now apply Hskip|].
    intros Hsame. rewrite (Hskip before p after Hchain Hskipped).
    fold given. rewrite Hsame.
    unfold PluginManager.processArticle, PluginManager.checkDisposed.
    cbn [withProcessors PluginManager.disposed
         PluginManager.articleProcessors].
    rewrite Hd. cbn [bind].
    change (PluginManager.timeoutOf (withProcessors s (before ++ after)%list))
      with (PluginManager.timeoutOf s).
    now rewrite runProcessors_app.
  - intros before p after Hchain Hthrows.
    apply (Hskip before p after Hchain). rewrite Hthrows. constructor.
  - intros Hleaves Hid.
    unfold PluginManager.processArticle, PluginManager.checkDisposed.
    rewrite Hd. cbn [bind]. eexists. split; [reflexivity|].
    unfold PluginManager.runProcessors. clear Hskip.
    revert a. induction (PluginManager.articleProcessors s) as [|p ps IH];
      intros a; simpl; [reflexivity|].
    rewrite IH.
    + destruct (applyProcessor_cases (PluginManager.timeoutOf s) a p)
        as [->|(r & Hcall & Hne & ->)].
      * apply Hleaves. now left.
      * eapply Hid; eauto. now left.
    + intros q x Hq. apply Hleaves. now right.
    + intros q x r Hq. apply Hid. now right.
Qed.

(** A chain of a processor that always throws and one that tags: the
    tagging processor runs on the input and the id is kept. *)
Lemma C2_failing_processor_witness :
  let s :=
    withProcessors defaultPlugins
      [("broken", throwing); ("tagger", tagging)] in
  PluginManager.processArticle s first = Ok (withTags ["seen"] first)
  /\ PluginManager.processArticle s first
     = PluginManager.processArticle
         (withProcessors s [("tagger", tagging)]) first
  /\ exists r, PluginManager.processArticle s first = Ok r /\ id r = id first.
Proof.
  intros s.
  destruct (C2_failing_processor_is_skipped s first eq_refl)
    as (Hskip & Hthrow & Hid).
  split; [|split].
  - exact (Hthrow [] ("broken", throwing) [("tagger", tagging)] eq_refl
             (fun _ => eq_refl)).
  - destruct (Hskip [] ("broken", throwing) [("tagger", tagging)] eq_refl)
      as [_ Hsame]; [constructor|].
    exact (Hsame eq_refl).
  - apply Hid.
    + intros p processed [<-|[<-|[]]]; reflexivity.
    + intros p processed r [<-|[<-|[]]]; simpl.
      * discriminate.
      * intros [= <-] _. reflexivity.
Defined.

(** ** The plugin registry *)

(** The states a [PluginManager] goes through. *)
Inductive pluginsReachable : PluginManager.State -> Prop :=
| ReachNew cfg :
    pluginsReachable (PluginManager.new cfg)
| ReachRegisterPlugin s plugin :
    pluginsReachable s ->
    pluginsReachable (fst (PluginManager.registerPlugin s plugin))
| ReachUnregisterPlugin s name :
    pluginsReachable s ->
    pluginsReachable (fst (PluginManager.unregisterPlugin s name))
| ReachRegisterArticleProcessor s pluginName fn s' :
    pluginsReachable s ->
    PluginManager.registerArticleProcessor s pluginName fn = Ok s' ->
    pluginsReachable s'
| ReachRegisterSearchExtension s pluginName fn s' :
    pluginsReachable s ->
    PluginManager.registerSearchExtension s pluginName fn = Ok s' ->
    pluginsReachable s'
| ReachCleanup s :
    pluginsReachable s -> pluginsReachable (PluginManager.cleanup s)
| ReachDispose s :
    pluginsReachable s -> pluginsReachable (PluginManager.dispose s).

(** The registry is consistent: the names of the map are distinct and
    they are the active names. *)
Definition registryConsistent (s : PluginManager.State) : Prop :=
  NoDup (JsMap.keys (PluginManager.plugins s))
  /\ forall n,
       In n (PluginManager.activePlugins s)
       <-> In n (JsMap.keys (PluginManager.plugins s)).

Lemma registerArticleProcessor_registry s pluginName fn s' :
  PluginManager.registerArticleProcessor s pluginName fn = Ok s' ->
  PluginManager.plugins s' = PluginManager.plugins s
  /\ PluginManager.activePlugins s' = PluginManager.activePlugins s
  /\ PluginManager.config s' = PluginManager.config s
  /\ PluginManager.disposed s' = PluginManager.disposed s.
Proof.
  unfold PluginManager.registerArticleProcessor, PluginManager.checkDisposed.
  destruct (PluginManager.disposed s) eqn:Ed; simpl; [discriminate|].
  destruct (_ <=? _); intros [= <-]; simpl; repeat split; assumption.
Qed.

Lemma registerSearchExtension_registry s pluginName fn s' :
  PluginManager.registerSearchExtension s pluginName fn = Ok s' ->
  PluginManager.plugins s' = PluginManager.plugins s
  /\ PluginManager.activePlugins s' = PluginManager.activePlugins s
  /\ PluginManager.config s' = PluginManager.config s
  /\ PluginManager.disposed s' = PluginManager.disposed s.
Proof.
  unfold PluginManager.registerSearchExtension, PluginManager.checkDisposed.
  destruct (PluginManager.disposed s) eqn:Ed; simpl; [discriminate|].
  destruct (_ <=? _); intros [= <-]; simpl; repeat split; assumption.
Qed.

(** The calls of an activation hook on its context leave the map of
    plugins and the active set as they are. *)
Lemma registrations_registry pluginName regs :
  forall s,
    let s' := fold_left (PluginManager.register pluginName) regs s in
    PluginManager.plugins s' = PluginManager.plugins s
    /\ PluginManager.activePlugins s' = PluginManager.activePlugins s
    /\ PluginManager.config s' = PluginManager.config s
    /\ PluginManager.disposed s' = PluginManager.disposed s.
Proof.
  induction regs as [|r regs IH]; intros s; simpl; [auto|].
  destruct (IH (PluginManager.register pluginName s r))
    as (Hp & Ha & Hc & Hd).
  rewrite Hp, Ha, Hc, Hd. clear IH Hp Ha Hc Hd.
  unfold PluginManager.register.
  destruct r as [fn|fn].
  - destruct (PluginManager.registerArticleProcessor s pluginName fn) eqn:E;
      [now apply registerArticleProcessor_registry in E | auto].
  - destruct (PluginManager.registerSearchExtension s pluginName fn) eqn:E;
      [now apply registerSearchExtension_registry in E | auto].
Qed.

Lemma In_addToSet l x n :
  In n (PluginManager.addToSet l x) <-> n = x \/ In n l.
Proof.
  unfold PluginManager.addToSet.
  destruct (existsb (String.eqb x) l) eqn:E.
  - split; [auto|]. intros [->|H]; [|assumption].
    apply existsb_exists in E. destruct E as (y & Hy & E).
    apply String.eqb_eq in E. now subst.
  - rewrite in_app_iff. simpl. split; [intros [|[|[]]]; auto | intros [|]; auto].
Qed.

Lemma keys_delete {V : Type} (m : JsMap.t V) k n :
  NoDup (JsMap.keys m) ->
  (In n (JsMap.keys (JsMap.delete m k)) <-> In n (JsMap.keys m) /\ n <> k).
Proof.
  induction m as [|[k' v'] r IH]; simpl; [tauto|].
  intros Hnd. inversion Hnd as [|? ? Hnot Hnd']; subst.
  destruct (String.eqb k' k) eqn:E.
  - apply String.eqb_eq in E. subst k'. split.
    + intros H. split; [now right|]. intros ->. contradiction.
    + intros [[->|H] Hne]; [congruence | assumption].
  - apply String.eqb_neq in E. simpl. rewrite IH by assumption.
    split; [intros [->|[H1 H2]]; auto | intros [[->|H] Hne]; auto].
Qed.

Lemma NoDup_keys_delete {V : Type} (m : JsMap.t V) k :
  NoDup (JsMap.keys m) -> NoDup (JsMap.keys (JsMap.delete m k)).
Proof.
  induction m as [|[k' v'] r IH]; simpl; [auto|].
  intros Hnd. inversion Hnd as [|? ? Hnot Hnd']; subst.
  destruct (String.eqb k' k); [assumption|]. simpl. constructor; [|auto].
  intros H. apply keys_delete in H; [|assumption]. tauto.
Qed.

Lemma registerPlugin_consistent s plugin :
  registryConsistent s ->
  registryConsistent (fst (PluginManager.registerPlugin s plugin)).
Proof.
  intros [Hnd Hact]. unfold PluginManager.registerPlugin.
  destruct (PluginManager.checkDisposed s); [|now split].
  destruct plugin as [p|]; [|now split].
  destruct (JsMap.has (PluginManager.plugins s) (PluginManager.name p));
    [now split|].
  destruct (registrations_registry (PluginManager.name p)
              (PluginManager.registrations (PluginManager.activate p)) s)
    as (Hp & Ha & _ & _).
  destruct (PluginManager.call _ _); unfold registryConsistent; simpl;
    rewrite ?Hp, ?Ha; [|now split].
  split; [now apply NoDup_keys_set|].
  intros n. rewrite In_addToSet, In_keys_set, Hact. tauto.
Qed.

Lemma unregisterPlugin_consistent s name :
  registryConsistent s ->
  registryConsistent (fst (PluginManager.unregisterPlugin s name)).
Proof.
  intros [Hnd Hact]. unfold PluginManager.unregisterPlugin.
  destruct (PluginManager.checkDisposed s); [|now split].
  destruct (isEmpty (trim name)); [now split|].
  destruct (JsMap.get (PluginManager.plugins s) name) as [p|]; [|now split].
  destruct (match PluginManager.deactivate p with
            | Some d => PluginManager.call d (PluginManager.timeoutOf s)
            | None => Ok tt
            end); [|now split].
  unfold registryConsistent. simpl.
  split; [now apply NoDup_keys_delete|].
  intros n. rewrite filter_In, keys_delete, Hact by assumption.
  destruct (String.eqb n name) eqn:E.
  - apply String.eqb_eq in E. subst. simpl. split; intros [_ H]; [discriminate|congruence].
  - apply String.eqb_neq in E. simpl. tauto.
Qed.

Lemma cleanup_consistent s :
  registryConsistent s -> registryConsistent (PluginManager.cleanup s).
Proof.
  intros H. unfold PluginManager.cleanup.
  assert (registryConsistent
            (fold_left (fun st n => fst (PluginManager.unregisterPlugin st n))
               (PluginManager.activePlugins s) s)) as H'.
  { revert H. generalize (PluginManager.activePlugins s) as names.
    intros names. revert s.
    induction names as [|n names IH]; intros s H; simpl; [assumption|].
    apply IH. now apply unregisterPlugin_consistent. }
  exact H'.
Qed.

Lemma reachable_consistent s : pluginsReachable s -> registryConsistent s.
Proof.
  induction 1 as [cfg|s plugin _ IH|s name _ IH|s n fn s' _ IH E
                 |s n fn s' _ IH E|s _ IH|s _ IH].
  - split; [constructor | intros n; reflexivity].
  - now apply registerPlugin_consistent.
  - now apply unregisterPlugin_consistent.
  - apply registerArticleProcessor_registry in E.
    destruct E as (Hp & Ha & _). unfold registryConsistent.
    now rewrite Hp, Ha.
  - apply registerSearchExtension_registry in E.
    destruct E as (Hp & Ha & _). unfold registryConsistent.
    now rewrite Hp, Ha.
  - now apply cleanup_consistent.
  - unfold PluginManager.dispose. destruct (PluginManager.disposed s);
      [assumption|]. now apply cleanup_consistent in IH.
Qed.

(** The activation settles in time: not after the timer of the deadline
    has fired (a hook that throws settles at once). *)
Definition settlesInTime (timeoutMs : Z) (b : PluginManager.Behaviour unit)
  : bool :=
  match b with
  | PluginManager.ThrowsSync => true
  | PluginManager.Returns (PluginManager.Resolves after _) =>
      after <=? PluginManager.deadline timeoutMs
  | PluginManager.Returns (PluginManager.Rejects after) =>
      after <=? PluginManager.deadline timeoutMs
  | PluginManager.Returns PluginManager.Never => false
  end.

Lemma late_activation_fails timeoutMs b :
  settlesInTime timeoutMs b = false ->
  PluginManager.call b timeoutMs = Throw (Error "Operation timeout").
Proof.
  unfold settlesInTime, PluginManager.call, PluginManager.withTimeout.
  destruct b as [|[t v|t|]]; [discriminate| | |reflexivity];
    now intros ->.
Qed.

(** The default deadline is ten seconds. *)
Example default_deadline :
  PluginManager.deadline (PluginManager.timeoutOf defaultPlugins) = 10000.
Proof. reflexivity. Qed.

(** A hook whose own timer has the delay of the deadline still wins the
    race; one millisecond more and it is given up. *)
Example settled_at_the_deadline :
  PluginManager.call
    (PluginManager.Returns (PluginManager.Resolves 10000 tt)) 10000
  = Ok tt
  /\ PluginManager.call
       (PluginManager.Returns (PluginManager.Resolves 10001 tt)) 10000
     = Throw (Error "Operation timeout").
Proof. split; reflexivity. Qed.

(** When the activation hook of a plugin that is not yet registered has
    not settled when the timer of the deadline fires, [registerPlugin] is
    rejected, the map of plugins and the active set are what they were,
    and the plugin is in neither.  Nothing else is undone: the manager is
    left as the registrations of the hook made it. *)
Theorem late_activation_is_rejected :
  forall s p,
    pluginsReachable s ->
    PluginManager.disposed s = false ->
    JsMap.has (PluginManager.plugins s) (PluginManager.name p) = false ->
    settlesInTime (PluginManager.timeoutOf s)
      (PluginManager.outcome (PluginManager.activate p)) = false ->
    let s' := fst (PluginManager.registerPlugin s (Some p)) in
    throws (snd (PluginManager.registerPlugin s (Some p)))
    /\ PluginManager.plugins s' = PluginManager.plugins s
    /\ PluginManager.activePlugins s' = PluginManager.activePlugins s
    /\ JsMap.has (PluginManager.plugins s') (PluginManager.name p) = false
    /\ ~ In (PluginManager.name p) (PluginManager.activePlugins s')
    /\ s' = fold_left (PluginManager.register (PluginManager.name p))
              (PluginManager.registrations (PluginManager.activate p)) s.
Proof.
  intros s p Hreach Hd Hnew Hlate s'. subst s'.
  apply reachable_consistent in Hreach. destruct Hreach as [_ Hact].
  unfold PluginManager.registerPlugin, PluginManager.checkDisposed.
  rewrite Hd, Hnew, (late_activation_fails _ _ Hlate). simpl.
  destruct (registrations_registry (PluginManager.name p)
              (PluginManager.registrations (PluginManager.activate p)) s)
    as (Hp & Ha & _ & _).
  rewrite Hp, Ha.
  split; [eexists; reflexivity|]. repeat split; try assumption.
  rewrite Hact. intros H. apply has_In_keys in H. congruence.
Qed.

(** A plugin that registers a processor and whose activation never
    settles. *)
Definition hangingPlugin : PluginManager.Plugin :=
  {| PluginManager.name := "hanging";
     PluginManager.version := "1.0.0";
     PluginManager.description := None;
     PluginManager.activate :=
       {| PluginManager.registrations :=
            [PluginManager.RegisterArticleProcessor tagging];
          PluginManager.outcome :=
            PluginManager.Returns PluginManager.Never |};
     PluginManager.deactivate := None |}.

(** C9, the defect: on [hangingPlugin] the registration is rejected and
    the plugin is neither registered nor active, but the registry is not
    what it was.  The processor the hook had registered stays in the chain,
    which was empty; [processArticle] runs it from then on; and
    [unregisterPlugin], which takes the processors of a plugin out of the
    chain, does nothing for a name that is not registered. *)
Theorem C9_failed_registration_leaves_processor :
  let r := PluginManager.registerPlugin defaultPlugins (Some hangingPlugin) in
  throws (snd r)
  /\ PluginManager.plugins (fst r) = []
  /\ PluginManager.activePlugins (fst r) = []
  /\ PluginManager.articleProcessors defaultPlugins = []
  /\ PluginManager.articleProcessors (fst r) = [("hanging", tagging)]
  /\ PluginManager.processArticle defaultPlugins first = Ok first
  /\ PluginManager.processArticle (fst r) first
     = Ok (withTags ["seen"] first)
  /\ PluginManager.unregisterPlugin (fst r) "hanging" = (fst r, Ok tt).
Proof.
  cbv zeta. split; [eexists; reflexivity|].
  repeat split; reflexivity.
Qed.

(** ** The search engine: rebuilding the index *)

(** What [indexArticles] builds depends on the configuration and on the
    documents only. *)
Definition built (cfg : SearchEngine.SearchEngineConfig)
    (documents : list SearchEngine.Unknown) : SearchEngine.State :=
  {| SearchEngine.index := fst (SearchEngine.indexLoop cfg [] [] documents);
     SearchEngine.articles := snd (SearchEngine.indexLoop cfg [] [] documents);
     SearchEngine.config := cfg;
     SearchEngine.disposed := false |}.

Lemma indexArticles_built s documents :
  SearchEngine.disposed s = false ->
  SearchEngine.indexArticles s (Some documents)
  = Ok (built (SearchEngine.config s) documents).
Proof.
  intros Hd. unfold SearchEngine.indexArticles, SearchEngine.checkDisposed.
  rewrite Hd. simpl. unfold built.
  destruct (SearchEngine.indexLoop (SearchEngine.config s) [] [] documents).
  reflexivity.
Qed.

Lemma indexArticles_disposed s documents :
  SearchEngine.disposed s = true ->
  SearchEngine.indexArticles s documents
  = Throw (Error "SearchEngine has been disposed").
Proof.
  intros Hd. unfold SearchEngine.indexArticles, SearchEngine.checkDisposed.
  now rewrite Hd.
Qed.

(** C7: indexing a list of documents twice and then searching answers
    what indexing it once and then searching answers; the second call
    rebuilds the very state the first one built, and what an engine
    builds does not depend on the index and the documents it held
    before. *)
Theorem C7_indexing_twice_is_indexing_once :
  forall s documents query,
    (s1 <- SearchEngine.indexArticles s (Some documents) ;;
     s2 <- SearchEngine.indexArticles s1 (Some documents) ;;
     SearchEngine.search s2 query)
    = (s1 <- SearchEngine.indexArticles s (Some documents) ;;
       SearchEngine.search s1 query)
    /\ (forall s1,
           SearchEngine.indexArticles s (Some documents) = Ok s1 ->
           SearchEngine.indexArticles s1 (Some documents) = Ok s1)
    /\ (forall index' articles',
           SearchEngine.indexArticles
             {| SearchEngine.index := index';
                SearchEngine.articles := articles';
                SearchEngine.config := SearchEngine.config s;
                SearchEngine.disposed := SearchEngine.disposed s |}
             (Some documents)
           = SearchEngine.indexArticles s (Some documents)).
Proof.
  intros s documents query.
  destruct (SearchEngine.disposed s) eqn:Hd.
  - rewrite (indexArticles_disposed s _ Hd). simpl.
    split; [reflexivity|]. split; [discriminate|].
    intros index' articles'. now apply indexArticles_disposed.
  - rewrite (indexArticles_built s _ Hd). simpl.
    rewrite indexArticles_built by reflexivity. simpl.
    split; [reflexivity|]. split.
    + intros s1 [= <-]. now rewrite indexArticles_built.
    + intros index' articles'. now rewrite indexArticles_built.
Qed.

(** *** The two guides *)

Definition rustGuide : Article := plainArticle "doc1" "Rust Guide" "ownership model" 0.
Definition goGuide : Article := plainArticle "doc2" "Go Guide" "goroutines" 0.

Definition guides : list SearchEngine.Unknown :=
  [SearchEngine.AnArticle rustGuide; SearchEngine.AnArticle goGuide].

Definition guideEngine : SearchEngine.State := built defaultEngineConfig guides.

Example index_guides :
  SearchEngine.indexArticles freshEngine (Some guides) = Ok guideEngine.
Proof. reflexivity. Qed.

(** Both guides answer the query [guide] with the weight of the title;
    only the first answers [ownership]. *)
Example search_guide :
  SearchEngine.search guideEngine (Some "guide")
  = Ok [ {| article := rustGuide; score := 10;
            highlights := ["Rust <mark>Guide</mark>"] |};
         {| article := goGuide; score := 10;
            highlights := ["Go <mark>Guide</mark>"] |} ].
Proof. vm_compute. reflexivity. Qed.

Example search_ownership :
  SearchEngine.search guideEngine (Some "ownership")
  = Ok [ {| article := rustGuide; score := 1;
            highlights := ["<mark>ownership</mark> model"] |} ].
Proof. vm_compute. reflexivity. Qed.

Lemma C7_indexing_twice_witness :
  (s1 <- SearchEngine.indexArticles freshEngine (Some guides) ;;
   s2 <- SearchEngine.indexArticles s1 (Some guides) ;;
   SearchEngine.search s2 (Some "guide"))
  = SearchEngine.search guideEngine (Some "guide")
  /\ SearchEngine.indexArticles guideEngine (Some guides) = Ok guideEngine.
Proof.
  destruct (C7_indexing_twice_is_indexing_once freshEngine guides
              (Some "guide")) as (Hsame & Hfix & _).
  split.
  - rewrite Hsame. reflexivity.
  - apply Hfix. reflexivity.
Defined.

(** *** Tokens *)

Example tokenize_sentence :
  SearchEngine.tokenize defaultEngineConfig "Hello, world! HELLO again"
  = ["hello"; "world"; "again"].
Proof. vm_compute. reflexivity. Qed.

(** A word of a hundred characters or more is not a token. *)
Example tokenize_long_word :
  SearchEngine.tokenize defaultEngineConfig
    (String.concat "" (repeat "a" 100) ++ " b")
  = ["b"]
  /\ SearchEngine.tokenize defaultEngineConfig
       (String.concat "" (repeat "a" 99) ++ " b")
     = [String.concat "" (repeat "a" 99); "b"].
Proof. vm_compute. split; reflexivity. Qed.

(** A text has at most fifty tokens. *)
Lemma dedupeFrom_length words :
  forall seen,
    (length (SearchEngine.dedupeFrom seen words) <= length words)%nat.
Proof.
  induction words as [|x r IH]; intros seen; simpl; [lia|].
  destruct (existsb (String.eqb x) seen); simpl.
  - specialize (IH seen). lia.
  - specialize (IH (x :: seen)). lia.
Qed.

Lemma tokenize_length cfg text :
  (length (SearchEngine.tokenize cfg text) <= 50)%nat.
Proof.
  unfold SearchEngine.tokenize. destruct (isEmpty text); [simpl; lia|].
  unfold SearchEngine.dedupe.
  eapply Nat.le_trans; [apply dedupeFrom_length | apply firstn_le_length].
Qed.

(** ** The search engine: results *)

(** The states a [SearchEngine] goes through. *)
Inductive engineReachable : SearchEngine.State -> Prop :=
| EngineNew cfg s :
    SearchEngine.new cfg = Ok s -> engineReachable s
| EngineIndexArticles s documents s' :
    engineReachable s ->
    SearchEngine.indexArticles s documents = Ok s' ->
    engineReachable s'
| EngineClear s s' :
    engineReachable s -> SearchEngine.clear s = Ok s' -> engineReachable s'
| EngineDispose s s' :
    engineReachable s -> SearchEngine.dispose s = Ok s' -> engineReachable s'.

(** The limits of a constructed engine are present and at least 1. *)
Definition configValid (cfg : SearchEngine.SearchEngineConfig) : Prop :=
  (exists n, SearchEngine.maxResults cfg = Some n /\ 1 <= n)
  /\ (exists m, SearchEngine.maxQueryLength cfg = Some m /\ 1 <= m).

(** Every document of the engine is kept under its id. *)
Definition keyedById (m : JsMap.t Article) : Prop :=
  forall k a, JsMap.get m k = Some a -> id a = k.

Definition engineWf (s : SearchEngine.State) : Prop :=
  configValid (SearchEngine.config s) /\ keyedById (SearchEngine.articles s).

Lemma get_set {V : Type} (m : JsMap.t V) k k' v :
  JsMap.get (JsMap.set m k v) k'
  = if String.eqb k k' then Some v else JsMap.get m k'.
Proof.
  destruct (String.eqb k k') eqn:E.
  - apply String.eqb_eq in E. subst. apply get_set_same.
  - apply String.eqb_neq in E. now apply get_set_other.
Qed.

Lemma keyedById_set m a : keyedById m -> keyedById (JsMap.set m (id a) a).
Proof.
  intros H k a'. rewrite get_set.
  destruct (String.eqb (id a) k) eqn:E.
  - apply String.eqb_eq in E. now intros [= <-].
  - apply H.
Qed.

Lemma indexLoop_keyed cfg documents :
  forall idx arts,
    keyedById arts ->
    keyedById (snd (SearchEngine.indexLoop cfg idx arts documents)).
Proof.
  induction documents as [|[|a] r IH]; intros idx arts H; simpl; auto.
  destruct (SearchEngine.indexArticle cfg idx a) as [idx'|]; auto.
  destruct (_ <? _); simpl; [|apply IH]; now apply keyedById_set.
Qed.

Lemma new_valid cfg s : SearchEngine.new cfg = Ok s -> engineWf s.
Proof.
  unfold SearchEngine.new, SearchEngine.belowOne.
  destruct (SearchEngine.maxResults cfg) as [n|] eqn:En;
    [destruct (n <? 1) eqn:E1; [discriminate|]|];
    (destruct (SearchEngine.maxQueryLength cfg) as [m|] eqn:Em;
       [destruct (m <? 1) eqn:E2; [discriminate|]|]);
    (destruct (match SearchEngine.maxIndexSize cfg with
               | Some n0 => n0 <? 1
               | None => false
               end); [discriminate|]);
    intros [= <-]; (split; [split|intros k a; discriminate]); simpl;
    eexists; (split; [reflexivity|lia]).
Qed.

Lemma reachable_wf s : engineReachable s -> engineWf s.
Proof.
  induction 1 as [cfg s Hnew|s documents s' _ IH E|s s' _ IH E|s s' _ IH E].
  - now apply new_valid in Hnew.
  - destruct IH as [Hcfg Hkeyed].
    unfold SearchEngine.indexArticles, SearchEngine.checkDisposed in E.
    destruct (SearchEngine.disposed s); simpl in E; [discriminate|].
    destruct documents as [l|]; [|injection E as <-; now split].
    pose proof (indexLoop_keyed (SearchEngine.config s) l [] []) as Hk.
    destruct (SearchEngine.indexLoop (SearchEngine.config s) [] [] l).
    injection E as <-. split; [assumption|]. apply Hk. intros k a; discriminate.
  - destruct IH as [Hcfg _].
    unfold SearchEngine.clear, SearchEngine.checkDisposed in E.
    destruct (SearchEngine.disposed s); simpl in E; [discriminate|].
    injection E as <-. split; [assumption | intros k a; discriminate].
  - destruct IH as [Hcfg _].
    unfold SearchEngine.dispose, SearchEngine.clear,
      SearchEngine.checkDisposed in E.
    destruct (SearchEngine.disposed s); simpl in E; [discriminate|].
    injection E as <-. split; [assumption | intros k a; discriminate].
Qed.

(** *** Sorting by score *)

Section Descending.
Context {A : Type}.
Variable f : A -> Z.

Definition byDescending (a b : A) : Z := f b - f a.
Definition descendingBy : list A -> Prop :=
  StronglySorted (fun a b => f b <= f a).

Lemma insertBy_descending x l :
  descendingBy l -> descendingBy (Utils.insertBy byDescending x l).
Proof.
  unfold descendingBy, byDescending.
  induction 1 as [|y r Hs IH Hall]; simpl.
  - constructor; constructor.
  - destruct (f y - f x <=? 0) eqn:E.
    + constructor; [now constructor|].
      constructor; [lia|].
      eapply Forall_impl; [|exact Hall]. simpl. intros z Hz. lia.
    + constructor; [assumption|].
      rewrite Forall_forall in *. intros z Hz.
      apply (Permutation_in _ (insertBy_perm _ x r)) in Hz.
      destruct Hz as [<-|Hz]; [lia | now apply Hall].
Qed.

Lemma sortBy_descending l : descendingBy (Utils.sortBy byDescending l).
Proof.
  induction l as [|x r IH]; simpl; [constructor|].
  now apply insertBy_descending.
Qed.

Lemma firstn_descending n l : descendingBy l -> descendingBy (firstn n l).
Proof.
  unfold descendingBy. intros H. revert n.
  induction H as [|y r Hs IH Hall]; intros [|n]; simpl; try constructor.
  - apply IH.
  - rewrite Forall_forall in *. intros z Hz. apply Hall.
    eapply In_firstn_list; eassumption.
Qed.

End Descending.

Lemma NoDup_firstn {A : Type} n (l : list A) : NoDup l -> NoDup (firstn n l).
Proof.
  intros H. rewrite <- (firstn_skipn n l) in H.
  eapply NoDup_app_remove_r; eassumption.
Qed.

(** *** The documents of the results *)

Definition idOf (r : SearchResult) : string := id (article r).

Lemma addHit_keys cfg keyword resultMap i :
  NoDup (JsMap.keys resultMap) ->
  NoDup (JsMap.keys (SearchEngine.addHit cfg keyword resultMap i)).
Proof.
  intros H. unfold SearchEngine.addHit.
  destruct (match JsMap.get resultMap (articleId i) with
            | Some hit => hit
            | None => (0, [])
            end).
  now apply NoDup_keys_set.
Qed.

Lemma resultMap_keys s keywords :
  forall resultMap,
    NoDup (JsMap.keys resultMap) ->
    NoDup (JsMap.keys (fold_left (SearchEngine.addKeyword s) keywords
                         resultMap)).
Proof.
  induction keywords as [|k ks IH]; intros resultMap H; simpl; [assumption|].
  apply IH. unfold SearchEngine.addKeyword.
  generalize (SearchEngine.searchIndex (SearchEngine.index s) k) as postings.
  intros postings. revert resultMap H.
  induction postings as [|i r IHp]; intros resultMap H; simpl; [assumption|].
  apply IHp. now apply addHit_keys.
Qed.

(** The ids of the results are, in order, keys of the result map. *)
Lemma toResults_ids s resultMap :
  keyedById (SearchEngine.articles s) ->
  NoDup (JsMap.keys resultMap) ->
  NoDup (map idOf (SearchEngine.toResults s resultMap))
  /\ incl (map idOf (SearchEngine.toResults s resultMap))
       (JsMap.keys resultMap).
Proof.
  intros Hkeyed. unfold SearchEngine.toResults.
  induction resultMap as [|[k [sc hs]] r IH]; simpl; intros Hnd.
  - split; [constructor | apply incl_refl].
  - inversion Hnd as [|? ? Hnot Hnd']; subst.
    destruct (IH Hnd') as [IH1 IH2].
    destruct (JsMap.get (SearchEngine.articles s) k) as [a|] eqn:E; simpl.
    + apply Hkeyed in E. unfold idOf at 1 3. simpl. rewrite E. split.
      * constructor; [|assumption]. intros Hin. apply Hnot. now apply IH2.
      * intros x [<-|Hx]; [now left | right; now apply IH2].
    + split; [assumption|]. intros x Hx. right. now apply IH2.
Qed.

Definition resultLimit (s : SearchEngine.State) : Z :=
  Z.max 1 (SearchEngine.numberOr
             (SearchEngine.maxResults (SearchEngine.config s)) 20).

Definition minimumLength (s : SearchEngine.State) : Z :=
  SearchEngine.numberOr (SearchEngine.minSearchLength (SearchEngine.config s)) 2.

Definition descending : list SearchResult -> Prop := descendingBy score.

Lemma searchValidated_results s validatedQuery :
  keyedById (SearchEngine.articles s) ->
  let results := SearchEngine.searchValidated s validatedQuery in
  NoDup (map idOf results)
  /\ descending results
  /\ Z.of_nat (length results) <= resultLimit s.
Proof.
  intros Hkeyed. unfold SearchEngine.searchValidated.
  destruct (SearchEngine.tokenize (SearchEngine.config s) validatedQuery)
    as [|k ks] eqn:Ek.
  - simpl. repeat split; try constructor. unfold resultLimit. lia.
  - set (resultMap := fold_left (SearchEngine.addKeyword s) (k :: ks) []).
    fold (resultLimit s).
    assert (NoDup (JsMap.keys resultMap)) as Hnd
        by (apply resultMap_keys; constructor).
    destruct (toResults_ids s resultMap Hkeyed Hnd) as [Hids _].
    split; [|split].
    + rewrite <- firstn_map. apply NoDup_firstn.
      eapply Permutation_NoDup; [|exact Hids].
      apply Permutation_map. symmetry. apply sortBy_perm.
    + apply firstn_descending. apply (sortBy_descending score).
    + pose proof (firstn_le_length (Z.to_nat (resultLimit s))
                    (Utils.sortBy SearchEngine.byScore
                       (SearchEngine.toResults s resultMap))) as Hlen.
      assert (1 <= resultLimit s) by (unfold resultLimit; lia). lia.
Qed.

Lemma take_nonempty n s :
  (0 < n)%nat -> s <> "" -> isEmpty (take n s) = false.
Proof.
  destruct n; [lia|]. destruct s; [congruence | reflexivity].
Qed.

(** C8: [search] answers nothing for a query that is not a string or is
    shorter than the minimum length; a query longer than the maximum
    length is not rejected but searched up to that length; and the
    results hold each document at most once, are in non-increasing order
    of score and are at most the maximum number of results, which is at
    least 1. *)
Theorem C8_search_results_are_bounded :
  forall s query results,
    engineReachable s ->
    SearchEngine.search s query = Ok results ->
    (query = None -> results = [])
    /\ (forall q,
           query = Some q ->
           Z.of_nat (String.length q) < minimumLength s ->
           results = [])
    /\ (forall q m,
           query = Some q ->
           SearchEngine.maxQueryLength (SearchEngine.config s) = Some m ->
           minimumLength s <= Z.of_nat (String.length q) ->
           m < Z.of_nat (String.length q) ->
           results = SearchEngine.searchValidated s (take (Z.to_nat m) q))
    /\ NoDup (map idOf results)
    /\ descending results
    /\ Z.of_nat (length results) <= resultLimit s
    /\ 1 <= resultLimit s.
Proof.
  intros s query results Hreach Hsearch.
  apply reachable_wf in Hreach.
  destruct Hreach as [[_ (m0 & Hm0 & Hm0pos)] Hkeyed].
  unfold SearchEngine.search, SearchEngine.checkDisposed in Hsearch.
  destruct (SearchEngine.disposed s); simpl in Hsearch; [discriminate|].
  assert (Hempty : NoDup (map idOf (@nil SearchResult))
                   /\ descending []
                   /\ Z.of_nat (length (@nil SearchResult)) <= resultLimit s
                   /\ 1 <= resultLimit s).
  { repeat split; try constructor; unfold resultLimit; simpl; lia. }
  destruct query as [q|].
  - fold (minimumLength s) in Hsearch.
    destruct (Z.of_nat (String.length q) <? minimumLength s) eqn:Emin.
    + injection Hsearch as <-.
      split; [discriminate|]. split; [reflexivity|].
      split; [|exact Hempty]. intros q' m [= <-] _ Hge _. lia.
    + destruct (isEmpty (SearchEngine.validateString (SearchEngine.config s) q))
        eqn:Eval; injection Hsearch as <-.
      * split; [discriminate|]. split; [reflexivity|].
        split; [|exact Hempty]. intros q' m [= <-] Hm _ Hlong. exfalso.
        revert Eval. unfold SearchEngine.validateString.
        rewrite Hm in *. injection Hm0 as ->.
        unfold SearchEngine.numberOr.
        destruct (m0 =? 0) eqn:E0; [lia|].
        destruct (m0 <? Z.of_nat (String.length q)) eqn:E1; [|lia].
        simpl. rewrite take_nonempty; [discriminate|lia|].
        intros ->. simpl in Hlong. lia.
      * split; [discriminate|]. split; [intros q' [= <-] Hlt; lia|].
        destruct (searchValidated_results s
                    (SearchEngine.validateString (SearchEngine.config s) q)
                    Hkeyed) as (Hnd & Hdesc & Hlen).
        split; [|repeat split; try assumption; unfold resultLimit; lia].
        intros q' m [= <-] Hm _ Hlong.
        unfold SearchEngine.validateString.
        rewrite Hm in *. injection Hm0 as ->.
        unfold SearchEngine.numberOr.
        destruct (m0 =? 0) eqn:E0; [lia|].
        destruct (m0 <? Z.of_nat (String.length q)) eqn:E1; [|lia].
        reflexivity.
  - injection Hsearch as <-. split; [reflexivity|].
    split; [discriminate|]. split; [discriminate | exact Hempty].
Qed.

(** The default maximum number of results is 20. *)
Example default_result_limit : resultLimit freshEngine = 20.
Proof. reflexivity. Qed.

(** An engine that reads at most ten characters of a text. *)
Definition tenCharacters : SearchEngine.SearchEngineConfig :=
  {| SearchEngine.minSearchLength := None;
     SearchEngine.highlightTag := None;
     SearchEngine.caseSensitive := None;
     SearchEngine.maxResults := None;
     SearchEngine.maxQueryLength := Some 10;
     SearchEngine.maxIndexSize := None |}.

Definition shortQueryEngine : SearchEngine.State :=
  built
    {| SearchEngine.minSearchLength := Some 2;
       SearchEngine.highlightTag := Some ("<mark>", "</mark>");
       SearchEngine.caseSensitive := Some false;
       SearchEngine.maxResults := Some 20;
       SearchEngine.maxQueryLength := Some 10;
       SearchEngine.maxIndexSize := Some 100000 |}
    guides.

Lemma shortQueryEngine_reachable : engineReachable shortQueryEngine.
Proof.
  eapply EngineIndexArticles with (documents := Some guides).
  - apply (EngineNew tenCharacters). reflexivity.
  - reflexivity.
Qed.

(** The query [guide lines for all] is searched as [guide line] by the
    engine that reads ten characters, and answers both guides, each once,
    within the limit of 20. *)
Lemma C8_search_results_witness :
  exists results,
    SearchEngine.search shortQueryEngine (Some "guide lines for all") = Ok results
    /\ results = SearchEngine.searchValidated shortQueryEngine "guide line"
    /\ map idOf results = ["doc1"; "doc2"]
    /\ NoDup (map idOf results)
    /\ descending results
    /\ Z.of_nat (length results) <= 20.
Proof.
  eexists. split; [reflexivity|].
  destruct (C8_search_results_are_bounded shortQueryEngine
              (Some "guide lines for all") _ shortQueryEngine_reachable eq_refl)
    as (_ & _ & Hlong & Hnodup & Hdesc & Hlen & _).
  split; [|split; [|split; [|split]]].
  - apply (Hlong "guide lines for all" 10); [reflexivity | reflexivity | | ];
      vm_compute; congruence.
  - vm_compute. reflexivity.
  - exact Hnodup.
  - exact Hdesc.
  - exact Hlen.
Defined.

(** ** The inverted index: postings *)

(** The postings of a term. *)
Definition postingsOf (idx : JsMap.t (list SearchIndex)) (term : string)
  : list SearchIndex :=
  match JsMap.get idx term with Some l => l | None => [] end.

(** The weight of the posting of a document under a term, if any. *)
Definition postingWeight (idx : JsMap.t (list SearchIndex))
    (term documentId : string) : option Z :=
  option_map weight
    (find (fun i => String.eqb (articleId i) documentId)
       (postingsOf idx term)).

(** At most one posting for each term and document, and each term once. *)
Definition onePostingPerDocument (idx : JsMap.t (list SearchIndex)) : Prop :=
  NoDup (JsMap.keys idx)
  /\ forall term, NoDup (map articleId (postingsOf idx term)).

Lemma postingsOf_set idx word l term :
  postingsOf (JsMap.set idx word l) term
  = if String.eqb word term then l else postingsOf idx term.
Proof. unfold postingsOf. rewrite get_set. now destruct (String.eqb word term). Qed.

Lemma bump_ids documentId w l :
  map articleId (SearchEngine.bump documentId w l) = map articleId l.
Proof.
  induction l as [|i r IH]; simpl; [reflexivity|].
  destruct (String.eqb (articleId i) documentId); simpl; [reflexivity|].
  now rewrite IH.
Qed.

Lemma hasPosting_In documentId l :
  SearchEngine.hasPosting documentId l = true
  <-> In documentId (map articleId l).
Proof.
  unfold SearchEngine.hasPosting. rewrite existsb_exists, in_map_iff.
  split; intros (i & H1 & H2).
  - apply String.eqb_eq in H2. eauto.
  - exists i. split; [assumption|]. now apply String.eqb_eq.
Qed.

Lemma addWord_postings a content w idx word term :
  postingsOf (SearchEngine.addWord a content w idx word) term
  = if String.eqb word term then
      if SearchEngine.hasPosting (id a) (postingsOf idx word)
      then SearchEngine.bump (id a) w (postingsOf idx word)
      else (postingsOf idx word
            ++ [SearchEngine.posting a word content w])%list
    else postingsOf idx term.
Proof.
  unfold SearchEngine.addWord. fold (postingsOf idx word).
  destruct (SearchEngine.hasPosting (id a) (postingsOf idx word));
    now rewrite postingsOf_set.
Qed.

Lemma addWord_one a content w idx word :
  onePostingPerDocument idx ->
  onePostingPerDocument (SearchEngine.addWord a content w idx word).
Proof.
  intros [Hkeys Hone]. split.
  - unfold SearchEngine.addWord.
    destruct (SearchEngine.hasPosting _ _); now apply NoDup_keys_set.
  - intros term. rewrite addWord_postings.
    destruct (String.eqb word term); [|apply Hone].
    destruct (SearchEngine.hasPosting (id a) (postingsOf idx word)) eqn:E.
    + rewrite bump_ids. apply Hone.
    + rewrite map_app. simpl.
      assert (~ In (id a) (map articleId (postingsOf idx word))) as Hnot.
      { intros H. apply hasPosting_In in H. congruence. }
      specialize (Hone word). revert Hone Hnot.
      generalize (map articleId (postingsOf idx word)) as ids.
      induction ids as [|x r IH]; simpl; intros Hnd Hnot.
      * constructor; [intros []|constructor].
      * inversion Hnd; subst. constructor.
        -- rewrite in_app_iff. simpl. intros [H|[H|[]]]; [contradiction|].
           apply Hnot. now left.
        -- apply IH; [assumption|]. intros H. apply Hnot. now right.
Qed.

Lemma addItem_one cfg a idx item :
  onePostingPerDocument idx ->
  onePostingPerDocument (SearchEngine.addItem cfg a idx item).
Proof.
  destruct item as [content w]. unfold SearchEngine.addItem.
  destruct (isEmpty content); [auto|].
  generalize (SearchEngine.tokenize cfg content) as words.
  intros words. revert idx.
  induction words as [|x r IH]; intros idx H; simpl; [assumption|].
  apply IH. now apply addWord_one.
Qed.

Lemma addItems_one cfg a items :
  forall idx,
    onePostingPerDocument idx ->
    onePostingPerDocument (fold_left (SearchEngine.addItem cfg a) items idx).
Proof.
  induction items as [|x r IH]; intros idx H; simpl; [assumption|].
  apply IH. now apply addItem_one.
Qed.

(** [indexArticle] on an article it accepts. *)
Lemma indexArticle_Ok cfg idx a idx' :
  SearchEngine.indexArticle cfg idx a = Ok idx' ->
  idx' = fold_left (SearchEngine.addItem cfg a)
           (SearchEngine.indexItems cfg a) idx.
Proof.
  unfold SearchEngine.indexArticle.
  destruct (_ || _); [discriminate|]. congruence.
Qed.

Lemma indexArticle_one cfg idx a idx' :
  onePostingPerDocument idx ->
  SearchEngine.indexArticle cfg idx a = Ok idx' ->
  onePostingPerDocument idx'.
Proof.
  intros H E. apply indexArticle_Ok in E. subst idx'.
  now apply addItems_one.
Qed.

Lemma indexLoop_one cfg documents :
  forall idx arts,
    onePostingPerDocument idx ->
    onePostingPerDocument (fst (SearchEngine.indexLoop cfg idx arts documents)).
Proof.
  induction documents as [|[|a] r IH]; intros idx arts H; simpl; auto.
  destruct (SearchEngine.indexArticle cfg idx a) as [idx'|] eqn:E; auto.
  apply indexArticle_one in E; [|assumption].
  destruct (_ <? _); simpl; auto.
Qed.

Lemma empty_index_one : onePostingPerDocument [].
Proof. split; [constructor | intros term; constructor]. Qed.

(** Every engine state that was reached has at most one posting for
    each term and document. *)
Lemma reachable_one s :
  engineReachable s -> onePostingPerDocument (SearchEngine.index s).
Proof.
  induction 1 as [cfg s Hnew|s documents s' _ IH E|s s' _ IH E|s s' _ IH E].
  - unfold SearchEngine.new in Hnew.
    repeat (destruct (SearchEngine.belowOne _); [discriminate|]).
    injection Hnew as <-. apply empty_index_one.
  - unfold SearchEngine.indexArticles, SearchEngine.checkDisposed in E.
    destruct (SearchEngine.disposed s); simpl in E; [discriminate|].
    destruct documents as [l|]; [|now injection E as <-].
    pose proof (indexLoop_one (SearchEngine.config s) l [] []
                  empty_index_one) as H.
    destruct (SearchEngine.indexLoop (SearchEngine.config s) [] [] l).
    now injection E as <-.
  - unfold SearchEngine.clear, SearchEngine.checkDisposed in E.
    destruct (SearchEngine.disposed s); simpl in E; [discriminate|].
    injection E as <-. apply empty_index_one.
  - unfold SearchEngine.dispose, SearchEngine.clear,
      SearchEngine.checkDisposed in E.
    destruct (SearchEngine.disposed s); simpl in E; [discriminate|].
    injection E as <-. apply empty_index_one.
Qed.

(** ** The inverted index: weights *)

(** The weight of a posting after a field of weight [w] that holds the
    term was indexed: [None] is the absence of a posting. *)
Definition accumulate (w : Z) (o : option Z) : option Z :=
  Some (match o with None => w | Some x => Z.min (x + w) 1000 end).

(** The term is among the tokens indexed for the text of a field. *)
Definition indexedIn (cfg : SearchEngine.SearchEngineConfig)
    (content term : string) : bool :=
  existsb (String.eqb term) (SearchEngine.tokenize cfg content).

Definition weightIn (l : list SearchIndex) (documentId : string) : option Z :=
  option_map weight (find (fun i => String.eqb (articleId i) documentId) l).

Lemma weightIn_None l d :
  weightIn l d = None <-> SearchEngine.hasPosting d l = false.
Proof.
  unfold weightIn, SearchEngine.hasPosting.
  induction l as [|i r IH]; simpl; [tauto|].
  destruct (String.eqb (articleId i) d); simpl; [split; discriminate | exact IH].
Qed.

Lemma weightIn_bump x w l d :
  weightIn (SearchEngine.bump x w l) d
  = if String.eqb x d
    then option_map (fun y => Z.min (y + w) 1000) (weightIn l d)
    else weightIn l d.
Proof.
  unfold weightIn. induction l as [|i r IH]; simpl.
  - now destruct (String.eqb x d).
  - destruct (String.eqb (articleId i) x) eqn:Ex; simpl.
    + apply String.eqb_eq in Ex. rewrite Ex.
      destruct (String.eqb x d); reflexivity.
    + destruct (String.eqb (articleId i) d) eqn:Ed; simpl.
      * destruct (String.eqb x d) eqn:Exd; [|reflexivity].
        apply String.eqb_eq in Exd, Ed. apply String.eqb_neq in Ex. congruence.
      * exact IH.
Qed.

Lemma weightIn_app l i d :
  weightIn (l ++ [i])%list d
  = match weightIn l d with
    | Some x => Some x
    | None => if String.eqb (articleId i) d then Some (weight i) else None
    end.
Proof.
  unfold weightIn. induction l as [|j r IH]; simpl.
  - now destruct (String.eqb (articleId i) d).
  - destruct (String.eqb (articleId j) d); simpl; [reflexivity | exact IH].
Qed.

Lemma addWord_weight a content w idx word term d :
  postingWeight (SearchEngine.addWord a content w idx word) term d
  = if String.eqb word term && String.eqb (id a) d
    then accumulate w (postingWeight idx term d)
    else postingWeight idx term d.
Proof.
  unfold postingWeight. fold (weightIn (postingsOf idx term) d).
  fold (weightIn (postingsOf (SearchEngine.addWord a content w idx word) term) d).
  rewrite addWord_postings.
  destruct (String.eqb word term) eqn:Ew; simpl; [|reflexivity].
  apply String.eqb_eq in Ew. subst term.
  destruct (SearchEngine.hasPosting (id a) (postingsOf idx word)) eqn:Eh.
  - rewrite weightIn_bump.
    destruct (String.eqb (id a) d) eqn:Ed; [|reflexivity].
    apply String.eqb_eq in Ed. subst d.
    destruct (weightIn (postingsOf idx word) (id a)) as [x|] eqn:Ex;
      [reflexivity|].
    apply weightIn_None in Ex. congruence.
  - rewrite weightIn_app. simpl.
    destruct (String.eqb (id a) d) eqn:Ed.
    + apply String.eqb_eq in Ed. subst d.
      apply weightIn_None in Eh. now rewrite Eh.
    + now destruct (weightIn (postingsOf idx word) d).
Qed.

Lemma dedupeFrom_spec l :
  forall seen,
    NoDup (SearchEngine.dedupeFrom seen l)
    /\ forall x, In x (SearchEngine.dedupeFrom seen l) -> ~ In x seen.
Proof.
  induction l as [|y r IH]; intros seen; simpl.
  - split; [constructor | intros x []].
  - destruct (existsb (String.eqb y) seen) eqn:E; [apply IH|].
    destruct (IH (y :: seen)) as [Hnd Hnot]. split.
    + constructor; [|assumption]. intros H. apply (Hnot y H). now left.
    + intros x [<-|Hx].
      * intros Hin.
        assert (existsb (String.eqb y) seen = true); [|congruence].
        apply existsb_exists. exists y. split; [assumption|].
        apply String.eqb_refl.
      * intros Hin. apply (Hnot x Hx). now right.
Qed.

Lemma tokenize_NoDup cfg text : NoDup (SearchEngine.tokenize cfg text).
Proof.
  unfold SearchEngine.tokenize. destruct (isEmpty text); [constructor|].
  apply dedupeFrom_spec.
Qed.

Lemma existsb_eqb_In term words :
  existsb (String.eqb term) words = true <-> In term words.
Proof.
  rewrite existsb_exists. split.
  - intros (x & Hx & E). apply String.eqb_eq in E. now subst.
  - intros H. exists term. split; [assumption | apply String.eqb_refl].
Qed.

Lemma addWords_weight a content w words term d :
  NoDup words ->
  forall idx,
    postingWeight (fold_left (SearchEngine.addWord a content w) words idx)
      term d
    = if existsb (String.eqb term) words && String.eqb (id a) d
      then accumulate w (postingWeight idx term d)
      else postingWeight idx term d.
Proof.
  induction 1 as [|x r Hnot Hnd IH]; intros idx; simpl; [reflexivity|].
  rewrite IH, addWord_weight.
  destruct (String.eqb term x) eqn:Ex.
  - apply String.eqb_eq in Ex. subst x. rewrite String.eqb_refl. simpl.
    destruct (existsb (String.eqb term) r) eqn:Er.
    + apply existsb_eqb_In in Er. contradiction.
    + simpl. now destruct (String.eqb (id a) d).
  - rewrite (String.eqb_sym x term), Ex. simpl. reflexivity.
Qed.

Lemma addItem_weight cfg a idx content w term d :
  postingWeight (SearchEngine.addItem cfg a idx (content, w)) term d
  = if indexedIn cfg content term && String.eqb (id a) d
    then accumulate w (postingWeight idx term d)
    else postingWeight idx term d.
Proof.
  unfold SearchEngine.addItem, indexedIn.
  destruct (isEmpty content) eqn:E.
  - unfold SearchEngine.tokenize. now rewrite E.
  - apply addWords_weight, tokenize_NoDup.
Qed.

(** The weights of the fields of an article that hold the term, added
    to the posting one after the other. *)
Definition accumulateItems (cfg : SearchEngine.SearchEngineConfig)
    (term : string) (items : list (string * Z)) (o : option Z) : option Z :=
  fold_left
    (fun o item =>
       if indexedIn cfg (fst item) term then accumulate (snd item) o else o)
    items o.

Lemma addItems_weight cfg a term d items :
  forall idx,
    postingWeight (fold_left (SearchEngine.addItem cfg a) items idx) term d
    = if String.eqb (id a) d
      then accumulateItems cfg term items (postingWeight idx term d)
      else postingWeight idx term d.
Proof.
  unfold accumulateItems.
  induction items as [|[content w] r IH]; intros idx; cbn [fold_left].
  - now destruct (String.eqb (id a) d).
  - rewrite IH, addItem_weight. cbn [fst snd].
    destruct (String.eqb (id a) d).
    + now rewrite andb_true_r.
    + now rewrite andb_false_r.
Qed.

(** The sum of the weights of the fields that hold the term. *)
Definition itemsWeight (cfg : SearchEngine.SearchEngineConfig)
    (term : string) (items : list (string * Z)) : Z :=
  fold_right
    (fun item n => (if indexedIn cfg (fst item) term then snd item else 0) + n)
    0 items.

Definition fieldWeights (cfg : SearchEngine.SearchEngineConfig)
    (a : Article) (term : string) : Z :=
  itemsWeight cfg term (SearchEngine.indexItems cfg a).

(** A total of field weights as the weight of a posting: no posting for
    the total 0, and the ceiling of 1000. *)
Definition capped (total : Z) : option Z :=
  if total =? 0 then None else Some (Z.min total 1000).

Lemma accumulate_capped w total :
  0 <= total -> 0 < w <= 1000 ->
  accumulate w (capped total) = capped (total + w).
Proof.
  intros Ht Hw. unfold accumulate, capped.
  destruct (total =? 0) eqn:E0; destruct (total + w =? 0) eqn:E1;
    try lia; f_equal; lia.
Qed.

Lemma itemsWeight_nonneg cfg term items :
  Forall (fun item => 0 < snd item <= 1000) items ->
  0 <= itemsWeight cfg term items.
Proof.
  induction 1 as [|item r Hw _ IH]; simpl; [lia|].
  destruct (indexedIn cfg (fst item) term); lia.
Qed.

Lemma accumulateItems_capped cfg term items :
  Forall (fun item => 0 < snd item <= 1000) items ->
  forall total,
    0 <= total ->
    accumulateItems cfg term items (capped total)
    = capped (total + itemsWeight cfg term items).
Proof.
  unfold accumulateItems.
  induction 1 as [|item r Hw Hall IH]; intros total Ht; simpl.
  - f_equal. lia.
  - destruct (indexedIn cfg (fst item) term).
    + rewrite accumulate_capped, IH by lia. f_equal. lia.
    + rewrite IH by lia. f_equal.
Qed.

Lemma indexItems_weights cfg a :
  Forall (fun item => 0 < snd item <= 1000) (SearchEngine.indexItems cfg a).
Proof. unfold SearchEngine.indexItems. repeat constructor; simpl; lia. Qed.

Lemma fieldWeights_bounds cfg a term : 0 <= fieldWeights cfg a term <= 24.
Proof.
  unfold fieldWeights, itemsWeight, SearchEngine.indexItems. simpl.
  repeat match goal with
         | |- context [if ?b then _ else _] => destruct b
         end; lia.
Qed.

(** The documents [indexArticles] indexes: those of the list that have an
    id, a title and a body, up to the one that takes the index over its
    maximum size. *)
Fixpoint indexedDocuments (cfg : SearchEngine.SearchEngineConfig)
    (idx : JsMap.t (list SearchIndex)) (l : list SearchEngine.Unknown)
  : list Article :=
  match l with
  | [] => []
  | SearchEngine.NotAnArticle :: r => indexedDocuments cfg idx r
  | SearchEngine.AnArticle a :: r =>
      match SearchEngine.indexArticle cfg idx a with
      | Throw _ => indexedDocuments cfg idx r
      | Ok idx' =>
          a :: (if SearchEngine.numberOr (SearchEngine.maxIndexSize cfg) 100000
                   <? Z.of_nat (JsMap.size idx')
                then []
                else indexedDocuments cfg idx' r)
      end
  end.

(** They are the documents the engine holds afterwards. *)
Lemma indexLoop_articles cfg l :
  forall idx arts,
    snd (SearchEngine.indexLoop cfg idx arts l)
    = fold_left (fun m a => JsMap.set m (id a) a)
        (indexedDocuments cfg idx l) arts.
Proof.
  induction l as [|[|a] r IH]; intros idx arts; simpl; auto.
  destruct (SearchEngine.indexArticle cfg idx a) as [idx'|]; auto.
  simpl. destruct (_ <? _); simpl; auto.
Qed.

Lemma indexedDocuments_valid cfg l :
  forall idx a,
    In a (indexedDocuments cfg idx l) ->
    In (SearchEngine.AnArticle a) l
    /\ id a <> "" /\ title a <> "" /\ content a <> "".
Proof.
  induction l as [|[|b] r IH]; intros idx a; simpl; [intros []| |].
  - intros H. destruct (IH _ _ H) as [H1 H2]. auto.
  - destruct (SearchEngine.indexArticle cfg idx b) as [idx'|] eqn:E.
    + intros [<-|H].
      * split; [now left|].
        unfold SearchEngine.indexArticle in E.
        destruct (id b), (title b), (content b); try discriminate;
          repeat split; discriminate.
      * destruct (_ <? _); [destruct H|].
        destruct (IH _ _ H) as [H1 H2]. auto.
    + intros H. destruct (IH _ _ H) as [H1 H2]. auto.
Qed.

(** The documents of a list that [indexArticle] accepts. *)
Fixpoint validDocuments (l : list SearchEngine.Unknown) : list Article :=
  match l with
  | [] => []
  | SearchEngine.NotAnArticle :: r => validDocuments r
  | SearchEngine.AnArticle a :: r =>
      if isEmpty (id a) || isEmpty (title a) || isEmpty (content a)
      then validDocuments r
      else a :: validDocuments r
  end.

(** When the index that was built is within the maximum size, no
    document was left out for the size: every valid document of the list
    is indexed. *)
Lemma indexedDocuments_all cfg l :
  forall idx arts,
    Z.of_nat (JsMap.size (fst (SearchEngine.indexLoop cfg idx arts l)))
    <= SearchEngine.numberOr (SearchEngine.maxIndexSize cfg) 100000 ->
    indexedDocuments cfg idx l = validDocuments l.
Proof.
  induction l as [|[|a] r IH]; intros idx arts; simpl; [reflexivity| |].
  - apply IH.
  - unfold SearchEngine.indexArticle.
    destruct (isEmpty (id a) || isEmpty (title a) || isEmpty (content a));
      [apply IH|].
    set (idx' := fold_left (SearchEngine.addItem cfg a)
                   (SearchEngine.indexItems cfg a) idx).
    destruct (SearchEngine.numberOr (SearchEngine.maxIndexSize cfg) 100000
              <? Z.of_nat (JsMap.size idx')) eqn:E; simpl.
    + lia.
    + intros H. f_equal. eapply IH. exact H.
Qed.

(** The sum, over the documents with id [d], of the weights of the
    fields that hold the term. *)
Definition documentsWeight (cfg : SearchEngine.SearchEngineConfig)
    (term d : string) (l : list Article) : Z :=
  fold_right
    (fun b n => (if String.eqb (id b) d then fieldWeights cfg b term else 0) + n)
    0 l.

Lemma documentsWeight_nonneg cfg term d l : 0 <= documentsWeight cfg term d l.
Proof.
  induction l as [|b r IH]; simpl; [lia|].
  pose proof (fieldWeights_bounds cfg b term).
  destruct (String.eqb (id b) d); lia.
Qed.

Lemma indexArticle_weight cfg idx a idx' term d total :
  SearchEngine.indexArticle cfg idx a = Ok idx' ->
  0 <= total ->
  postingWeight idx term d = capped total ->
  postingWeight idx' term d
  = capped (total + if String.eqb (id a) d then fieldWeights cfg a term else 0).
Proof.
  intros E Ht Hw. apply indexArticle_Ok in E. subst idx'.
  rewrite addItems_weight, Hw.
  destruct (String.eqb (id a) d).
  - apply accumulateItems_capped; [apply indexItems_weights | assumption].
  - f_equal. lia.
Qed.

Lemma indexLoop_weight cfg term d l :
  forall idx arts total,
    0 <= total ->
    postingWeight idx term d = capped total ->
    postingWeight (fst (SearchEngine.indexLoop cfg idx arts l)) term d
    = capped (total + documentsWeight cfg term d (indexedDocuments cfg idx l)).
Proof.
  induction l as [|[|a] r IH]; intros idx arts total Ht Hw; simpl.
  - rewrite Hw. f_equal. lia.
  - now apply IH.
  - destruct (SearchEngine.indexArticle cfg idx a) as [idx'|] eqn:E;
      [|now apply IH].
    pose proof (indexArticle_weight _ _ _ _ term d total E Ht Hw) as Hw'.
    pose proof (fieldWeights_bounds cfg a term) as Hb.
    simpl. destruct (_ <? _); simpl.
    + rewrite Hw'. f_equal. lia.
    + assert (0 <= total + (if String.eqb (id a) d
                            then fieldWeights cfg a term else 0)) as Ht'
        by (destruct (String.eqb (id a) d); lia).
      rewrite (IH idx' _ _ Ht' Hw'). f_equal. lia.
Qed.

(** The postings of what [indexArticles] builds: one for each term and
    document, with for weight the capped sum of the field weights. *)
Lemma built_postings cfg documents :
  onePostingPerDocument (SearchEngine.index (built cfg documents))
  /\ forall term d,
       postingWeight (SearchEngine.index (built cfg documents)) term d
       = capped (documentsWeight cfg term d
                   (indexedDocuments cfg [] documents)).
Proof.
  split.
  - apply indexLoop_one, empty_index_one.
  - intros term d. unfold built. simpl.
    now rewrite (indexLoop_weight cfg term d documents [] [] 0).
Qed.

(** The document is indexed and its id is the id of no other indexed
    document. *)
Definition indexedOnce (a : Article) (indexed : list Article) : Prop :=
  exists before after,
    indexed = (before ++ a :: after)%list
    /\ forall b, In b (before ++ after)%list -> id b <> id a.

Lemma documentsWeight_app cfg term d l1 l2 :
  documentsWeight cfg term d (l1 ++ l2)%list
  = documentsWeight cfg term d l1 + documentsWeight cfg term d l2.
Proof.
  induction l1 as [|b r IH]; simpl; [reflexivity|]. rewrite IH. lia.
Qed.

Lemma documentsWeight_others cfg term d l :
  (forall b, In b l -> id b <> d) -> documentsWeight cfg term d l = 0.
Proof.
  induction l as [|b r IH]; simpl; [reflexivity|]. intros Hne.
  destruct (String.eqb (id b) d) eqn:E.
  - apply String.eqb_eq in E. exfalso. apply (Hne b); [now left | assumption].
  - rewrite IH; [reflexivity|]. intros c Hc. apply Hne. now right.
Qed.

(** Then its postings have the sum of its own field weights. *)
Lemma documentsWeight_once cfg term a indexed :
  indexedOnce a indexed ->
  documentsWeight cfg term (id a) indexed = fieldWeights cfg a term.
Proof.
  intros (before & after & -> & Hne).
  rewrite documentsWeight_app. simpl. rewrite String.eqb_refl.
  rewrite !documentsWeight_others; [lia| |];
    intros b Hb; apply Hne; apply in_or_app; auto.
Qed.

(** ** The search engine: scores *)

(** The score a result map holds for a document. *)
Definition scoreIn (resultMap : JsMap.t SearchEngine.Hit) (d : string)
  : option Z := option_map fst (JsMap.get resultMap d).

Lemma addHit_score cfg keyword resultMap i d :
  scoreIn (SearchEngine.addHit cfg keyword resultMap i) d
  = if String.eqb (articleId i) d
    then Some (match scoreIn resultMap d with Some x => x | None => 0 end
               + weight i)
    else scoreIn resultMap d.
Proof.
  unfold scoreIn, SearchEngine.addHit.
  destruct (String.eqb (articleId i) d) eqn:E.
  - apply String.eqb_eq in E. subst d.
    destruct (JsMap.get resultMap (articleId i)) as [[sc hs]|];
      now rewrite get_set_same.
  - apply String.eqb_neq in E.
    destruct (JsMap.get resultMap (articleId i)) as [[sc hs]|];
      now rewrite get_set_other.
Qed.

Lemma weightIn_absent l d : ~ In d (map articleId l) -> weightIn l d = None.
Proof.
  intros H. apply weightIn_None.
  destruct (SearchEngine.hasPosting d l) eqn:E; [|reflexivity].
  apply hasPosting_In in E. contradiction.
Qed.

(** Postings of distinct documents, added to a result map that knows
    none of them, leave each document with the weight of its posting. *)
Lemma hits_score cfg keyword d l :
  NoDup (map articleId l) ->
  forall resultMap,
    (forall i, In i l -> scoreIn resultMap (articleId i) = None) ->
    scoreIn (fold_left (SearchEngine.addHit cfg keyword) l resultMap) d
    = match weightIn l d with
      | Some w => Some w
      | None => scoreIn resultMap d
      end.
Proof.
  induction l as [|i r IH]; simpl; intros Hnd resultMap Hnew; [reflexivity|].
  inversion Hnd as [|? ? Hnot Hnd']; subst.
  rewrite IH; [|assumption|].
  - rewrite addHit_score. unfold weightIn at 2. simpl.
    destruct (String.eqb (articleId i) d) eqn:E.
    + apply String.eqb_eq in E. subst d.
      rewrite weightIn_absent by assumption.
      rewrite (Hnew i) by now left. reflexivity.
    + reflexivity.
  - intros j Hj. rewrite addHit_score.
    destruct (String.eqb (articleId i) (articleId j)) eqn:E.
    + apply String.eqb_eq in E. exfalso. apply Hnot. rewrite E.
      now apply in_map.
    + apply Hnew. now right.
Qed.

(** No other term of the index starts with the term. *)
Definition noLongerTerm (idx : JsMap.t (list SearchIndex)) (term : string)
  : Prop :=
  forall key, In key (JsMap.keys idx) -> String.prefix term key = true ->
              key = term.

Lemma prefixMatches_none term idx :
  noLongerTerm idx term ->
  forall count, SearchEngine.prefixMatches term count idx = [].
Proof.
  unfold noLongerTerm.
  induction idx as [|[key items] r IH]; intros H count.
  - now destruct count.
  - destruct count as [|count]; [reflexivity|]. simpl.
    destruct (String.prefix term key) eqn:Ep; simpl.
    + rewrite (H key) by (simpl; auto). rewrite String.eqb_refl. simpl.
      apply IH. intros k Hk. apply H. now right.
    + apply IH. intros k Hk. apply H. now right.
Qed.

Lemma searchIndex_exact idx term :
  noLongerTerm idx term ->
  (length (postingsOf idx term) <= 100)%nat ->
  SearchEngine.searchIndex idx term = [] 
  \/ SearchEngine.searchIndex idx term = postingsOf idx term.
Proof.
  intros Hno Hlen. unfold SearchEngine.searchIndex.
  destruct (isEmpty term); [now left|]. right.
  rewrite prefixMatches_none by assumption. rewrite app_nil_r.
  unfold postingsOf in *.
  destruct (JsMap.get idx term) as [l|]; [|reflexivity].
  now apply firstn_all2.
Qed.

Lemma toResults_In s resultMap r :
  In r (SearchEngine.toResults s resultMap) ->
  exists k hs,
    In (k, (score r, hs)) resultMap
    /\ JsMap.get (SearchEngine.articles s) k = Some (article r).
Proof.
  unfold SearchEngine.toResults. rewrite in_flat_map.
  intros ([k [sc hs]] & Hin & Hr).
  destruct (JsMap.get (SearchEngine.articles s) k) as [a|] eqn:E;
    [|destruct Hr].
  destruct Hr as [<-|[]]. simpl. exists k, hs. now split.
Qed.

(** A query of one term, when no other term starts with it and it has
    at most 100 postings: the score of a result is the weight of the
    posting of its document. *)
Lemma single_term_scores s validatedQuery term :
  keyedById (SearchEngine.articles s) ->
  onePostingPerDocument (SearchEngine.index s) ->
  SearchEngine.tokenize (SearchEngine.config s) validatedQuery = [term] ->
  noLongerTerm (SearchEngine.index s) term ->
  (length (postingsOf (SearchEngine.index s) term) <= 100)%nat ->
  forall r,
    In r (SearchEngine.searchValidated s validatedQuery) ->
    postingWeight (SearchEngine.index s) term (idOf r) = Some (score r).
Proof.
  intros Hkeyed [_ Hone] Htok Hno Hlen r.
  unfold SearchEngine.searchValidated. rewrite Htok. simpl.
  unfold SearchEngine.addKeyword.
  intros Hr. apply In_firstn_list in Hr. apply sortBy_In in Hr.
  apply toResults_In in Hr. destruct Hr as (k & hs & Hin & Hget).
  destruct (searchIndex_exact _ _ Hno Hlen) as [E|E]; rewrite E in Hin;
    [destruct Hin|].
  assert (NoDup (JsMap.keys
                   (fold_left (SearchEngine.addHit (SearchEngine.config s) term)
                      (postingsOf (SearchEngine.index s) term) []))) as Hnd.
  { generalize (postingsOf (SearchEngine.index s) term) as l.
    intros l. assert (NoDup (JsMap.keys (@nil (string * SearchEngine.Hit))))
      as H0 by constructor.
    revert H0. generalize (@nil (string * SearchEngine.Hit)) as rm.
    induction l as [|i l IH]; intros rm H0; simpl; [assumption|].
    apply IH. now apply addHit_keys. }
  apply (In_get _ _ _ Hnd) in Hin.
  pose proof (hits_score (SearchEngine.config s) term k
                (postingsOf (SearchEngine.index s) term) (Hone term) []
                (fun _ _ => eq_refl)) as Hscore.
  unfold scoreIn at 1 in Hscore. rewrite Hin in Hscore. simpl in Hscore.
  apply Hkeyed in Hget. unfold idOf. rewrite Hget.
  unfold postingWeight. fold (weightIn (postingsOf (SearchEngine.index s) term) k).
  destruct (weightIn (postingsOf (SearchEngine.index s) term) k);
    [congruence | discriminate].
Qed.

(** The term is indexed in the body of the document and in no other
    field. *)
Definition inBodyOnly (cfg : SearchEngine.SearchEngineConfig) (b : Article)
    (term : string) : Prop :=
  indexedIn cfg (SearchEngine.validateString cfg (title b)) term = false
  /\ indexedIn cfg (SearchEngine.validateString cfg (description b)) term
     = false
  /\ indexedIn cfg (join " " (tags b)) term = false
  /\ indexedIn cfg (join " " (categories b)) term = false
  /\ indexedIn cfg (SearchEngine.validateString cfg (content b)) term = true.

Lemma fieldWeights_bodyOnly cfg b term :
  inBodyOnly cfg b term -> fieldWeights cfg b term = 1.
Proof.
  intros (H1 & H2 & H3 & H4 & H5).
  unfold fieldWeights, itemsWeight, SearchEngine.indexItems. simpl.
  now rewrite H1, H2, H3, H4, H5.
Qed.

Lemma fieldWeights_title_and_body cfg a term :
  indexedIn cfg (SearchEngine.validateString cfg (title a)) term = true ->
  indexedIn cfg (SearchEngine.validateString cfg (content a)) term = true ->
  11 <= fieldWeights cfg a term.
Proof.
  intros H1 H5.
  unfold fieldWeights, itemsWeight, SearchEngine.indexItems. simpl.
  rewrite H1, H5.
  repeat match goal with
         | |- context [if ?b then _ else _] => destruct b
         end; lia.
Qed.

Lemma capped_fieldWeights cfg a term :
  capped (fieldWeights cfg a term)
  = if fieldWeights cfg a term =? 0 then None
    else Some (fieldWeights cfg a term).
Proof.
  unfold capped. pose proof (fieldWeights_bounds cfg a term).
  destruct (fieldWeights cfg a term =? 0); [reflexivity|]. f_equal. lia.
Qed.

(** *** Where the title does not decide *)

Fixpoint repeatString (n : nat) (s : string) : string :=
  match n with
  | O => ""
  | S n' => s ++ repeatString n' s
  end.

(** [guide] in title and body; and [guide] in the body only, under a
    title of two longer words that start with it. *)
Definition shortGuide : Article := plainArticle "doc1" "guide" "guide" 0.
Definition longerWords : Article :=
  plainArticle "doc2" "guides guidebook" "guide" 0.

(** [guide] as the 51st word of the title and in the body; and [guide]
    in the body only. *)
Definition lateInTitle : Article :=
  plainArticle "doc1" (repeatString 50 "a " ++ "guide") "guide" 0.
Definition plainBody : Article := plainArticle "doc2" "other" "guide" 0.

(** A hundred documents with [guide] in the body only, then one with
    [guide] in title and body. *)
Definition crowd : list SearchEngine.Unknown :=
  (map (fun n =>
          SearchEngine.AnArticle
            (plainArticle ("d" ++ intToString (Z.of_nat n)) "other" "guide" 0))
     (seq 1 100)
   ++ [SearchEngine.AnArticle (plainArticle "last" "guide" "guide" 0)])%list.

Definition idsAndScores (results : list SearchResult) : list (string * Z) :=
  map (fun r => (idOf r, score r)) results.

(** C6, as stated, fails in its consequence.  The search for [guide]
    also counts the postings of the terms [guide] is a prefix of, so the
    document that holds [guide] in its body only scores 21 against 11;
    only the first fifty tokens of a field are indexed, so the document
    whose title holds [guide] after fifty other words scores 1, as the
    document that holds it in its body only; and only the first hundred
    postings of a term are read, so the document that holds [guide] in
    title and body, with a posting of weight 11 that comes after a
    hundred others, is not among the results at all. *)
Lemma C6_title_and_body_not_always_higher :
  (exists results,
      SearchEngine.search
        (built defaultEngineConfig
           [SearchEngine.AnArticle shortGuide;
            SearchEngine.AnArticle longerWords])
        (Some "guide") = Ok results
      /\ idsAndScores results = [("doc2", 21); ("doc1", 11)]
      /\ indexedIn defaultEngineConfig (title shortGuide) "guide" = true
      /\ indexedIn defaultEngineConfig (content shortGuide) "guide" = true
      /\ inBodyOnly defaultEngineConfig longerWords "guide")
  /\ (exists results,
         SearchEngine.search
           (built defaultEngineConfig
              [SearchEngine.AnArticle lateInTitle;
               SearchEngine.AnArticle plainBody])
           (Some "guide") = Ok results
         /\ idsAndScores results = [("doc1", 1); ("doc2", 1)]
         /\ includes (title lateInTitle) "guide" = true
         /\ includes (content lateInTitle) "guide" = true
         /\ inBodyOnly defaultEngineConfig plainBody "guide")
  /\ (exists results,
         SearchEngine.search (built defaultEngineConfig crowd) (Some "guide")
         = Ok results
         /\ postingWeight
              (SearchEngine.index (built defaultEngineConfig crowd))
              "guide" "last" = Some 11
         /\ List.forallb (fun r => score r =? 1) results = true
         /\ existsb (fun r => String.eqb (idOf r) "last") results = false).
Proof.
  split; [|split]; eexists; (split; [reflexivity|]); vm_compute;
    repeat split.
Qed.

(** Documents that share an id share their postings: two documents with
    the id [doc1] and [guide] in the body give one posting of weight 2. *)
Example shared_id_shares_postings :
  postingWeight
    (SearchEngine.index
       (built defaultEngineConfig
          [SearchEngine.AnArticle (plainArticle "doc1" "one" "guide" 0);
           SearchEngine.AnArticle (plainArticle "doc1" "two" "guide" 0)]))
    "guide" "doc1"
  = Some 2.
Proof. vm_compute. reflexivity. Qed.

Lemma built_keyed cfg documents :
  keyedById (SearchEngine.articles (built cfg documents)).
Proof.
  unfold built. simpl. apply indexLoop_keyed. intros k a; discriminate.
Qed.

(** C6, amended.  After [indexArticles] the index holds at most one
    posting for each term and document id; the weight of the posting is
    the sum, capped at 1000, of the weights (title 10, description 5,
    tags 4, categories 4, body 1) of the fields the term is indexed in,
    over the indexed documents that carry the id, which for a document
    whose id no other indexed document carries is the sum over its own
    fields.  For a query of the single term, when no other term of the
    index starts with it and it has at most 100 postings, the score of
    such a document is that sum; so a document that has the term indexed
    in its title and in its body scores strictly higher than one that
    has it indexed in its body only, whose score is 1. *)
Theorem C6_posting_weights_and_scores :
  forall s0 documents s,
    SearchEngine.indexArticles s0 (Some documents) = Ok s ->
    let cfg := SearchEngine.config s0 in
    let indexed := indexedDocuments cfg [] documents in
    onePostingPerDocument (SearchEngine.index s)
    /\ (forall term d,
           postingWeight (SearchEngine.index s) term d
           = capped (documentsWeight cfg term d indexed))
    /\ (forall term a,
           indexedOnce a indexed ->
           postingWeight (SearchEngine.index s) term (id a)
           = if fieldWeights cfg a term =? 0 then None
             else Some (fieldWeights cfg a term))
    /\ (forall query term a b results,
           SearchEngine.search s (Some query) = Ok results ->
           SearchEngine.tokenize cfg (SearchEngine.validateString cfg query)
           = [term] ->
           noLongerTerm (SearchEngine.index s) term ->
           (length (postingsOf (SearchEngine.index s) term) <= 100)%nat ->
           indexedOnce a indexed ->
           indexedOnce b indexed ->
           indexedIn cfg (SearchEngine.validateString cfg (title a)) term
           = true ->
           indexedIn cfg (SearchEngine.validateString cfg (content a)) term
           = true ->
           inBodyOnly cfg b term ->
           forall ra rb,
             In ra results -> In rb results ->
             article ra = a -> article rb = b ->
             score ra = fieldWeights cfg a term
             /\ score rb = 1
             /\ score rb < score ra).
Proof.
  intros s0 documents s Hindex cfg indexed.
  assert (SearchEngine.disposed s0 = false) as Hd.
  { destruct (SearchEngine.disposed s0) eqn:E; [|reflexivity].
    rewrite indexArticles_disposed in Hindex by assumption. discriminate. }
  rewrite indexArticles_built in Hindex by assumption.
  injection Hindex as <-. fold cfg.
  destruct (built_postings cfg documents) as [Hone Hweight].
  fold indexed in Hweight.
  assert (Honce : forall term a,
             indexedOnce a indexed ->
             postingWeight (SearchEngine.index (built cfg documents)) term
               (id a)
             = if fieldWeights cfg a term =? 0 then None
               else Some (fieldWeights cfg a term)).
  { intros term a Ha.
    now rewrite Hweight, documentsWeight_once, capped_fieldWeights. }
  split; [exact Hone|]. split; [exact Hweight|]. split; [exact Honce|].
  intros query term a b results Hsearch Htok Hno Hlen Ha Hb Ht Hc Hbody
    ra rb Hra Hrb Era Erb.
  unfold SearchEngine.search, SearchEngine.checkDisposed in Hsearch.
  simpl in Hsearch.
  destruct (_ <? _) in Hsearch;
    [injection Hsearch as <-; destruct Hra|].
  change (SearchEngine.config (built cfg documents)) with cfg in Hsearch.
  destruct (isEmpty (SearchEngine.validateString cfg query));
    injection Hsearch as <-; [destruct Hra|].
  pose proof (single_term_scores (built cfg documents) _ term
                (built_keyed cfg documents) Hone Htok Hno Hlen) as Hscore.
  pose proof (Hscore ra Hra) as Hsa. pose proof (Hscore rb Hrb) as Hsb.
  unfold idOf in Hsa, Hsb. rewrite Era in Hsa. rewrite Erb in Hsb.
  rewrite Honce in Hsa, Hsb by assumption.
  pose proof (fieldWeights_title_and_body cfg a term Ht Hc) as Hfa.
  pose proof (fieldWeights_bodyOnly cfg b term Hbody) as Hfb.
  rewrite Hfb in Hsb. simpl in Hsb.
  destruct (fieldWeights cfg a term =? 0) eqn:E0; [discriminate|].
  injection Hsa as Hsa. injection Hsb as Hsb. lia.
Qed.

(** *** Two documents and the query [guide] *)

Definition primer : Article :=
  plainArticle "doc1" "Guide to Rust" "A guide for newcomers" 0.
Definition notes : Article :=
  plainArticle "doc2" "Ownership" "read the guide" 0.

Definition library : list SearchEngine.Unknown :=
  [SearchEngine.AnArticle primer; SearchEngine.AnArticle notes].

Definition libraryEngine : SearchEngine.State :=
  built defaultEngineConfig library.

(** The primer holds [guide] in its title and its body and scores 11;
    the notes hold it in their body only and score 1. *)
Lemma C6_posting_weights_witness :
  SearchEngine.indexArticles freshEngine (Some library) = Ok libraryEngine
  /\ postingWeight (SearchEngine.index libraryEngine) "guide" "doc1" = Some 11
  /\ postingWeight (SearchEngine.index libraryEngine) "guide" "doc2" = Some 1
  /\ exists ra rb,
       SearchEngine.search libraryEngine (Some "guide") = Ok [ra; rb]
       /\ article ra = primer /\ article rb = notes
       /\ score ra = 11 /\ score rb = 1 /\ score rb < score ra.
Proof.
  assert (Hindex : SearchEngine.indexArticles freshEngine (Some library)
                   = Ok libraryEngine) by reflexivity.
  destruct (C6_posting_weights_and_scores freshEngine library libraryEngine
              Hindex) as (_ & _ & Honce & Hscores).
  assert (Hprimer : indexedOnce primer
                      (indexedDocuments defaultEngineConfig [] library)).
  { exists [], [notes]. split; [reflexivity|].
    intros b [<-|[]]. discriminate. }
  assert (Hnotes : indexedOnce notes
                     (indexedDocuments defaultEngineConfig [] library)).
  { exists [primer], []. split; [reflexivity|].
    intros b [<-|[]]. discriminate. }
  split; [exact Hindex|].
  split; [exact (Honce "guide" primer Hprimer)|].
  split; [exact (Honce "guide" notes Hnotes)|].
  assert (Hsearch : SearchEngine.search libraryEngine (Some "guide")
                    = Ok [ {| article := primer; score := 11;
                              highlights :=
                                ["<mark>Guide</mark> to Rust"] |};
                           {| article := notes; score := 1;
                              highlights :=
                                ["read the <mark>guide</mark>"] |} ])
    by (vm_compute; reflexivity).
  eexists. eexists. split; [exact Hsearch|].
  split; [reflexivity|]. split; [reflexivity|].
  assert (Htokens : SearchEngine.tokenize defaultEngineConfig
                      (SearchEngine.validateString defaultEngineConfig "guide")
                    = ["guide"])
    by (vm_compute; reflexivity).
  assert (Hnone : noLongerTerm (SearchEngine.index libraryEngine) "guide").
  { intros key Hkey Hp. vm_compute in Hkey.
    repeat (destruct Hkey as [<-|Hkey]; [first [reflexivity|discriminate Hp]|]).
    destruct Hkey. }
  assert (Hbody : inBodyOnly defaultEngineConfig notes "guide")
    by (vm_compute; repeat split).
  assert (Hlen : (length (postingsOf (SearchEngine.index libraryEngine)
                            "guide") <= 100)%nat)
    by (vm_compute; lia).
  assert (Htitle : indexedIn defaultEngineConfig
                     (SearchEngine.validateString defaultEngineConfig
                        (title primer)) "guide" = true)
    by (vm_compute; reflexivity).
  assert (Hcontent : indexedIn defaultEngineConfig
                       (SearchEngine.validateString defaultEngineConfig
                          (content primer)) "guide" = true)
    by (vm_compute; reflexivity).
  destruct (Hscores "guide" "guide" primer notes _ Hsearch Htokens Hnone
              Hlen Hprimer Hnotes Htitle Hcontent Hbody _ _
              (or_introl eq_refl) (or_intror (or_introl eq_refl))
              eq_refl eq_refl) as (Ha & Hb & Hlt).
  split; [exact Ha|]. split; [exact Hb | exact Hlt].
Defined.

(* ================================================================== *)
(** * Part III: further properties of the code *)
(* ================================================================== *)

(** ** The cache: a run of calls *)

(** A call on a [MemoryCache]; [OpCleanup] is a round of the periodic
    sweep. *)
Inductive CacheOp (T : Type) : Type :=
| OpSet (now : Z) (key : string) (v : T) (expireMs : option Z)
| OpGet (now : Z) (key : string)
| OpHas (now : Z) (key : string)
| OpDelete (key : string)
| OpClear
| OpCleanup (now : Z).
Arguments OpSet {T} now key v expireMs.
Arguments OpGet {T} now key.
Arguments OpHas {T} now key.
Arguments OpDelete {T} key.
Arguments OpClear {T}.
Arguments OpCleanup {T} now.

Definition cacheStep {T : Type} (c : Cache.MemoryCache T) (op : CacheOp T)
  : Cache.MemoryCache T :=
  match op with
  | OpSet now key v expireMs => Cache.set now c key v expireMs
  | OpGet now key => fst (Cache.get now c key)
  | OpHas now key => fst (Cache.has now c key)
  | OpDelete key => Cache.delete c key
  | OpClear => Cache.clear c
  | OpCleanup now => Cache.cleanup now c
  end.

Definition cacheRun {T : Type} (c : Cache.MemoryCache T)
    (ops : list (CacheOp T)) : Cache.MemoryCache T :=
  fold_left cacheStep ops c.

Section CacheRuns.
Context {T : Type}.
Implicit Types (c : Cache.MemoryCache T) (m : JsMap.t (Cache.CacheEntry T)).

Lemma keys_filter_incl {V : Type} (p : string * V -> bool) (m : JsMap.t V) k :
  In k (JsMap.keys (List.filter p m)) -> In k (JsMap.keys m).
Proof.
  unfold JsMap.keys. rewrite !in_map_iff.
  intros (x & Hx & Hin). apply filter_In in Hin. exists x. tauto.
Qed.

Lemma NoDup_keys_filter {V : Type} (p : string * V -> bool) (m : JsMap.t V) :
  NoDup (JsMap.keys m) -> NoDup (JsMap.keys (List.filter p m)).
Proof.
  induction m as [|[k v] r IH]; simpl; [auto|].
  intros Hnd. inversion Hnd as [|? ? Hnot Hnd']; subst.
  destruct (p (k, v)); [|auto]. simpl. constructor; [|auto].
  intros H. apply Hnot. eapply keys_filter_incl. exact H.
Qed.

Lemma get_filter {V : Type} (p : string * V -> bool) (m : JsMap.t V) k :
  NoDup (JsMap.keys m) ->
  JsMap.get (List.filter p m) k
  = match JsMap.get m k with
    | Some v => if p (k, v) then Some v else None
    | None => None
    end.
Proof.
  induction m as [|[k' v'] r IH]; simpl; [reflexivity|].
  intros Hnd. inversion Hnd as [|? ? Hnot Hnd']; subst.
  destruct (String.eqb k' k) eqn:E.
  - apply String.eqb_eq in E. subst k'.
    destruct (p (k, v')) eqn:Ep; simpl.
    + now rewrite String.eqb_refl.
    + apply get_None_keys. intros H. apply Hnot.
      eapply keys_filter_incl. exact H.
  - destruct (p (k', v')); simpl; [rewrite E|]; auto.
Qed.

Lemma get_delete_same {V : Type} (m : JsMap.t V) k :
  NoDup (JsMap.keys m) -> JsMap.get (JsMap.delete m k) k = None.
Proof.
  intros Hnd. apply get_None_keys. intros H.
  apply keys_delete in H; [|assumption]. tauto.
Qed.

Lemma get_delete_other {V : Type} (m : JsMap.t V) k k' :
  k <> k' -> JsMap.get (JsMap.delete m k) k' = JsMap.get m k'.
Proof.
  intros Hne. induction m as [|[k0 v0] r IH]; simpl; [reflexivity|].
  destruct (String.eqb k0 k) eqn:E.
  - apply String.eqb_eq in E. subst k0.
    apply String.eqb_neq in Hne. now rewrite Hne.
  - simpl. now rewrite IH.
Qed.

Lemma evict_keys now c :
  NoDup (JsMap.keys (Cache.cache c)) ->
  NoDup (JsMap.keys (Cache.cache (Cache.evict now c)))
  /\ incl (JsMap.keys (Cache.cache (Cache.evict now c)))
       (JsMap.keys (Cache.cache c)).
Proof.
  intros Hnd. destruct (evict_cases now c) as [->|[k ->]].
  - split; [assumption | apply incl_refl].
  - simpl. split; [now apply NoDup_keys_delete|].
    intros n Hn. apply keys_delete in Hn; tauto.
Qed.

Lemma cacheStep_keys c op :
  NoDup (JsMap.keys (Cache.cache c)) ->
  NoDup (JsMap.keys (Cache.cache (cacheStep c op))).
Proof.
  intros Hnd. destruct op as [now key v e|now key|now key|key| |now]; simpl.
  - unfold Cache.set. simpl. apply NoDup_keys_set.
    destruct (_ && _); [now apply evict_keys | assumption].
  - unfold Cache.get.
    destruct (JsMap.get (Cache.cache c) key) as [entry|]; [|assumption].
    destruct (Cache.expiresAt entry <? now); simpl;
      [now apply NoDup_keys_delete | now apply NoDup_keys_set].
  - unfold Cache.has.
    destruct (JsMap.get (Cache.cache c) key) as [entry|]; [|assumption].
    destruct (Cache.expiresAt entry <? now); simpl;
      [now apply NoDup_keys_delete | assumption].
  - now apply NoDup_keys_delete.
  - constructor.
  - now apply NoDup_keys_filter.
Qed.

Lemma cacheRun_keys ops :
  forall c,
    NoDup (JsMap.keys (Cache.cache c)) ->
    NoDup (JsMap.keys (Cache.cache (cacheRun c ops))).
Proof.
  unfold cacheRun. induction ops as [|op r IH]; intros c Hnd; simpl; [assumption|].
  apply IH. now apply cacheStep_keys.
Qed.

Lemma cacheRun_new_keys d n p ops :
  NoDup (JsMap.keys (Cache.cache (cacheRun (@Cache.new T d n p) ops))).
Proof. apply cacheRun_keys. constructor. Qed.

Lemma cacheRun_snoc c ops op :
  cacheRun c (ops ++ [op]) = cacheStep (cacheRun c ops) op.
Proof. unfold cacheRun. now rewrite fold_left_app. Qed.

Definition expiryOf c now (expireMs : option Z) : Z :=
  now + match expireMs with
        | Some e => e
        | None => Cache.defaultExpireMs c
        end.

(** [set] leaves the entry it makes in the cache, be it after an
    eviction. *)
Lemma set_entry now c key (v : T) expireMs :
  exists c0,
    Cache.set now c key v expireMs
    = Cache.withCache c0
        (JsMap.set (Cache.cache c0) key
           {| Cache.value := v; Cache.expiresAt := expiryOf c now expireMs;
              Cache.createdAt := now; Cache.hits := 0 |})
    /\ Cache.statHits c0 = Cache.statHits c
    /\ Cache.statMisses c0 = Cache.statMisses c.
Proof.
  unfold Cache.set, expiryOf. destruct (_ && _).
  - exists (Cache.evict now c). split; [reflexivity|].
    destruct (evict_cases now c) as [->|[k ->]]; now split.
  - exists c. now split.
Qed.

Lemma get_after_set now later c key (v : T) expireMs :
  later <= expiryOf c now expireMs ->
  snd (Cache.get later (Cache.set now c key v expireMs) key) = Some v.
Proof.
  intros Ht. destruct (set_entry now c key v expireMs) as (c0 & -> & _).
  unfold Cache.get. simpl. rewrite get_set_same. simpl.
  assert ((expiryOf c now expireMs <? later) = false) as -> by lia.
  reflexivity.
Qed.


(** The lookups a run makes after its last [clear]. *)
Definition lookups (ops : list (CacheOp T)) : nat :=
  fold_left
    (fun n op =>
       match op with
       | OpGet _ _ => S n
       | OpClear => O
       | _ => n
       end)
    ops O.

Lemma evict_stats now c :
  Cache.statHits (Cache.evict now c) = Cache.statHits c
  /\ Cache.statMisses (Cache.evict now c) = Cache.statMisses c.
Proof. destruct (evict_cases now c) as [->|[k ->]]; now split. Qed.

Lemma cacheStep_stats c op :
  let count n :=
    match op with
    | OpGet _ _ => n + 1
    | OpClear => 0
    | _ => n
    end in
  0 <= Cache.statHits c -> 0 <= Cache.statMisses c ->
  0 <= Cache.statHits (cacheStep c op)
  /\ 0 <= Cache.statMisses (cacheStep c op)
  /\ Cache.statHits (cacheStep c op) + Cache.statMisses (cacheStep c op)
     = count (Cache.statHits c + Cache.statMisses c).
Proof.
  intros count Hh Hm. subst count.
  destruct op as [now key v e|now key|now key|key| |now]; simpl.
  - unfold Cache.set. simpl.
    destruct (_ && _); [destruct (evict_stats now c) as [-> ->]|]; lia.
  - unfold Cache.get.
    destruct (JsMap.get (Cache.cache c) key) as [entry|]; simpl; [|lia].
    destruct (Cache.expiresAt entry <? now); simpl; lia.
  - unfold Cache.has.
    destruct (JsMap.get (Cache.cache c) key) as [entry|]; simpl; [|lia].
    destruct (Cache.expiresAt entry <? now); simpl; lia.
  - lia.
  - lia.
  - lia.
Qed.

(** X2: the statistics of a cache count its lookups: hits and misses
    are never negative, together they are the number of [get] calls
    since the cache was made or last cleared ([has] is not counted), and
    the hit rate lies between 0 and 1. *)
Theorem cache_stats_count_lookups d n p (ops : list (CacheOp T)) :
  let stats := Cache.getStats (cacheRun (Cache.new d n p) ops) in
  0 <= Cache.cs_hits stats
  /\ 0 <= Cache.cs_misses stats
  /\ Cache.cs_hits stats + Cache.cs_misses stats = Z.of_nat (lookups ops)
  /\ (0 <= Cache.hitRate stats <= 1)%Q.
Proof.
  simpl.
  assert (0 <= Cache.statHits (cacheRun (Cache.new d n p) ops)
          /\ 0 <= Cache.statMisses (cacheRun (Cache.new d n p) ops)
          /\ Cache.statHits (cacheRun (Cache.new d n p) ops)
             + Cache.statMisses (cacheRun (Cache.new d n p) ops)
             = Z.of_nat (lookups ops)) as (Hh & Hm & Hsum).
  { induction ops as [|op r IH] using rev_ind.
    - simpl. repeat split; lia.
    - rewrite cacheRun_snoc. destruct IH as (Hh & Hm & Hsum).
      destruct (cacheStep_stats (cacheRun (Cache.new d n p) r) op Hh Hm)
        as (Hh' & Hm' & Hsum').
      split; [assumption|]. split; [assumption|].
      rewrite Hsum'. unfold lookups. rewrite fold_left_app. simpl.
      fold (lookups r). rewrite Hsum. destruct op; lia. }
  split; [assumption|]. split; [assumption|]. split; [assumption|].
  set (hits := Cache.statHits _) in *. set (misses := Cache.statMisses _) in *.
  destruct (0 <? hits + misses) eqn:E.
  - unfold Qle. simpl. rewrite Z2Pos.id by lia. lia.
  - unfold Qle. simpl. lia.
Qed.

(** X3: a round of the periodic sweep removes the entries whose expiry
    has passed and nothing else: no key is live at that instant that was
    not live before or the other way round, every entry left has not
    expired and is an entry of the cache before, and the counters are
    untouched. *)
Theorem cache_cleanup_removes_expired d n p (ops : list (CacheOp T)) now :
  let c := cacheRun (Cache.new d n p) ops in
  let swept := Cache.cleanup now c in
  (forall key, snd (Cache.has now swept key) = snd (Cache.has now c key))
  /\ (forall key entry,
         JsMap.get (Cache.cache swept) key = Some entry ->
         now <= Cache.expiresAt entry
         /\ JsMap.get (Cache.cache c) key = Some entry)
  /\ (forall key entry,
         JsMap.get (Cache.cache c) key = Some entry ->
         now <= Cache.expiresAt entry ->
         JsMap.get (Cache.cache swept) key = Some entry)
  /\ (Cache.size swept <= Cache.size c)%nat
  /\ Cache.statHits swept = Cache.statHits c
  /\ Cache.statMisses swept = Cache.statMisses c.
Proof.
  intros c swept.
  pose proof (cacheRun_new_keys d n p ops) as Hnd. fold c in Hnd.
  assert (forall key,
             JsMap.get (Cache.cache swept) key
             = match JsMap.get (Cache.cache c) key with
               | Some e => if Cache.expiresAt e <? now then None else Some e
               | None => None
               end) as Hget.
  { intros key. unfold swept, Cache.cleanup. simpl.
    rewrite get_filter by assumption.
    destruct (JsMap.get (Cache.cache c) key) as [e|]; [|reflexivity].
    simpl. now destruct (Cache.expiresAt e <? now). }
  clearbody c. split; [|split; [|split; [|split]]].
  - intros key. unfold Cache.has. rewrite Hget.
    destruct (JsMap.get (Cache.cache c) key) as [e|]; [|reflexivity].
    destruct (Cache.expiresAt e <? now) eqn:E; [reflexivity|].
    now rewrite E.
  - intros key entry. rewrite Hget.
    destruct (JsMap.get (Cache.cache c) key) as [e|]; [|discriminate].
    destruct (Cache.expiresAt e <? now) eqn:E; [discriminate|].
    intros [= <-]. split; [lia | reflexivity].
  - intros key entry He Hlive. rewrite Hget, He.
    assert ((Cache.expiresAt entry <? now) = false) as -> by lia.
    reflexivity.
  - unfold swept, Cache.cleanup, Cache.size, JsMap.size. simpl.
    apply filter_length_le.
  - now split.
Qed.

(** Every key the run sets is a non-empty string. *)
Definition setsNamedKeys (ops : list (CacheOp T)) : Prop :=
  Forall (fun op =>
            match op with
            | OpSet _ key _ _ => key <> ""
            | _ => True
            end) ops.

(** What a run keeps of an LFU cache with room for [limit] entries. *)
Definition lfuWithin (limit : Z) c : Prop :=
  Cache.evictionPolicy c = Cache.LFU
  /\ Cache.maxSize c = limit
  /\ Z.of_nat (Cache.size c) <= limit
  /\ ~ In "" (JsMap.keys (Cache.cache c)).

Lemma withCache_fields c m :
  Cache.evictionPolicy (Cache.withCache c m) = Cache.evictionPolicy c
  /\ Cache.maxSize (Cache.withCache c m) = Cache.maxSize c.
Proof. now split. Qed.

Lemma set_fields now c key (v : T) expireMs :
  Cache.evictionPolicy (Cache.set now c key v expireMs)
  = Cache.evictionPolicy c
  /\ Cache.maxSize (Cache.set now c key v expireMs) = Cache.maxSize c.
Proof.
  unfold Cache.set. simpl.
  destruct (_ && _); [|now split].
  destruct (evict_cases now c) as [->|[k ->]]; now split.
Qed.

Lemma set_keys now c key (v : T) expireMs k :
  In k (JsMap.keys (Cache.cache (Cache.set now c key v expireMs))) ->
  k = key \/ In k (JsMap.keys (Cache.cache c)).
Proof.
  unfold Cache.set. simpl. intros H. apply In_keys_set in H.
  destruct H as [->|H]; [now left|]. right.
  destruct (_ && _); [|assumption].
  destruct (evict_cases now c) as [E|[k' E]]; rewrite E in H; [assumption|].
  simpl in H. clear E.
  induction (Cache.cache c) as [|[k0 e0] r IH]; simpl in *; [assumption|].
  destruct (String.eqb k0 k'); simpl in *; tauto.
Qed.

Lemma delete_keys_incl {V : Type} (m : JsMap.t V) k n :
  In n (JsMap.keys (JsMap.delete m k)) -> In n (JsMap.keys m).
Proof.
  induction m as [|[k0 e0] r IH]; simpl; [auto|].
  destruct (String.eqb k0 k); simpl; tauto.
Qed.

Lemma cacheStep_lfu limit c op :
  1 <= limit ->
  match op with OpSet _ key _ _ => key <> "" | _ => True end ->
  lfuWithin limit c -> lfuWithin limit (cacheStep c op).
Proof.
  intros Hlimit Hkey (Hp & Hmax & Hsize & Hnamed).
  destruct op as [now key v e|now key|now key|key| |now]; simpl.
  - destruct (set_fields now c key v e) as [Ep Em].
    split; [congruence|]. split; [congruence|]. split.
    + destruct (Cache.size c) as [|k] eqn:Es.
      * unfold Cache.size at 1.
        rewrite set_below_capacity by (rewrite Es, Hmax; simpl; lia).
        unfold Cache.size, JsMap.size in Es.
        destruct (Cache.cache c); [simpl; lia | discriminate].
      * rewrite <- Hmax. apply lfu_set_within_capacity; try assumption.
        -- lia.
        -- lia.
    + intros H. apply set_keys in H. destruct H as [H|H]; [|tauto].
      now apply Hkey.
  - unfold Cache.get.
    destruct (JsMap.get (Cache.cache c) key) as [entry|] eqn:Eg;
      [|repeat split; assumption].
    destruct (Cache.expiresAt entry <? now); simpl.
    + split; [assumption|]. split; [assumption|]. split.
      * pose proof (size_delete_le (Cache.cache c) key).
        unfold Cache.size in *. simpl. lia.
      * intros H. apply Hnamed. eapply delete_keys_incl. exact H.
    + split; [assumption|]. split; [assumption|].
      assert (JsMap.has (Cache.cache c) key = true) as Hhas
          by (apply has_true_get; eauto).
      split.
      * unfold Cache.size in *. simpl. now rewrite size_set_present.
      * simpl. now rewrite keys_set_present.
  - unfold Cache.has.
    destruct (JsMap.get (Cache.cache c) key) as [entry|] eqn:Eg;
      [|repeat split; assumption].
    destruct (Cache.expiresAt entry <? now); simpl;
      [|repeat split; assumption].
    split; [assumption|]. split; [assumption|]. split.
    + pose proof (size_delete_le (Cache.cache c) key).
      unfold Cache.size in *. simpl. lia.
    + intros H. apply Hnamed. eapply delete_keys_incl. exact H.
  - split; [assumption|]. split; [assumption|]. split.
    + pose proof (size_delete_le (Cache.cache c) key).
      unfold Cache.size, Cache.delete in *. simpl. lia.
    + intros H. apply Hnamed. eapply delete_keys_incl. exact H.
  - split; [assumption|]. split; [assumption|]. split.
    + unfold Cache.size. simpl. lia.
    + intros [].
  - split; [assumption|]. split; [assumption|]. split.
    + unfold Cache.size, Cache.cleanup, JsMap.size in *. simpl.
      pose proof (filter_length_le
                    (fun ke : string * Cache.CacheEntry T =>
                       negb (Cache.expiresAt (snd ke) <? now))
                    (Cache.cache c)). lia.
    + intros H. apply Hnamed. eapply keys_filter_incl. exact H.
Qed.

(** X4: a cache with the LFU policy and room for at least one entry
    never holds more than [maxSize] entries, whatever is done with it, as
    long as no entry is set under the empty string. *)
Theorem cache_lfu_never_exceeds_maxSize d limit (ops : list (CacheOp T)) :
  1 <= limit ->
  setsNamedKeys ops ->
  Z.of_nat (Cache.size (cacheRun (Cache.new d (Some limit) (Some Cache.LFU)) ops))
  <= limit.
Proof.
  intros Hlimit Hops.
  assert (lfuWithin limit
            (cacheRun (Cache.new d (Some limit) (Some Cache.LFU)) ops))
    as (_ & _ & H & _); [|exact H].
  induction ops as [|op r IH] using rev_ind.
  - repeat split; simpl; [lia | intros []].
  - rewrite cacheRun_snoc. unfold setsNamedKeys in Hops.
    apply Forall_app in Hops. destruct Hops as [Hr Hop].
    inversion Hop as [|? ? Hkey _]; subst.
    apply cacheStep_lfu; [assumption | assumption | now apply IH].
Qed.

(** What is done with the cache after a call of the wrapper: the
    wrapper is asked again for the same key, maybe with another function
    and expiry, or the cache is read with [get] or [has]. *)
Inductive Reuse : Type :=
| AskAgain (fn : string -> Result T) (expireMs : option Z) (now later : Z)
| ReadGet (now : Z) (k : string)
| ReadHas (now : Z) (k : string).

(** The cache and the answers of the wrapper so far, after one more
    use. *)
Definition reuseStep (isUndefined : T -> bool) (key : string)
    (st : Cache.MemoryCache T * list (Result T)) (r : Reuse)
  : Cache.MemoryCache T * list (Result T) :=
  match r with
  | AskAgain fn expireMs now later =>
      let asked :=
        Cache.createCacheWrapper isUndefined fn expireMs now later
          (fst st) key in
      (fst asked, (snd st ++ [snd asked])%list)
  | ReadGet now k => (fst (Cache.get now (fst st) k), snd st)
  | ReadHas now k => (fst (Cache.has now (fst st) k), snd st)
  end.

(** The use reads the entry of [key] no later than [expiry]. *)
Definition inTime (key : string) (expiry : Z) (r : Reuse) : Prop :=
  match r with
  | AskAgain _ _ now _ => now <= expiry
  | ReadGet now k => k = key -> now <= expiry
  | ReadHas now k => k = key -> now <= expiry
  end.

(** The cache holds [v] for [key] until [expiry]. *)
Definition holds c (key : string) (v : T) (expiry : Z) : Prop :=
  exists entry,
    JsMap.get (Cache.cache c) key = Some entry
    /\ Cache.value entry = v
    /\ Cache.expiresAt entry = expiry.

Lemma get_holds c key v expiry now k :
  holds c key v expiry ->
  (k = key -> now <= expiry) ->
  holds (fst (Cache.get now c k)) key v expiry
  /\ (k = key -> snd (Cache.get now c k) = Some v).
Proof.
  intros (entry & Hget & Hv & He) Ht. unfold Cache.get, holds.
  destruct (string_dec k key) as [->|Hne].
  - rewrite Hget.
    assert ((Cache.expiresAt entry <? now) = false) as ->
      by (specialize (Ht eq_refl); lia).
    cbn [fst snd Cache.cache]. rewrite get_set_same.
    split; [|now rewrite Hv].
    exists (Cache.hit entry). now repeat split.
  - split; [|congruence].
    destruct (JsMap.get (Cache.cache c) k) as [other|];
      [destruct (Cache.expiresAt other <? now)|];
      cbn [fst Cache.cache Cache.miss];
      rewrite ?get_set_other, ?get_delete_other by congruence;
      now exists entry.
Qed.

Lemma has_holds c key v expiry now k :
  holds c key v expiry ->
  (k = key -> now <= expiry) ->
  holds (fst (Cache.has now c k)) key v expiry.
Proof.
  intros (entry & Hget & Hv & He) Ht. unfold Cache.has, holds.
  destruct (string_dec k key) as [->|Hne].
  - rewrite Hget.
    assert ((Cache.expiresAt entry <? now) = false) as ->
      by (specialize (Ht eq_refl); lia).
    now exists entry.
  - destruct (JsMap.get (Cache.cache c) k) as [other|];
      [destruct (Cache.expiresAt other <? now)|];
      cbn [fst Cache.cache Cache.withCache];
      rewrite ?get_delete_other by congruence;
      now exists entry.
Qed.

Lemma reuse_holds isUndefined key v expiry uses :
  isUndefined v = false ->
  Forall (inTime key expiry) uses ->
  forall st,
    holds (fst st) key v expiry ->
    Forall (fun answer => answer = Ok v) (snd st) ->
    Forall (fun answer => answer = Ok v)
      (snd (fold_left (reuseStep isUndefined key) uses st)).
Proof.
  intros Hdef Huses. induction Huses as [|r rs Hr _ IH];
    intros st Hholds Hanswers; [exact Hanswers|].
  cbn [fold_left]. apply IH.
  - destruct r as [fn expireMs now later|now k|now k]; cbn [reuseStep fst].
    + destruct (get_holds (fst st) key v expiry now key Hholds (fun _ => Hr))
        as [Hkept Hhit].
      unfold Cache.createCacheWrapper.
      destruct (Cache.get now (fst st) key) as [c1 cached].
      cbn [fst snd] in *. rewrite (Hhit eq_refl).
      cbn [Cache.defined]. rewrite Hdef. exact Hkept.
    + now apply get_holds.
    + now apply has_holds.
  - destruct r as [fn expireMs now later|now k|now k]; cbn [reuseStep snd];
      try assumption.
    apply Forall_app. split; [assumption|]. constructor; [|constructor].
    destruct (get_holds (fst st) key v expiry now key Hholds (fun _ => Hr))
      as [_ Hhit].
    unfold Cache.createCacheWrapper.
    destruct (Cache.get now (fst st) key) as [c1 cached].
    cbn [fst snd] in *. rewrite (Hhit eq_refl).
    cbn [Cache.defined]. now rewrite Hdef.
Qed.

(** X5: a call of the wrapper of [createCacheWrapper] for a key the cache
    answers [undefined] for asks the function: when the function is
    fulfilled with [v], so is the call, and [v] is stored.  When [v] is
    not [undefined], the wrapper answers [v] every time it is asked
    again for the key up to the expiry, whatever its function would
    answer then, as long as in between the cache is only read ([get] and
    [has], for this key not after the expiry) or asked through the
    wrapper for this key; when [v] is [undefined], the next call asks
    its function again.  A call the function rejects is rejected. *)
Theorem cacheWrapper_remembers isUndefined c fn expireMs now later key
    (v : T) :
  let expiry :=
    later + match expireMs with Some e => e | None => 3600000 end in
  let called :=
    Cache.createCacheWrapper isUndefined fn expireMs now later c key in
  Cache.defined isUndefined (snd (Cache.get now c key)) = None ->
  (fn key = Ok v ->
   snd called = Ok v
   /\ holds (fst called) key v expiry
   /\ (isUndefined v = false ->
       forall uses,
         Forall (inTime key expiry) uses ->
         Forall (fun answer => answer = Ok v)
           (snd (fold_left (reuseStep isUndefined key) uses
                   (fst called, []))))
   /\ (isUndefined v = true ->
       forall fn' expireMs' now' later',
         snd (Cache.createCacheWrapper isUndefined fn' expireMs' now' later'
                (fst called) key)
         = fn' key))
  /\ (forall e, fn key = Throw e -> snd called = Throw e).
Proof.
  intros expiry called Hmiss. split.
  - intros Hfn.
    assert (called
            = (Cache.set later (fst (Cache.get now c key)) key v
                 (Some (match expireMs with
                        | Some e => e
                        | None => 3600000
                        end)),
               Ok v)) as E.
    { unfold called, Cache.createCacheWrapper.
      destruct (Cache.get now c key) as [c1 cached]. cbn [snd] in Hmiss.
      now rewrite Hmiss, Hfn. }
    assert (holds (fst called) key v expiry) as Hholds.
    { rewrite E. cbn [fst].
      destruct (set_entry later (fst (Cache.get now c key)) key v
                  (Some (match expireMs with
                         | Some e => e
                         | None => 3600000
                         end))) as (c0 & -> & _).
      eexists. cbn [Cache.cache Cache.withCache]. rewrite get_set_same.
      now repeat split. }
    split; [now rewrite E|]. split; [exact Hholds|]. split.
    + intros Hdef uses Huses.
      now apply reuse_holds with (expiry := expiry).
    + intros Hundef fn' expireMs' now' later'.
      destruct Hholds as (entry & Hget & Hv & _).
      unfold Cache.createCacheWrapper, Cache.get. rewrite Hget.
      destruct (Cache.expiresAt entry <? now');
        cbn [Cache.defined]; rewrite ?Hv, ?Hundef;
        now destruct (fn' key).
  - intros e Hfn. unfold called, Cache.createCacheWrapper.
    destruct (Cache.get now c key) as [c1 cached]. cbn [snd] in Hmiss.
    now rewrite Hmiss, Hfn.
Qed.

End CacheRuns.

(** *** Instances *)



(** Four insertions and a lookup on an LFU cache with room for two. *)
Lemma cache_lfu_witness :
  Z.of_nat
    (Cache.size
       (cacheRun (Cache.new None (Some 2) (Some Cache.LFU))
          [OpSet 0 "a" 1%nat None; OpSet 1 "b" 2%nat None; OpGet 2 "a";
           OpSet 3 "c" 3%nat None; OpSet 4 "d" 4%nat None]))
  <= 2.
Proof.
  apply cache_lfu_never_exceeds_maxSize; [lia|].
  repeat constructor; discriminate.
Defined.

(** The length of the key is computed once: asked again at 100 and at
    the expiry, with a lookup in between, the wrapper answers it though
    its function would fail. *)
Lemma cacheWrapper_witness :
  snd (Cache.createCacheWrapper (fun _ => false)
         (fun k => Ok (String.length k)) None 0 5
         (Cache.new None None None) "abc") = Ok 3%nat
  /\ Forall (fun answer => answer = Ok 3%nat)
       (snd (fold_left (reuseStep (fun _ => false) "abc")
               [AskAgain (fun _ => Throw (Error "down")) None 100 100;
                ReadGet 200 "abc";
                AskAgain (fun _ => Throw (Error "down")) None 3600005
                  3600005]
               (fst (Cache.createCacheWrapper (fun _ => false)
                       (fun k => Ok (String.length k)) None 0 5
                       (Cache.new None None None) "abc"), []))).
Proof.
  destruct (cacheWrapper_remembers (fun _ => false) (Cache.new None None None)
              (fun k => Ok (String.length k)) None 0 5 "abc" 3%nat eq_refl)
    as [H _].
  destruct (H eq_refl) as (H1 & _ & H2 & _). split; [exact H1|].
  apply (H2 eq_refl).
  apply Forall_cons; [simpl; lia|].
  apply Forall_cons; [simpl; intros _; lia|].
  apply Forall_cons; [simpl; lia | apply Forall_nil].
Defined.

(** ** The memory log handler *)

(** The last [n] elements of a list. *)
Definition lastN {A : Type} (n : nat) (l : list A) : list A :=
  skipn (length l - n) l.

Lemma skipn_succ_tl {A : Type} n (l : list A) :
  skipn (S n) l = tl (skipn n l).
Proof.
  revert l. induction n as [|n IH]; intros [|x r]; simpl; try reflexivity.
  apply IH.
Qed.

Lemma lastN_snoc {A : Type} (k : nat) (l : list A) x :
  lastN k (l ++ [x])
  = if (k <? length (lastN k l ++ [x]))%nat
    then tl (lastN k l ++ [x])
    else (lastN k l ++ [x])%list.
Proof.
  unfold lastN. rewrite !length_app, length_skipn. simpl.
  destruct (Nat.ltb_spec k (length l - (length l - k) + 1)) as [H|H].
  - assert (k <= length l)%nat as Hk by lia.
    replace (length l + 1 - k)%nat with (S (length l - k)) by lia.
    rewrite skipn_succ_tl. f_equal.
    rewrite skipn_app.
    replace (length l - k - length l)%nat with O by lia. reflexivity.
  - assert (length l < k)%nat as Hk by lia.
    replace (length l + 1 - k)%nat with O by lia.
    replace (length l - k)%nat with O by lia. reflexivity.
Qed.

Lemma handle_logs m x :
  Logger.logs (Logger.handle m x)
  = if Logger.maxLogs m <? Z.of_nat (length (Logger.logs m ++ [x]))
    then tl (Logger.logs m ++ [x])
    else (Logger.logs m ++ [x])%list.
Proof. reflexivity. Qed.

(** X6: a [MemoryLogHandler] holds the latest [maxLogs] messages it was
    given, oldest first, and nothing when [maxLogs] is not positive. *)
Theorem memoryLog_keeps_latest maxLogs msgs :
  let limit := match maxLogs with Some n => n | None => 1000 end in
  let m := fold_left Logger.handle msgs (Logger.new maxLogs) in
  Logger.getLogs m None = lastN (Z.to_nat limit) msgs
  /\ Z.of_nat (length (Logger.logs m)) <= Z.max 0 limit
  /\ Logger.maxLogs m = limit.
Proof.
  intros limit m.
  assert (Logger.logs m = lastN (Z.to_nat limit) msgs
          /\ Logger.maxLogs m = limit) as [Hlogs Hmax].
  { subst m.
    change (Logger.new maxLogs)
      with {| Logger.logs := []; Logger.maxLogs := limit |}.
    clearbody limit.
    induction msgs as [|x r IH] using rev_ind.
    - split; reflexivity.
    - rewrite fold_left_app. cbn [fold_left]. destruct IH as [IH1 IH2].
      split; [|exact IH2]. rewrite handle_logs, IH1, IH2.
      rewrite lastN_snoc.
      set (pushed := (lastN (Z.to_nat limit) r ++ [x])%list).
      assert (0 < length pushed)%nat
        by (unfold pushed; rewrite length_app; simpl; lia).
      destruct (Nat.ltb_spec (Z.to_nat limit) (length pushed));
        destruct (Z.ltb_spec limit (Z.of_nat (length pushed)));
        try reflexivity; exfalso; lia. }
  split; [exact Hlogs|]. split; [|exact Hmax].
  rewrite Hlogs. unfold lastN. rewrite length_skipn. lia.
Qed.

(** ** Strings *)

Lemma append_assoc (a b c : string) : (a ++ b) ++ c = a ++ b ++ c.
Proof. induction a as [|x a IH]; simpl; [reflexivity | now rewrite IH]. Qed.

Lemma append_empty_r (a : string) : a ++ "" = a.
Proof. induction a as [|x a IH]; simpl; [reflexivity | now rewrite IH]. Qed.

Lemma length_append (a b : string) :
  String.length (a ++ b) = (String.length a + String.length b)%nat.
Proof. induction a as [|x a IH]; simpl; [reflexivity | now rewrite IH]. Qed.

Lemma length_take n s : (String.length (take n s) <= n)%nat.
Proof.
  revert s. induction n as [|n IH]; intros [|c r]; simpl; try lia.
  specialize (IH r). lia.
Qed.

Lemma length_trimStart s : (String.length (trimStart s) <= String.length s)%nat.
Proof.
  induction s as [|c r IH]; simpl; [lia|]. destruct (isWs c); simpl; lia.
Qed.

Lemma length_trimEnd s : (String.length (trimEnd s) <= String.length s)%nat.
Proof.
  induction s as [|c r IH]; simpl; [lia|].
  destruct (isWs c && isEmpty (trimEnd r)); simpl; lia.
Qed.

Lemma length_trim s : (String.length (trim s) <= String.length s)%nat.
Proof.
  unfold trim. pose proof (length_trimEnd (trimStart s)).
  pose proof (length_trimStart s). lia.
Qed.

Lemma rev_append (a b : string) : rev (a ++ b) = rev b ++ rev a.
Proof.
  induction a as [|x a IH]; simpl.
  - now rewrite append_empty_r.
  - now rewrite IH, append_assoc.
Qed.

(** [forallb] on strings. *)
Lemma forallb_append p a b :
  forallb p (a ++ b) = forallb p a && forallb p b.
Proof.
  induction a as [|x a IH]; simpl; [reflexivity|].
  now rewrite IH, andb_assoc.
Qed.

Lemma forallb_impl (p q : ascii -> bool) s :
  (forall c, p c = true -> q c = true) ->
  forallb p s = true -> forallb q s = true.
Proof.
  intros H. induction s as [|c r IH]; simpl; [reflexivity|].
  intros E. apply andb_true_iff in E. destruct E as [E1 E2].
  now rewrite (H c E1), IH.
Qed.

Lemma forallb_trimStart p s : forallb p s = true -> forallb p (trimStart s) = true.
Proof.
  induction s as [|c r IH]; simpl; [reflexivity|].
  intros E. apply andb_true_iff in E. destruct E as [E1 E2].
  destruct (isWs c); [auto|]. simpl. now rewrite E1, E2.
Qed.

Lemma forallb_trimEnd p s : forallb p s = true -> forallb p (trimEnd s) = true.
Proof.
  induction s as [|c r IH]; simpl; [reflexivity|].
  intros E. apply andb_true_iff in E. destruct E as [E1 E2].
  destruct (isWs c && isEmpty (trimEnd r)); [reflexivity|].
  simpl. now rewrite E1, IH.
Qed.

Lemma forallb_trim p s : forallb p s = true -> forallb p (trim s) = true.
Proof. intros H. unfold trim. now apply forallb_trimEnd, forallb_trimStart. Qed.

(** A string without white space is its own [trim]. *)
Lemma trim_no_space s :
  forallb (fun c => negb (isWs c)) s = true -> trim s = s.
Proof.
  intros H. unfold trim.
  assert (trimStart s = s) as ->.
  { destruct s as [|c r]; [reflexivity|]. simpl in *.
    apply andb_true_iff in H. destruct H as [H _].
    apply negb_true_iff in H. now rewrite H. }
  induction s as [|c r IH]; simpl in *; [reflexivity|].
  apply andb_true_iff in H. destruct H as [H1 H2].
  apply negb_true_iff in H1. rewrite H1. simpl. now rewrite IH.
Qed.

(** ** slugify *)

(** The characters of a slug: lower case letters, digits, the underscore
    and the hyphen. *)
Definition isSlugChar (c : ascii) : bool :=
  isLowerAZ c || isDigit c || (code c =? 95)%N || Utils.isHyphen c.

Fixpoint noDoubleHyphen (s : string) : bool :=
  match s with
  | "" => true
  | String a r =>
      match r with
      | "" => true
      | String b _ => negb (Utils.isHyphen a && Utils.isHyphen b)
      end && noDoubleHyphen r
  end.

Definition startsWithHyphen (s : string) : bool :=
  match s with
  | String c _ => Utils.isHyphen c
  | "" => false
  end.

Ltac each_char c :=
  destruct c as [[] [] [] [] [] [] [] []]; try reflexivity; try discriminate.

Lemma toLowerChar_not_upper c : isUpperAZ (toLowerChar c) = false.
Proof. each_char c. Qed.

Lemma slugSource_slugChar c :
  Utils.isSlugSource c = true -> isUpperAZ c = false -> isWs c = false ->
  isSlugChar c = true.
Proof. each_char c. Qed.

Lemma slugChar_facts c :
  isSlugChar c = true ->
  toLowerChar c = c /\ isWs c = false /\ Utils.isSlugSource c = true.
Proof. each_char c; intros _; repeat split. Qed.

Lemma isHyphen_eq c : Utils.isHyphen c = true -> c = "-"%char.
Proof. each_char c. Qed.

Lemma toLowerCase_not_upper s :
  forallb (fun c => negb (isUpperAZ c)) (toLowerCase s) = true.
Proof.
  induction s as [|c r IH]; simpl; [reflexivity|].
  now rewrite toLowerChar_not_upper, IH.
Qed.

Lemma filterChars_forallb p q s :
  forallb p s = true -> forallb p (Utils.filterChars q s) = true.
Proof.
  induction s as [|c r IH]; simpl; [reflexivity|].
  intros E. apply andb_true_iff in E. destruct E as [E1 E2].
  destruct (q c); simpl; [rewrite E1|]; auto.
Qed.

Lemma filterChars_kept q s : forallb q (Utils.filterChars q s) = true.
Proof.
  induction s as [|c r IH]; simpl; [reflexivity|].
  destruct (q c) eqn:E; simpl; [rewrite E|]; auto.
Qed.

Lemma filterChars_all q s : forallb q s = true -> Utils.filterChars q s = s.
Proof.
  induction s as [|c r IH]; simpl; [reflexivity|].
  intros E. apply andb_true_iff in E. destruct E as [E1 E2].
  now rewrite E1, IH.
Qed.

Lemma forallb_and p q s :
  forallb p s = true -> forallb q s = true ->
  forallb (fun c => p c && q c) s = true.
Proof.
  induction s as [|c r IH]; simpl; [reflexivity|].
  intros E F. apply andb_true_iff in E, F. destruct E as [E1 E2], F as [F1 F2].
  now rewrite E1, F1, IH.
Qed.

(** Replacing the runs of white space of a text whose other characters
    are slug characters leaves slug characters only. *)
Lemma squeeze_space_slug s :
  forallb (fun c => isWs c || isSlugChar c) s = true ->
  forall inRun, forallb isSlugChar (Utils.squeezeFrom isWs inRun s) = true.
Proof.
  induction s as [|c r IH]; simpl; [reflexivity|].
  intros E inRun. apply andb_true_iff in E. destruct E as [E1 E2].
  destruct (isWs c) eqn:Ew.
  - destruct inRun; simpl; auto.
  - simpl in E1. simpl. now rewrite E1, IH.
Qed.

Lemma squeeze_hyphen_slug s :
  forallb isSlugChar s = true ->
  forall inRun,
    forallb isSlugChar (Utils.squeezeFrom Utils.isHyphen inRun s) = true.
Proof.
  induction s as [|c r IH]; simpl; [reflexivity|].
  intros E inRun. apply andb_true_iff in E. destruct E as [E1 E2].
  destruct (Utils.isHyphen c).
  - destruct inRun; simpl; auto.
  - simpl. now rewrite E1, IH.
Qed.

Lemma squeeze_hyphen_single s :
  forall inRun,
    noDoubleHyphen (Utils.squeezeFrom Utils.isHyphen inRun s) = true
    /\ (inRun = true ->
        startsWithHyphen (Utils.squeezeFrom Utils.isHyphen inRun s) = false).
Proof.
  induction s as [|c r IH]; intros inRun; simpl; [now split|].
  destruct (Utils.isHyphen c) eqn:Eh.
  - destruct inRun.
    + apply IH.
    + destruct (IH true) as [H1 H2]. specialize (H2 eq_refl).
      split; [|discriminate]. simpl.
      destruct (Utils.squeezeFrom Utils.isHyphen true r) as [|b t] eqn:Er;
        [reflexivity|].
      simpl in H2. rewrite H2. simpl in *. exact H1.
  - destruct (IH false) as [H1 _]. split; [|intros _; simpl; exact Eh].
    simpl. rewrite Eh. simpl.
    now destruct (Utils.squeezeFrom Utils.isHyphen false r).
Qed.

Lemma squeeze_none p s :
  forallb (fun c => negb (p c)) s = true -> Utils.squeezeFrom p false s = s.
Proof.
  induction s as [|c r IH]; simpl; [reflexivity|].
  intros E. apply andb_true_iff in E. destruct E as [E1 E2].
  apply negb_true_iff in E1. now rewrite E1, IH.
Qed.

Lemma squeeze_hyphen_fixed s :
  noDoubleHyphen s = true ->
  Utils.squeezeFrom Utils.isHyphen false s = s
  /\ (startsWithHyphen s = false ->
      Utils.squeezeFrom Utils.isHyphen true s = s).
Proof.
  induction s as [|c r IH]; simpl; [now split|].
  intros E. apply andb_true_iff in E. destruct E as [E1 E2].
  destruct (IH E2) as [IH1 IH2].
  destruct (Utils.isHyphen c) eqn:Eh.
  - split; [|discriminate].
    rewrite (isHyphen_eq c Eh). f_equal. apply IH2.
    destruct r as [|b t]; [reflexivity|]. simpl in *.
    now destruct (Utils.isHyphen b).
  - split; [|intros _]; now rewrite IH1.
Qed.

Lemma toLowerCase_fixed s :
  forallb isSlugChar s = true -> toLowerCase s = s.
Proof.
  induction s as [|c r IH]; simpl; [reflexivity|].
  intros E. apply andb_true_iff in E. destruct E as [E1 E2].
  destruct (slugChar_facts c E1) as [-> _]. now rewrite IH.
Qed.

Lemma slugify_slug text :
  forallb isSlugChar (Utils.slugify text) = true
  /\ noDoubleHyphen (Utils.slugify text) = true.
Proof.
  unfold Utils.slugify, Utils.squeeze. split;
    [|apply squeeze_hyphen_single].
  apply squeeze_hyphen_slug, squeeze_space_slug.
  set (t := trim (toLowerCase text)).
  assert (forallb (fun c => negb (isUpperAZ c)) t = true) as Hlow
      by apply forallb_trim, toLowerCase_not_upper.
  pose proof (filterChars_forallb _ Utils.isSlugSource t Hlow) as H1.
  pose proof (filterChars_kept Utils.isSlugSource t) as H2.
  pose proof (forallb_and _ _ _ H1 H2) as H.
  eapply forallb_impl; [|exact H]. simpl. intros c Hc.
  apply andb_true_iff in Hc. destruct Hc as [Hu Hs].
  apply negb_true_iff in Hu.
  destruct (isWs c) eqn:Ew; [reflexivity|]. simpl.
  now apply slugSource_slugChar.
Qed.

(** X7: a slug holds lower case letters, digits, underscores and single
    hyphens only, and the slug of a slug is the slug itself. *)
Theorem slugify_canonical text :
  forallb isSlugChar (Utils.slugify text) = true
  /\ noDoubleHyphen (Utils.slugify text) = true
  /\ Utils.slugify (Utils.slugify text) = Utils.slugify text.
Proof.
  destruct (slugify_slug text) as [Hchars Hsingle].
  split; [assumption|]. split; [assumption|].
  set (s := Utils.slugify text) in *. clearbody s.
  assert (forallb (fun c => negb (isWs c)) s = true) as Hns.
  { eapply forallb_impl; [|exact Hchars]. intros c Hc.
    destruct (slugChar_facts c Hc) as (_ & -> & _). reflexivity. }
  assert (forallb Utils.isSlugSource s = true) as Hsrc.
  { eapply forallb_impl; [|exact Hchars]. intros c Hc.
    now destruct (slugChar_facts c Hc) as (_ & _ & ->). }
  unfold Utils.slugify, Utils.squeeze.
  rewrite (toLowerCase_fixed s Hchars), (trim_no_space s Hns),
    (filterChars_all _ s Hsrc), (squeeze_none isWs s Hns).
  now apply squeeze_hyphen_fixed.
Qed.

Example slugify_title :
  Utils.slugify "  Hello,  World -- 2nd_Edition! " = "hello-world-2nd_edition".
Proof. vm_compute. reflexivity. Qed.

(** ** groupByDate *)

(** The article has a valid date, in the year printed as [k]. *)
Definition inYear (h : Host) (k : string) (a : Article) : bool :=
  match Utils.yearKey h a with
  | Some y => String.eqb y k
  | None => false
  end.

Lemma groupByDate_from h articles k :
  forall groups,
    JsMap.get
      (fold_left
         (fun groups a =>
            match Utils.yearKey h a with
            | None => groups
            | Some y =>
                JsMap.set groups y
                  ((match JsMap.get groups y with
                    | Some l => l
                    | None => []
                    end) ++ [a])%list
            end)
         articles groups) k
    = match JsMap.get groups k, List.filter (inYear h k) articles with
      | None, [] => None
      | None, g => Some g
      | Some g0, g => Some (g0 ++ g)%list
      end.
Proof.
  induction articles as [|a r IH]; intros groups.
  - simpl. destruct (JsMap.get groups k); [now rewrite app_nil_r | reflexivity].
  - cbn [fold_left List.filter]. rewrite IH.
    destruct (Utils.yearKey h a) as [y|] eqn:Ey.
    + assert (inYear h k a = String.eqb y k) as ->
          by (unfold inYear; now rewrite Ey).
      rewrite get_set. destruct (String.eqb y k) eqn:E.
      * apply String.eqb_eq in E. subst y.
        destruct (JsMap.get groups k) as [g0|]; simpl.
        -- now rewrite <- app_assoc.
        -- reflexivity.
      * reflexivity.
    + assert (inYear h k a = false) as ->
          by (unfold inYear; now rewrite Ey).
      reflexivity.
Qed.

(** X8: [groupByDate] puts every article that has a valid date into the
    group of its year, in the order of the list, and an article whose
    date is invalid into none; a year without articles has no group. *)
Theorem groupByDate_groups h articles k :
  JsMap.get (Utils.groupByDate h articles) k
  = match List.filter (inYear h k) articles with
    | [] => None
    | g => Some g
    end.
Proof.
  unfold Utils.groupByDate. rewrite groupByDate_from. simpl.
  now destruct (List.filter (inYear h k) articles).
Qed.

(** ** Counting tags and categories *)

Definition tally (n : nat) : option Z :=
  match n with
  | O => None
  | S _ => Some (Z.of_nat n)
  end.

Lemma get_countKey m x k :
  JsMap.get (Utils.countKey m x) k
  = if String.eqb x k
    then Some (match JsMap.get m x with Some n => n + 1 | None => 1 end)
    else JsMap.get m k.
Proof. unfold Utils.countKey. apply get_set. Qed.

Lemma countKey_fold keys k :
  forall m,
    JsMap.get (fold_left Utils.countKey keys m) k
    = match count_occ string_dec keys k with
      | O => JsMap.get m k
      | S _ =>
          Some (match JsMap.get m k with Some x => x | None => 0 end
                + Z.of_nat (count_occ string_dec keys k))
      end.
Proof.
  induction keys as [|x r IH]; intros m; [reflexivity|].
  cbn [fold_left]. rewrite IH, !get_countKey.
  cbn [count_occ]. destruct (string_dec x k) as [->|Hne].
  - rewrite String.eqb_refl.
    destruct (count_occ string_dec r k) as [|c];
      destruct (JsMap.get m k) as [n|]; f_equal; lia.
  - apply String.eqb_neq in Hne. rewrite Hne.
    reflexivity.
Qed.

Lemma countKey_articles (f : Article -> list string) articles :
  forall m,
    fold_left (fun m a => fold_left Utils.countKey (f a) m) articles m
    = fold_left Utils.countKey (flat_map f articles) m.
Proof.
  induction articles as [|a r IH]; intros m; simpl; [reflexivity|].
  now rewrite IH, fold_left_app.
Qed.

Lemma countKey_tally keys k :
  JsMap.get (fold_left Utils.countKey keys []) k
  = tally (count_occ string_dec keys k).
Proof.
  rewrite countKey_fold. simpl.
  destruct (count_occ string_dec keys k); [reflexivity|].
  unfold tally. f_equal.
Qed.

Lemma countKey_keys keys :
  forall m,
    NoDup (JsMap.keys m) ->
    NoDup (JsMap.keys (fold_left Utils.countKey keys m))
    /\ forall k,
         In k (JsMap.keys (fold_left Utils.countKey keys m))
         <-> In k keys \/ In k (JsMap.keys m).
Proof.
  induction keys as [|x r IH]; intros m Hnd; simpl; [split; [assumption|tauto]|].
  destruct (IH (Utils.countKey m x)) as [H1 H2].
  { unfold Utils.countKey. now apply NoDup_keys_set. }
  split; [assumption|]. intros k. rewrite H2. unfold Utils.countKey.
  rewrite In_keys_set. intuition congruence.
Qed.

Lemma countKey_size keys :
  JsMap.size (fold_left Utils.countKey keys [])
  = length (nodup string_dec keys).
Proof.
  destruct (countKey_keys keys []) as [Hnd Hin]; [constructor|].
  unfold JsMap.size. rewrite <- (length_map fst).
  apply Permutation_length, NoDup_Permutation.
  - exact Hnd.
  - apply NoDup_nodup.
  - intros k. fold (JsMap.keys (fold_left Utils.countKey keys [])).
    rewrite Hin, nodup_In. simpl. tauto.
Qed.

(** The tags of the articles that [extractTags] counts: the ones that
    are not blank. *)
Definition countedTags (articles : list Article) : list string :=
  flat_map (fun a => List.filter Utils.notBlank (tags a)) articles.

Definition countedCategories (articles : list Article) : list string :=
  flat_map (fun a => List.filter Utils.notBlank (categories a)) articles.

(** X9: [extractTags] and [extractCategories] answer, for every tag or
    category that is not blank, the number of times the articles carry
    it, and no entry for one that no article carries; [calculateStats]
    counts the entries. *)
Theorem extractTags_counts articles :
  (forall t,
      JsMap.get (Utils.extractTags articles) t
      = tally (count_occ string_dec (countedTags articles) t))
  /\ (forall c,
         JsMap.get (Utils.extractCategories articles) c
         = tally (count_occ string_dec (countedCategories articles) c))
  /\ Utils.totalTags (Utils.calculateStats articles)
     = length (nodup string_dec (countedTags articles))
  /\ Utils.totalCategories (Utils.calculateStats articles)
     = length (nodup string_dec (countedCategories articles)).
Proof.
  unfold Utils.calculateStats, Utils.extractTags, Utils.extractCategories,
    countedTags, countedCategories.
  cbn [Utils.totalTags Utils.totalCategories].
  rewrite !countKey_articles. repeat split.
  - intros t. apply countKey_tally.
  - intros c. apply countKey_tally.
  - apply countKey_size.
  - apply countKey_size.
Qed.

(** X10: the tag and category statistics of the store count, for every
    tag and category, the articles [getArticles] answers that carry it
    (once for each time an article lists it); in a store that leaves
    drafts out the tags of drafts are not counted. *)
Theorem tagStats_count_visible s :
  ArticleManager.disposed s = false ->
  (exists stats,
      ArticleManager.getTagStats s = Ok stats
      /\ forall t,
           JsMap.get stats t
           = tally (count_occ string_dec
                      (flat_map tags (ArticleManager.visible s)) t))
  /\ (exists stats,
         ArticleManager.getCategoryStats s = Ok stats
         /\ forall c,
              JsMap.get stats c
              = tally (count_occ string_dec
                         (flat_map categories (ArticleManager.visible s)) c)).
Proof.
  intros Hd.
  unfold ArticleManager.getTagStats, ArticleManager.getCategoryStats,
    ArticleManager.getArticles, ArticleManager.checkDisposed.
  rewrite Hd. simpl. split; eexists; (split; [reflexivity|]); intros k;
    change ArticleManager.countInto with Utils.countKey;
    rewrite countKey_articles; apply countKey_tally.
Qed.

(** A store of two articles on Rust and a draft. *)
Definition taggedArticle (id' : string) (tags' categories' : list string)
    (author' : option string) (draft' : bool) : Article :=
  {| id := id'; title := id'; description := ""; content := "text";
     date := Some 0; updated := None; author := author'; tags := tags';
     categories := categories'; image := None; draft := draft';
     readingTime := 1; meta := None; keywords := None; raw := None |}.

Definition taggedStore : ArticleManager.State :=
  {| ArticleManager.articles :=
       [("t1", taggedArticle "t1" ["rust"; "wasm"] ["code"] (Some "ann") false);
        ("t2", taggedArticle "t2" ["rust"] [] (Some "ann") false);
        ("t3", taggedArticle "t3" ["go"] [] None false);
        ("t4", taggedArticle "t4" ["rust"; "secret"] ["code"] None true)];
     ArticleManager.config := defaultStore;
     ArticleManager.disposed := false |}.

(** The tag [rust] is counted for the two articles that are no
    drafts, the tag of the draft is not counted. *)
Lemma tagStats_witness :
  exists stats,
    ArticleManager.getTagStats taggedStore = Ok stats
    /\ JsMap.get stats "rust" = Some 2
    /\ JsMap.get stats "secret" = None.
Proof.
  destruct (tagStats_count_visible taggedStore eq_refl) as [(stats & E & H) _].
  exists stats. split; [exact E|]. rewrite !H. split; reflexivity.
Defined.

(** ** extractSummary *)

Lemma prefix_append p s : String.prefix p (p ++ s) = true.
Proof.
  induction p as [|c r IH]; simpl; [now destruct s|].
  destruct (ascii_dec c c); [assumption | congruence].
Qed.

Lemma endsWith_append s p : endsWith (s ++ p) p = true.
Proof. unfold endsWith. rewrite rev_append. apply prefix_append. Qed.

Lemma endsWith_dots s : endsWith (s ++ "...") "." = true.
Proof.
  replace (s ++ "...") with ((s ++ "..") ++ ".")
    by (rewrite append_assoc; reflexivity).
  apply endsWith_append.
Qed.

(** X11: a summary is at most 153 characters long, the 150 of the text
    and the ellipsis, and always ends with a full stop, an exclamation
    mark or a question mark. *)
Theorem extractSummary_bounded content :
  (String.length (Utils.extractSummary content) <= 153)%nat
  /\ (endsWith (Utils.extractSummary content) "."
      || endsWith (Utils.extractSummary content) "!"
      || endsWith (Utils.extractSummary content) "?") = true.
Proof.
  unfold Utils.extractSummary. cbv zeta.
  set (text := trim (Utils.replaceAll Utils.matchFence _)).
  pose proof (length_trim (take 150 text)) as H1.
  pose proof (length_take 150 text) as H2.
  destruct (endsWith (trim (take 150 text)) "."
            || endsWith (trim (take 150 text)) "!"
            || endsWith (trim (take 150 text)) "?") eqn:E.
  - split; [lia | exact E].
  - split.
    + rewrite length_append. change (String.length "...") with 3%nat. lia.
    + now rewrite endsWith_dots.
Qed.

Example extractSummary_empty : Utils.extractSummary "" = "...".
Proof. reflexivity. Qed.

Example extractSummary_markdown :
  Utils.extractSummary
    ("# Title" ++ NL ++ "Some **bold** text and a [link](http://x.y)!")
  = "Title" ++ NL ++ "Some bold text and a link!".
Proof. vm_compute. reflexivity. Qed.

(** ** sortArticles *)

Lemma insertBy_ext {A : Type} (cmp cmp' : A -> A -> Z) x l :
  (forall y, In y l -> cmp x y = cmp' x y) ->
  Utils.insertBy cmp x l = Utils.insertBy cmp' x l.
Proof.
  induction l as [|y r IH]; intros H; simpl; [reflexivity|].
  rewrite (H y) by (now left). destruct (cmp' x y <=? 0); [reflexivity|].
  f_equal. apply IH. intros z Hz. apply H. now right.
Qed.

Lemma sortBy_ext {A : Type} (cmp cmp' : A -> A -> Z) l :
  (forall x y, In x l -> In y l -> cmp x y = cmp' x y) ->
  Utils.sortBy cmp l = Utils.sortBy cmp' l.
Proof.
  induction l as [|x r IH]; intros H; simpl; [reflexivity|].
  rewrite IH by (intros; apply H; now right).
  apply insertBy_ext. intros y Hy. apply H; [now left|].
  right. now apply (sortBy_In cmp').
Qed.

Lemma StronglySorted_weaken {A : Type} (R R' : A -> A -> Prop) l :
  (forall a b, R a b -> R' a b) ->
  StronglySorted R l -> StronglySorted R' l.
Proof.
  intros H. induction 1 as [|a l Hs IH Hall]; constructor; [assumption|].
  eapply Forall_impl; [|exact Hall]. apply H.
Qed.

(** The time of an article with a valid date. *)
Definition timeOf (a : Article) : Z :=
  match date a with Some t => t | None => 0 end.

Definition dated (a : Article) : Prop := date a <> None.

(** X12: on articles whose dates are all valid [sortArticles] answers the
    same articles, the newest first, or the oldest first when the order
    is [asc]. *)
Theorem sortArticles_sorted articles asc :
  Forall dated articles ->
  Permutation (Utils.sortArticles articles asc) articles
  /\ StronglySorted
       (fun a b => if asc then timeOf a <= timeOf b else timeOf b <= timeOf a)
       (Utils.sortArticles articles asc).
Proof.
  intros Hdated. unfold Utils.sortArticles. split; [apply sortBy_perm|].
  assert (forall x y, In x articles -> In y articles ->
            Utils.compareDates asc x y
            = byDescending (fun a => if asc then - timeOf a else timeOf a) x y)
    as Hext.
  { intros x y Hx Hy. rewrite Forall_forall in Hdated.
    pose proof (Hdated x Hx) as Dx. pose proof (Hdated y Hy) as Dy.
    unfold Utils.compareDates, byDescending, timeOf, dated in *.
    destruct (date x); [|congruence]. destruct (date y); [|congruence].
    destruct asc; lia. }
  rewrite (sortBy_ext _ _ _ Hext).
  pose proof (sortBy_descending
                (fun a => if asc then - timeOf a else timeOf a) articles) as H.
  unfold descendingBy in H.
  eapply StronglySorted_weaken; [|exact H].
  intros a b Hab. simpl in Hab. destruct asc; lia.
Qed.

(** Three articles of the dates 1000, 3000 and 2000. *)
Lemma sortArticles_witness :
  Permutation (Utils.sortArticles [first; second; third] false)
    [first; second; third]
  /\ Utils.sortArticles [first; second; third] false = [second; third; first]
  /\ Utils.sortArticles [first; second; third] true = [first; third; second].
Proof.
  split; [|split; reflexivity].
  apply (sortArticles_sorted [first; second; third] false).
  repeat constructor; discriminate.
Defined.

(** ** parseFrontmatter *)

(** The line that closes the block, with the line feeds around it. *)
Definition closing : string := NL ++ "---" ++ NL.

(** A line of the block: it holds no line feed and is not the closing
    line. *)
Definition blockLine (l : string) : Prop :=
  forallb (fun c => negb (Ascii.eqb c nl)) l = true /\ l <> "---".

Lemma prefix_cons a s1 b s2 :
  String.prefix (String a s1) (String b s2)
  = if ascii_dec a b then String.prefix s1 s2 else false.
Proof. reflexivity. Qed.

Lemma prefix_closing_char c r :
  Ascii.eqb c nl = false -> String.prefix closing (String c r) = false.
Proof.
  intros H. change closing with (String nl ("---" ++ NL)).
  rewrite prefix_cons.
  destruct (ascii_dec nl c) as [E|]; [|reflexivity].
  subst c. now rewrite Ascii.eqb_refl in H.
Qed.

(** Within a line the closing line is not found. *)
Lemma cut_line l rest :
  forallb (fun c => negb (Ascii.eqb c nl)) l = true ->
  cut closing (l ++ rest)
  = match cut closing rest with
    | Some (before, after) => Some (l ++ before, after)
    | None => None
    end.
Proof.
  induction l as [|c r IH]; intros H.
  - cbn [append]. now destruct (cut closing rest) as [[b a]|].
  - cbn [forallb] in H. apply andb_true_iff in H. destruct H as [Hc Hr].
    apply negb_true_iff in Hc.
    change ((String c r) ++ rest) with (String c (r ++ rest)).
    unfold cut at 1. fold cut. rewrite (prefix_closing_char c _ Hc).
    rewrite (IH Hr). now destruct (cut closing rest) as [[b a]|].
Qed.

Lemma dash_not_nl : "-"%char <> nl.
Proof. intros E. vm_compute in E. discriminate E. Qed.

(** A line of the block followed by a line feed does not read as the
    closing line. *)
Lemma prefix_dashes_line l rest :
  blockLine l -> String.prefix ("---" ++ NL) (l ++ NL ++ rest) = false.
Proof.
  intros [Hnl Hne].
  change ("---" ++ NL) with (String "-" (String "-" (String "-" NL))).
  change (NL ++ rest) with (String nl rest).
  destruct l as [|c1 l]; cbn [append]; rewrite prefix_cons.
  { destruct (ascii_dec "-" nl) as [E|]; [|reflexivity].
    now destruct (dash_not_nl E). }
  destruct (ascii_dec "-" c1) as [<-|]; [|reflexivity].
  destruct l as [|c2 l]; cbn [append]; rewrite prefix_cons.
  { destruct (ascii_dec "-" nl) as [E|]; [|reflexivity].
    now destruct (dash_not_nl E). }
  destruct (ascii_dec "-" c2) as [<-|]; [|reflexivity].
  destruct l as [|c3 l]; cbn [append]; rewrite prefix_cons.
  { destruct (ascii_dec "-" nl) as [E|]; [|reflexivity].
    now destruct (dash_not_nl E). }
  destruct (ascii_dec "-" c3) as [<-|]; [|reflexivity].
  destruct l as [|c4 l]; [congruence|].
  cbn [append]. unfold NL. rewrite prefix_cons.
  destruct (ascii_dec nl c4) as [<-|]; [|reflexivity].
  cbn [forallb] in Hnl. rewrite Ascii.eqb_refl in Hnl.
  rewrite !andb_false_r in Hnl. simpl in Hnl.
  repeat (apply andb_true_iff in Hnl; destruct Hnl as [_ Hnl]).
  discriminate.
Qed.

Lemma cut_closing body : cut closing (closing ++ body) = Some ("", body).
Proof. destruct body; reflexivity. Qed.

(** The block ends at the first closing line. *)
Lemma cut_lines lines body :
  Forall blockLine lines ->
  cut closing (join NL lines ++ closing ++ body) = Some (join NL lines, body).
Proof.
  induction lines as [|l r IH]; intros H.
  - apply cut_closing.
  - inversion H as [|? ? [Hnl Hne] Hr]; subst.
    destruct r as [|l2 r'].
    + change (join NL [l]) with l.
      rewrite (cut_line l _ Hnl), cut_closing. now rewrite append_empty_r.
    + change (join NL (l :: l2 :: r')) with (l ++ NL ++ join NL (l2 :: r')).
      rewrite !append_assoc. rewrite (cut_line l _ Hnl).
      specialize (IH Hr).
      assert (String.prefix closing
                (String nl (join NL (l2 :: r') ++ closing ++ body)) = false)
        as Hp.
      { inversion Hr as [|? ? Hl2 _]; subst.
        change closing with (String nl ("---" ++ NL)).
        rewrite prefix_cons.
        destruct (ascii_dec nl nl) as [_|]; [|congruence].
        destruct r' as [|l3 r''].
        - exact (prefix_dashes_line l2 (("---" ++ NL) ++ body) Hl2).
        - change (join NL (l2 :: l3 :: r''))
            with (l2 ++ NL ++ join NL (l3 :: r'')).
          rewrite !append_assoc. apply (prefix_dashes_line l2 _ Hl2). }
      change (NL ++ join NL (l2 :: r') ++ closing ++ body)
        with (String nl (join NL (l2 :: r') ++ closing ++ body)).
      unfold cut at 1. fold cut. rewrite Hp, IH. reflexivity.
Qed.

(** X13: in a text that opens with a line of three dashes the block of
    the frontmatter ends at the first later line of three dashes: the
    lines before it are read as keys and values, and the text after it,
    trimmed, is the body, whatever the body holds. *)
Theorem parseFrontmatter_block h lines body :
  Forall blockLine lines ->
  Utils.parseFrontmatter h
    ("---" ++ NL ++ join NL lines ++ NL ++ "---" ++ NL ++ body)
  = (Utils.parseFrontmatterYAML h (join NL lines), trim body).
Proof.
  intros Hlines. unfold Utils.parseFrontmatter.
  assert (isEmpty
            (trim ("---" ++ NL ++ join NL lines ++ NL ++ "---" ++ NL ++ body))
          = false) as ->.
  { unfold trim. cbn [append trimStart isWs code].
    change (isWs "-") with false. cbn [trimEnd]. change (isWs "-") with false.
    reflexivity. }
  assert (Utils.matchFrontmatter
            ("---" ++ NL ++ join NL lines ++ NL ++ "---" ++ NL ++ body)
          = Some (join NL lines, body)) as ->.
  { unfold Utils.matchFrontmatter.
    replace (String.prefix ("---" ++ NL)
               ("---" ++ NL ++ join NL lines ++ NL ++ "---" ++ NL ++ body))
      with true
      by (symmetry; apply (prefix_append ("---" ++ NL))).
    change (drop 4 ("---" ++ NL ++ join NL lines ++ NL ++ "---" ++ NL ++ body))
      with (join NL lines ++ closing ++ body).
    now apply cut_lines. }
  reflexivity.
Qed.

(** A body that holds a line of three dashes itself. *)
Lemma parseFrontmatter_block_witness :
  Utils.parseFrontmatter exampleHost
    ("---" ++ NL ++ join NL ["title: Hello"; "draft: true"] ++ NL ++ "---" ++ NL
     ++ "Body" ++ NL ++ "---" ++ NL ++ "more")
  = (Utils.parseFrontmatterYAML exampleHost
       (join NL ["title: Hello"; "draft: true"]),
     trim ("Body" ++ NL ++ "---" ++ NL ++ "more")).
Proof.
  apply (parseFrontmatter_block exampleHost ["title: Hello"; "draft: true"]).
  repeat constructor; discriminate.
Defined.

(** ** The article store *)

Lemma trim_blank_empty : trim "" = "".
Proof. reflexivity. Qed.

Lemma not_blank_not_empty s : isEmpty (trim s) = false -> s <> "".
Proof. intros H ->. discriminate H. Qed.

Lemma calculateReadingTime_positive content :
  1 <= Utils.calculateReadingTime content.
Proof. unfold Utils.calculateReadingTime. lia. Qed.

Ltac step_bind :=
  match goal with
  | |- context [bind ?m _] =>
      let E := fresh "E" in
      destruct m eqn:E; cbn [bind]; [|discriminate]
  end.

(** X14: [createArticleFromMarkdown] refuses a blank id with a
    [TypeError]; an article it answers has the id it was given, a title
    that is not empty, the text it was made from as [raw], the body the
    frontmatter parser answers as content and a reading time of at least
    one minute. *)
Theorem createArticle_basics h s id' source :
  (isEmpty (trim id') = true ->
   ArticleManager.createArticleFromMarkdown h s id' source
   = Throw (TypeError "id must be a non-empty string"))
  /\ (forall a,
         ArticleManager.createArticleFromMarkdown h s id' source = Ok a ->
         id a = id'
         /\ title a <> ""
         /\ raw a = Some source
         /\ content a = snd (Utils.parseFrontmatter h source)
         /\ 1 <= readingTime a
         /\ readingTime a = Utils.calculateReadingTime (content a)).
Proof.
  unfold ArticleManager.createArticleFromMarkdown. split.
  - now intros ->.
  - intros a. destruct (isEmpty (trim id')) eqn:Eid; [discriminate|].
    destruct (Utils.parseFrontmatter h source) as [data body].
    repeat step_bind. intros [= <-]. cbn.
    repeat split.
    + destruct (isEmpty (trim a0)) eqn:Et.
      * now apply not_blank_not_empty.
      * intros H. rewrite H in Et. discriminate.
    + apply calculateReadingTime_positive.
Qed.

(** X15: a text that does not open with a line of three dashes has no
    frontmatter: the article made from it takes the trimmed id as its
    title, the summary of the text as its description, the text itself,
    untrimmed, as its content (the empty text when it is blank), the
    current time as its date, the default author if there is one, and
    it has no tags, no categories and is no draft. *)
Theorem createArticle_without_frontmatter h s id' source :
  isEmpty (trim id') = false ->
  String.prefix ("---" ++ NL) source = false ->
  let body := if isEmpty (trim source) then "" else source in
  ArticleManager.createArticleFromMarkdown h s id' source
  = Ok {| id := id';
          title := trim id';
          description := trim (Utils.extractSummary body);
          content := body;
          date := Some (now h);
          updated := None;
          author :=
            Utils.truthyString
              (ArticleManager.defaultAuthor (ArticleManager.config s));
          tags := [];
          categories := [];
          image := None;
          draft := false;
          readingTime := Utils.calculateReadingTime body;
          meta := None;
          keywords := None;
          raw := Some source |}.
Proof.
  intros Hid Hplain body.
  unfold ArticleManager.createArticleFromMarkdown. rewrite Hid.
  assert (Utils.parseFrontmatter h source = (Utils.emptyData, body)) as ->.
  { unfold Utils.parseFrontmatter, Utils.matchFrontmatter, body.
    rewrite Hplain. now destruct (isEmpty (trim source)). }
  cbn [bind ArticleManager.field Utils.lookup Utils.emptyData Utils.own
       Utils.proto JsMap.get ArticleManager.stringArray
       ArticleManager.orEmpty].
  now rewrite Hid.
Qed.

(** A note without frontmatter under an id with spaces around it. *)
Lemma createArticle_without_frontmatter_witness :
  ArticleManager.createArticleFromMarkdown exampleHost freshStore " note "
    "Just a note."
  = Ok {| id := " note ";
          title := "note";
          description := "Just a note.";
          content := "Just a note.";
          date := Some 0;
          updated := None;
          author := None;
          tags := [];
          categories := [];
          image := None;
          draft := false;
          readingTime := 1;
          meta := None;
          keywords := None;
          raw := Some "Just a note." |}.
Proof.
  exact (createArticle_without_frontmatter exampleHost freshStore " note "
           "Just a note." eq_refl eq_refl).
Defined.

(** X16: an article that was added is the one [getArticleById] answers
    for its id, drafts included; it takes the place of an article of the
    same id and leaves every other id as it was; and the store takes it
    whatever [maxArticles] is, growing by one when the id is new. *)
Theorem addArticle_then_getArticleById s a s' :
  ArticleManager.addArticle s a = Ok s' ->
  ArticleManager.getArticleById s' (id a) = Ok (Some a)
  /\ (forall k,
         k <> id a ->
         ArticleManager.getArticleById s' k = ArticleManager.getArticleById s k)
  /\ JsMap.size (ArticleManager.articles s')
     = (if JsMap.has (ArticleManager.articles s) (id a)
        then JsMap.size (ArticleManager.articles s)
        else S (JsMap.size (ArticleManager.articles s)))
  /\ ArticleManager.config s' = ArticleManager.config s.
Proof.
  unfold ArticleManager.addArticle, ArticleManager.getArticleById,
    ArticleManager.checkDisposed.
  destruct (ArticleManager.disposed s) eqn:Ed; [discriminate|].
  cbn [bind]. intros [= <-]. cbn [ArticleManager.withArticles
    ArticleManager.disposed ArticleManager.articles ArticleManager.config].
  rewrite Ed. cbn [bind]. repeat split.
  - now rewrite get_set_same.
  - intros k Hk. rewrite get_set_other by congruence. reflexivity.
  - destruct (JsMap.has (ArticleManager.articles s) (id a)) eqn:Eh.
    + now apply size_set_present.
    + now apply size_set_absent.
Qed.

(** A draft added to an empty store. *)
Lemma addArticle_witness :
  exists s',
    ArticleManager.addArticle freshStore draftArticle = Ok s'
    /\ ArticleManager.getArticleById s' "d" = Ok (Some draftArticle)
    /\ JsMap.size (ArticleManager.articles s') = 1%nat.
Proof.
  eexists. split; [reflexivity|].
  destruct (addArticle_then_getArticleById freshStore draftArticle _ eq_refl)
    as (H1 & _ & H3 & _).
  split; [exact H1 | exact H3].
Defined.

(** *** Pages *)

Lemma firstn_plus {A : Type} (a b : nat) (l : list A) :
  firstn (a + b) l = (firstn a l ++ firstn b (skipn a l))%list.
Proof.
  revert l. induction a as [|a IH]; intros l; [reflexivity|].
  destruct l as [|x r]; simpl.
  - now rewrite firstn_nil.
  - now rewrite IH.
Qed.

(** The pages [1] to [n] of [size] elements, one after the other, are the
    first [n * size] elements. *)
Lemma pages_concat {A : Type} (size : nat) (l : list A) n :
  flat_map (fun p => firstn size (skipn ((p - 1) * size) l)) (seq 1 n)
  = firstn (n * size) l.
Proof.
  induction n as [|n IH]; [reflexivity|].
  rewrite seq_S, flat_map_app, IH. simpl.
  rewrite app_nil_r. replace (n - 0)%nat with n by lia.
  replace (size + n * size)%nat with (n * size + size)%nat by lia.
  now rewrite firstn_plus.
Qed.

Lemma flat_map_same {A B : Type} (f g : A -> list B) l :
  (forall x, In x l -> f x = g x) -> flat_map f l = flat_map g l.
Proof.
  induction l as [|x r IH]; intros H; simpl; [reflexivity|].
  rewrite (H x) by (now left). f_equal. apply IH. intros y Hy. apply H.
  now right.
Qed.

(** The options of [getArticleList] for one page. *)
Definition pageOptions (order : option ArticleManager.SortOrder)
    (p size : Z) : option ArticleManager.ListOptions :=
  Some {| ArticleManager.sort := order;
          ArticleManager.page := Some p;
          ArticleManager.pageSize := Some size |}.

(** The whole listing: no page is asked for. *)
Definition wholeOptions (order : option ArticleManager.SortOrder)
  : option ArticleManager.ListOptions :=
  Some {| ArticleManager.sort := order;
          ArticleManager.page := None;
          ArticleManager.pageSize := None |}.

Definition itemsOf (r : Result ArticleList) : list Article :=
  match r with
  | Ok l => items l
  | Throw _ => []
  end.

Definition totalOf (r : Result ArticleList) : nat :=
  match r with
  | Ok l => total l
  | Throw _ => O
  end.

(** X17: the pages of a listing, one after the other, are the listing:
    with a page size of at least one, the pages [1] to [n] hold the first
    [n] times page size articles of the whole listing in its order, so
    all of it once [n] pages cover the total; every page reports the
    total of the whole listing and holds at most page size articles. *)
Theorem getArticleList_pages h s filter order size n :
  ArticleManager.disposed s = false ->
  1 <= size ->
  let whole := ArticleManager.getArticleList h s filter (wholeOptions order) in
  let page p :=
    ArticleManager.getArticleList h s filter
      (pageOptions order (Z.of_nat p) size) in
  flat_map (fun p => itemsOf (page p)) (seq 1 n)
  = firstn (n * Z.to_nat size) (itemsOf whole)
  /\ (Z.of_nat (totalOf whole) <= Z.of_nat n * size ->
      flat_map (fun p => itemsOf (page p)) (seq 1 n) = itemsOf whole)
  /\ (forall p,
         (1 <= p)%nat ->
         totalOf (page p) = totalOf whole
         /\ Z.of_nat (length (itemsOf (page p))) <= size).
Proof.
  intros Hd Hsize whole page.
  set (sorted :=
         Utils.sortArticles
           (ArticleManager.applyFilter h filter (ArticleManager.visible s))
           (match order with Some ArticleManager.Asc => true | _ => false end)).
  assert (whole
          = Ok {| items := sorted;
                  total := length (ArticleManager.applyFilter h filter
                                     (ArticleManager.visible s));
                  filtered := length sorted |}) as Hwhole.
  { unfold whole, ArticleManager.getArticleList, ArticleManager.getArticles,
      ArticleManager.checkDisposed. rewrite Hd. reflexivity. }
  assert (forall p,
             (1 <= p)%nat ->
             page p
             = Ok {| items :=
                       firstn (Z.to_nat size)
                         (skipn ((p - 1) * Z.to_nat size) sorted);
                     total := length (ArticleManager.applyFilter h filter
                                        (ArticleManager.visible s));
                     filtered :=
                       length (firstn (Z.to_nat size)
                                 (skipn ((p - 1) * Z.to_nat size) sorted)) |})
    as Hpage.
  { intros p Hp.
    unfold page, ArticleManager.getArticleList, ArticleManager.getArticles,
      ArticleManager.checkDisposed. rewrite Hd. cbn [bind].
    unfold ArticleManager.paginate, pageOptions.
    cbn [ArticleManager.page ArticleManager.pageSize ArticleManager.sortOrder
         ArticleManager.sort ArticleManager.truthyNumber].
    assert ((Z.of_nat p =? 0) = false) as -> by lia.
    assert ((size =? 0) = false) as -> by lia.
    fold sorted. unfold ArticleManager.slice.
    replace (Z.to_nat
               ((Z.max 1 (Z.of_nat p) - 1) * Z.max 1 size + Z.max 1 size
                - (Z.max 1 (Z.of_nat p) - 1) * Z.max 1 size))
      with (Z.to_nat size) by lia.
    replace (Z.to_nat ((Z.max 1 (Z.of_nat p) - 1) * Z.max 1 size))
      with ((p - 1) * Z.to_nat size)%nat by nia.
    reflexivity. }
  assert (flat_map (fun p => itemsOf (page p)) (seq 1 n)
          = firstn (n * Z.to_nat size) sorted) as Hcat.
  { rewrite <- pages_concat. apply flat_map_same. intros p Hp.
    apply in_seq in Hp. rewrite Hpage by lia. reflexivity. }
  rewrite Hwhole. cbn [itemsOf totalOf items total].
  split; [exact Hcat|]. split.
  - intros Hall. rewrite Hcat. apply firstn_all2.
    unfold sorted, Utils.sortArticles. rewrite sortBy_length. nia.
  - intros p Hp. rewrite Hpage by assumption.
    cbn [itemsOf totalOf items total]. split; [reflexivity|].
    pose proof (firstn_le_length (Z.to_nat size)
                  (skipn ((p - 1) * Z.to_nat size) sorted)). lia.
Qed.

(** Two pages of two articles cover the store of three. *)
Lemma getArticleList_pages_witness :
  flat_map
    (fun p =>
       itemsOf (ArticleManager.getArticleList exampleHost storeOfThree None
                  (pageOptions None (Z.of_nat p) 2)))
    (seq 1 2)
  = itemsOf (ArticleManager.getArticleList exampleHost storeOfThree None
               (wholeOptions None))
  /\ itemsOf (ArticleManager.getArticleList exampleHost storeOfThree None
                (wholeOptions None))
     = [second; third; first].
Proof.
  split; [|reflexivity].
  apply (getArticleList_pages exampleHost storeOfThree None None 2 2 eq_refl).
  - lia.
  - simpl. lia.
Defined.

(** *** Related articles *)

(** X18: [getRelatedArticles] answers nothing for an id the store does
    not know; otherwise at most [limit] articles (3 when no limit is
    given, never fewer than 1 nor more than 100 allowed), each of them an
    article [getArticles] answers, other than the article itself and
    sharing a tag, a category or the author with it, the most related
    first. *)
Theorem getRelatedArticles_answers s articleId limit related :
  ArticleManager.getRelatedArticles s articleId limit = Ok related ->
  match JsMap.get (ArticleManager.articles s) articleId with
  | None => related = []
  | Some a =>
      Z.of_nat (length related) <= ArticleManager.clampLimit limit
      /\ 1 <= ArticleManager.clampLimit limit <= 100
      /\ Forall (fun c =>
                   In c (ArticleManager.visible s)
                   /\ id c <> articleId
                   /\ 0 < ArticleManager.relatedScore a c) related
      /\ StronglySorted
           (fun c1 c2 =>
              ArticleManager.relatedScore a c2
              <= ArticleManager.relatedScore a c1) related
  end.
Proof.
  unfold ArticleManager.getRelatedArticles, ArticleManager.getArticles,
    ArticleManager.checkDisposed.
  destruct (ArticleManager.disposed s); [discriminate|]. cbn [bind].
  destruct (JsMap.get (ArticleManager.articles s) articleId) as [a|];
    [|now intros [= <-]].
  intros [= <-].
  set (candidates := List.filter _ (ArticleManager.visible s)).
  set (scored := map (fun c => (c, ArticleManager.relatedScore a c)) candidates).
  set (positive := List.filter (fun p => 0 <? snd p) scored).
  set (ranked := Utils.sortBy _ positive).
  assert (forall p, In p ranked ->
            snd p = ArticleManager.relatedScore a (fst p)
            /\ In (fst p) (ArticleManager.visible s)
            /\ id (fst p) <> articleId
            /\ 0 < snd p) as Hranked.
  { intros p Hp. apply sortBy_In in Hp. apply filter_In in Hp.
    destruct Hp as [Hp Hpos]. apply in_map_iff in Hp.
    destruct Hp as (c & <- & Hc). apply filter_In in Hc.
    destruct Hc as [Hc Hne]. cbn [fst snd] in *.
    apply negb_true_iff, String.eqb_neq in Hne.
    repeat split; [assumption | assumption | lia]. }
  assert (descendingBy snd ranked) as Hsorted
      by (apply (sortBy_descending snd)).
  split; [|split; [|split]].
  - rewrite length_map.
    pose proof (firstn_le_length
                  (Z.to_nat (ArticleManager.clampLimit limit)) ranked).
    unfold ArticleManager.clampLimit in *. lia.
  - unfold ArticleManager.clampLimit. lia.
  - apply Forall_forall. intros c Hc. apply in_map_iff in Hc.
    destruct Hc as (p & <- & Hp). apply In_firstn_list in Hp.
    destruct (Hranked p Hp) as (Hs & Hv & Hne & Hpos).
    repeat split; [assumption | assumption | lia].
  - apply (firstn_descending snd (Z.to_nat (ArticleManager.clampLimit limit)))
      in Hsorted.
    assert (forall p, In p (firstn (Z.to_nat (ArticleManager.clampLimit limit))
                              ranked) ->
              snd p = ArticleManager.relatedScore a (fst p)) as Hs.
    { intros p Hp. apply In_firstn_list in Hp. now apply Hranked. }
    revert Hsorted Hs.
    generalize (firstn (Z.to_nat (ArticleManager.clampLimit limit)) ranked).
    intros l. unfold descendingBy. induction 1 as [|p l Hl IH Hall];
      intros Hs; simpl; constructor.
    + apply IH. intros q Hq. apply Hs. now right.
    + apply Forall_forall. intros c Hc. apply in_map_iff in Hc.
      destruct Hc as (q & <- & Hq). rewrite Forall_forall in Hall.
      specialize (Hall q Hq).
      rewrite <- (Hs p) by (now left). rewrite <- (Hs q) by (now right).
      exact Hall.
Qed.

(** The second article shares a tag and the author with the first; the
    draft that shares a tag and a category is left out. *)
Lemma getRelatedArticles_witness :
  exists related,
    ArticleManager.getRelatedArticles taggedStore "t1" None = Ok related
    /\ map id related = ["t2"]
    /\ Z.of_nat (length related) <= 3
    /\ Forall (fun c => id c <> "t1") related.
Proof.
  eexists. split; [reflexivity|]. split; [reflexivity|].
  pose proof (getRelatedArticles_answers taggedStore "t1" None _ eq_refl) as H.
  simpl JsMap.get in H. destruct H as (H1 & _ & H3 & _).
  split; [exact H1|].
  eapply Forall_impl; [|exact H3]. intros c Hc. apply Hc.
Defined.

(** ** The search engine: tokens *)

Lemma runs_tokens s :
  forall t,
    In t (SearchEngine.runs s) ->
    t <> ""
    /\ forallb (fun c => negb (SearchEngine.isSeparator c)) t = true.
Proof.
  induction s as [|c r IH]; intros t; simpl; [intros []|].
  destruct (SearchEngine.isSeparator c) eqn:Ec; [apply IH|].
  destruct r as [|c' r'].
  - intros [<-|[]]. split; [discriminate|]. simpl. now rewrite Ec.
  - destruct (SearchEngine.isSeparator c') eqn:Ec'.
    + intros [<-|H]; [|now apply IH].
      split; [discriminate|]. simpl. now rewrite Ec.
    + destruct (SearchEngine.runs (String c' r')) as [|w ws] eqn:Er.
      * intros [<-|[]]. split; [discriminate|]. simpl. now rewrite Ec.
      * intros [<-|H].
        -- split; [discriminate|]. simpl. rewrite Ec. simpl.
           apply (IH w). now left.
        -- apply IH. now right.
Qed.

Lemma runs_chars (p : ascii -> bool) s :
  forallb p s = true ->
  forall t, In t (SearchEngine.runs s) -> forallb p t = true.
Proof.
  induction s as [|c r IH]; intros Hs t; simpl; [intros []|].
  simpl in Hs. apply andb_true_iff in Hs. destruct Hs as [Hc Hr].
  destruct (SearchEngine.isSeparator c); [now apply IH|].
  destruct r as [|c' r'].
  - intros [<-|[]]. simpl. now rewrite Hc.
  - destruct (SearchEngine.isSeparator c').
    + intros [<-|H]; [|now apply IH]. simpl. now rewrite Hc.
    + destruct (SearchEngine.runs (String c' r')) as [|w ws] eqn:Er.
      * intros [<-|[]]. simpl. now rewrite Hc.
      * intros [<-|H].
        -- simpl. rewrite Hc. simpl. apply (IH Hr w). now left.
        -- apply (IH Hr). now right.
Qed.

Lemma dedupeFrom_In seen l x :
  In x (SearchEngine.dedupeFrom seen l) -> In x l.
Proof.
  revert seen. induction l as [|y r IH]; intros seen; simpl; [auto|].
  destruct (existsb (String.eqb y) seen).
  - intros H. right. eapply IH. exact H.
  - intros [->|H]; [now left|]. right. eapply IH. exact H.
Qed.

Lemma toLowerChar_idempotent c : toLowerChar (toLowerChar c) = toLowerChar c.
Proof. each_char c. Qed.

Lemma toLowerCase_lower s :
  forallb (fun c => Ascii.eqb (toLowerChar c) c) (toLowerCase s) = true.
Proof.
  induction s as [|c r IH]; simpl; [reflexivity|].
  now rewrite toLowerChar_idempotent, Ascii.eqb_refl, IH.
Qed.

Lemma lower_fixed s :
  forallb (fun c => Ascii.eqb (toLowerChar c) c) s = true -> toLowerCase s = s.
Proof.
  induction s as [|c r IH]; simpl; [reflexivity|].
  intros H. apply andb_true_iff in H. destruct H as [Hc Hr].
  apply Ascii.eqb_eq in Hc. now rewrite Hc, IH.
Qed.

(** X19: the tokens of a text are distinct and at most fifty; each is a
    run of one to 99 characters that holds no white space and no
    punctuation, in lower case unless the engine is case sensitive. *)
Theorem tokenize_tokens cfg text :
  NoDup (SearchEngine.tokenize cfg text)
  /\ (length (SearchEngine.tokenize cfg text) <= 50)%nat
  /\ forall t,
       In t (SearchEngine.tokenize cfg text) ->
       (1 <= String.length t < 100)%nat
       /\ forallb (fun c => negb (isWs c || isPunct c)) t = true
       /\ (SearchEngine.caseSensitive cfg <> Some true -> toLowerCase t = t).
Proof.
  split; [apply tokenize_NoDup|]. split; [apply tokenize_length|].
  intros t. unfold SearchEngine.tokenize.
  destruct (isEmpty text); [intros []|].
  unfold SearchEngine.dedupe. intros H. apply dedupeFrom_In in H.
  apply In_firstn_list in H. apply filter_In in H. destruct H as [Hrun Hlen].
  apply Nat.ltb_lt in Hlen.
  destruct (runs_tokens _ t Hrun) as [Hne Hsep].
  split; [|split].
  - destruct t; [congruence | simpl in *; lia].
  - exact Hsep.
  - intros Hcase. unfold SearchEngine.isCaseSensitive in Hrun.
    destruct (SearchEngine.caseSensitive cfg) as [[|]|]; try congruence;
      apply lower_fixed;
      apply (runs_chars _ _ (toLowerCase_lower text) t Hrun).
Qed.

(** ** The search engine: highlights *)

(** A text as the [i] flag reads it. *)
Fixpoint canon (s : string) : string :=
  match s with
  | "" => ""
  | String c r => String (canonChar c) (canon r)
  end.

(** [marked] is [content] with some of its pieces put between [open]
    and [close], each piece reading as the keyword, letter case apart. *)
Inductive Marked (open close keyword : string) : string -> string -> Prop :=
| MarkedEnd : Marked open close keyword "" ""
| MarkedChar c content marked :
    Marked open close keyword content marked ->
    Marked open close keyword (String c content) (String c marked)
| MarkedPiece piece content marked :
    canon piece = canon keyword ->
    Marked open close keyword content marked ->
    Marked open close keyword (piece ++ content)
      (open ++ piece ++ close ++ marked).

Lemma Marked_same open close keyword content :
  Marked open close keyword content content.
Proof. induction content; constructor; assumption. Qed.

Lemma Marked_prefix open close keyword piece content marked :
  Marked open close keyword content marked ->
  Marked open close keyword (piece ++ content) (piece ++ marked).
Proof. intros H. induction piece; simpl; [assumption | now constructor]. Qed.

Lemma matchLiteral_piece keyword :
  forall s piece rest,
    SearchEngine.matchLiteral keyword s = Some (piece, rest) ->
    s = piece ++ rest /\ canon piece = canon keyword.
Proof.
  induction keyword as [|k kr IH]; intros s piece rest; simpl.
  - intros [= <- <-]. now split.
  - destruct s as [|c r]; [discriminate|].
    destruct (Ascii.eqb (canonChar k) (canonChar c)) eqn:E; [|discriminate].
    destruct (SearchEngine.matchLiteral kr r) as [[m rest']|] eqn:Em;
      [|discriminate].
    intros [= <- <-]. apply Ascii.eqb_eq in E.
    destruct (IH r m rest' Em) as [-> Hc]. simpl. split; [reflexivity|].
    now rewrite Hc, E.
Qed.

Lemma canon_length s t : canon s = canon t -> String.length s = String.length t.
Proof.
  revert t. induction s as [|c r IH]; intros [|d t]; simpl; try discriminate;
    [reflexivity|].
  intros [= _ H]. f_equal. now apply IH.
Qed.

Lemma wrapMatches_marked open close keyword :
  keyword <> "" ->
  forall fuel count s,
    (String.length s <= fuel)%nat ->
    Marked open close keyword s
      (SearchEngine.wrapMatches fuel open close keyword count s).
Proof.
  intros Hk. induction fuel as [|f IH]; intros count s Hlen; simpl.
  - destruct s; [constructor | simpl in Hlen; lia].
  - destruct s as [|c r]; [constructor|].
    destruct (SearchEngine.matchLiteral keyword (String c r))
      as [[piece rest]|] eqn:Em.
    + destruct (matchLiteral_piece _ _ _ _ Em) as [Hs Hc].
      assert (String.length rest <= f)%nat as Hrest.
      { apply canon_length in Hc. rewrite Hs, length_append in Hlen.
        destruct keyword; [congruence|]. simpl in Hc. lia. }
      rewrite Hs. destruct (count <? 100)%nat.
      * rewrite !append_assoc. apply MarkedPiece; [assumption|]. now apply IH.
      * apply Marked_prefix. now apply IH.
    + constructor. apply IH. simpl in Hlen. lia.
Qed.

(** X20: highlighting changes a text only by putting pieces of it that
    read as the keyword, letter case apart, between the two tags of the
    configuration; everything else is kept, character by character. *)
Theorem highlightMatch_marks cfg content keyword :
  Marked (fst (SearchEngine.tagsOf cfg)) (snd (SearchEngine.tagsOf cfg))
    keyword content (SearchEngine.highlightMatch cfg content keyword).
Proof.
  unfold SearchEngine.highlightMatch.
  destruct (isEmpty keyword || isEmpty content) eqn:E;
    [apply Marked_same|].
  destruct (SearchEngine.tagsOf cfg) as [open close]. simpl.
  destruct (100 <? String.length (SearchEngine.escapeRegex keyword))%nat;
    [apply Marked_same|].
  apply wrapMatches_marked; [|lia].
  intros ->. discriminate E.
Qed.

Example highlight_case :
  SearchEngine.highlightMatch SearchEngine.noConfig "Rust and rustc" "rust"
  = "<mark>Rust</mark> and <mark>rust</mark>c".
Proof. vm_compute. reflexivity. Qed.

(** ** The search engine: the postings of a keyword *)

Lemma prefixMatches_postings keyword entries :
  forall count,
    (length (SearchEngine.prefixMatches keyword count entries) <= count * 50)%nat
    /\ forall i,
         In i (SearchEngine.prefixMatches keyword count entries) ->
         exists key items,
           In (key, items) entries
           /\ String.prefix keyword key = true
           /\ key <> keyword
           /\ In i items.
Proof.
  induction entries as [|[key items] r IH]; intros count.
  - destruct count; simpl; split; try lia; intros i [].
  - destruct count as [|count']; [simpl; split; [lia | intros i []]|].
    cbn [SearchEngine.prefixMatches].
    destruct (String.prefix keyword key && negb (String.eqb key keyword))
      eqn:E.
    + apply andb_true_iff in E. destruct E as [Ep Ene].
      apply negb_true_iff, String.eqb_neq in Ene.
      destruct (IH count') as [Hlen Hin]. split.
      * rewrite length_app.
        pose proof (firstn_le_length 50 items). lia.
      * intros i Hi. apply in_app_or in Hi. destruct Hi as [Hi|Hi].
        -- apply In_firstn_list in Hi. exists key, items.
           repeat split; try assumption. now left.
        -- destruct (Hin i Hi) as (k & its & H1 & H2).
           exists k, its. split; [now right | assumption].
    + destruct (IH (S count')) as [Hlen Hin]. split; [exact Hlen|].
      intros i Hi. destruct (Hin i Hi) as (k & its & H1 & H2).
      exists k, its. split; [now right | assumption].
Qed.

Lemma prefix_same s : String.prefix s s = true.
Proof.
  pose proof (prefix_append s "") as H. now rewrite append_empty_r in H.
Qed.

Lemma searchIndex_In idx keyword i :
  In i (SearchEngine.searchIndex idx keyword) ->
  exists key items,
    In (key, items) idx /\ String.prefix keyword key = true /\ In i items.
Proof.
  unfold SearchEngine.searchIndex.
  destruct (isEmpty keyword); [intros []|].
  intros Hi. apply in_app_or in Hi. destruct Hi as [Hi|Hi].
  - destruct (JsMap.get idx keyword) as [items|] eqn:Eg; [|destruct Hi].
    apply In_firstn_list in Hi. exists keyword, items.
    split; [now apply get_In|]. split; [apply prefix_same | assumption].
  - destruct (prefixMatches_postings keyword idx 50) as [_ Hin].
    destruct (Hin i Hi) as (k & its & H1 & H2 & _ & H3). eauto.
Qed.

(** X21: for one keyword the engine reads at most 2600 postings, 100 of
    the keyword itself and 50 of each of 50 longer terms, and each of
    them is filed in the index under a term that starts with the
    keyword; the empty keyword reads none. *)
Theorem searchIndex_bounded idx keyword :
  (length (SearchEngine.searchIndex idx keyword) <= 2600)%nat
  /\ (forall i,
         In i (SearchEngine.searchIndex idx keyword) ->
         exists key items,
           In (key, items) idx
           /\ String.prefix keyword key = true
           /\ In i items)
  /\ (keyword = "" -> SearchEngine.searchIndex idx keyword = []).
Proof.
  unfold SearchEngine.searchIndex.
  destruct (isEmpty keyword) eqn:Ek.
  - split; [simpl; lia|]. split; [intros i []|reflexivity].
  - destruct (prefixMatches_postings keyword idx 50) as [Hlen Hin].
    split; [|split].
    + rewrite length_app.
      destruct (JsMap.get idx keyword) as [items|].
      * pose proof (firstn_le_length 100 items). lia.
      * change (length (@nil SearchIndex)) with O. lia.
    + intros i Hi. apply searchIndex_In. unfold SearchEngine.searchIndex.
      now rewrite Ek.
    + intros ->. discriminate Ek.
Qed.

(** ** The search engine: what is indexed *)

(** What [indexArticles] passes over: something that is not an article,
    or an article without id, title or body. *)
Definition unindexable (u : SearchEngine.Unknown) : bool :=
  match u with
  | SearchEngine.NotAnArticle => true
  | SearchEngine.AnArticle a =>
      isEmpty (id a) || isEmpty (title a) || isEmpty (content a)
  end.

Lemma indexLoop_indexable cfg documents :
  forall idx arts,
    SearchEngine.indexLoop cfg idx arts documents
    = SearchEngine.indexLoop cfg idx arts
        (List.filter (fun u => negb (unindexable u)) documents).
Proof.
  induction documents as [|u r IH]; intros idx arts; [reflexivity|].
  destruct u as [|a]; cbn [List.filter unindexable negb];
    [apply IH|].
  destruct (isEmpty (id a) || isEmpty (title a) || isEmpty (content a)) eqn:E;
    cbn [negb SearchEngine.indexLoop]; unfold SearchEngine.indexArticle;
    rewrite E.
  - apply IH.
  - destruct (_ <? _); [reflexivity | apply IH].
Qed.

(** X22: [indexArticles] passes over what is not an article and over
    articles without id, title or body: the index it builds, and so every
    later search, is the one of the other documents of the list. *)
Theorem indexArticles_passes_over_unindexable s documents :
  SearchEngine.indexArticles s (Some documents)
  = SearchEngine.indexArticles s
      (Some (List.filter (fun u => negb (unindexable u)) documents)).
Proof.
  unfold SearchEngine.indexArticles.
  destruct (SearchEngine.checkDisposed s); [|reflexivity]. cbn [bind].
  now rewrite <- indexLoop_indexable.
Qed.

(** *** The size of the index *)

Lemma size_set_le {V : Type} (m : JsMap.t V) k v :
  (JsMap.size (JsMap.set m k v) <= S (JsMap.size m))%nat.
Proof.
  destruct (JsMap.has m k) eqn:E.
  - rewrite size_set_present by assumption. lia.
  - rewrite size_set_absent by assumption. lia.
Qed.

Lemma addWord_size a content w idx word :
  (JsMap.size (SearchEngine.addWord a content w idx word)
   <= S (JsMap.size idx))%nat.
Proof.
  unfold SearchEngine.addWord.
  destruct (SearchEngine.hasPosting _ _); apply size_set_le.
Qed.

Lemma addWords_size a content w words :
  forall idx,
    (JsMap.size (fold_left (SearchEngine.addWord a content w) words idx)
     <= JsMap.size idx + length words)%nat.
Proof.
  induction words as [|x r IH]; intros idx; simpl; [lia|].
  specialize (IH (SearchEngine.addWord a content w idx x)).
  pose proof (addWord_size a content w idx x). lia.
Qed.

Lemma addItem_size cfg a idx item :
  (JsMap.size (SearchEngine.addItem cfg a idx item) <= JsMap.size idx + 50)%nat.
Proof.
  unfold SearchEngine.addItem. destruct item as [content w].
  destruct (isEmpty content); [lia|].
  pose proof (addWords_size a content w (SearchEngine.tokenize cfg content) idx).
  pose proof (tokenize_length cfg content). lia.
Qed.

Lemma addItems_size cfg a items :
  forall idx,
    (JsMap.size (fold_left (SearchEngine.addItem cfg a) items idx)
     <= JsMap.size idx + 50 * length items)%nat.
Proof.
  induction items as [|x r IH]; intros idx; simpl; [lia|].
  specialize (IH (SearchEngine.addItem cfg a idx x)).
  pose proof (addItem_size cfg a idx x). lia.
Qed.

Lemma indexArticle_size cfg idx a idx' :
  SearchEngine.indexArticle cfg idx a = Ok idx' ->
  (JsMap.size idx' <= JsMap.size idx + 250)%nat.
Proof.
  intros H. apply indexArticle_Ok in H. subst idx'.
  pose proof (addItems_size cfg a (SearchEngine.indexItems cfg a) idx) as H.
  unfold SearchEngine.indexItems in H at 2. simpl length in H. lia.
Qed.

(** The number of terms the index may hold before indexing stops. *)
Definition indexLimit (cfg : SearchEngine.SearchEngineConfig) : Z :=
  SearchEngine.numberOr (SearchEngine.maxIndexSize cfg) 100000.

Lemma indexLoop_size cfg documents :
  forall idx arts,
    Z.of_nat (JsMap.size idx) <= indexLimit cfg ->
    Z.of_nat (JsMap.size (fst (SearchEngine.indexLoop cfg idx arts documents)))
    <= indexLimit cfg + 250.
Proof.
  induction documents as [|u r IH]; intros idx arts Hsize; simpl; [lia|].
  destruct u as [|a]; [now apply IH|].
  destruct (SearchEngine.indexArticle cfg idx a) as [idx'|] eqn:E;
    [|now apply IH].
  apply indexArticle_size in E. fold (indexLimit cfg).
  destruct (indexLimit cfg <? Z.of_nat (JsMap.size idx')) eqn:El.
  - simpl. lia.
  - apply IH. lia.
Qed.

(** X23: the index of an engine never holds more than [maxIndexSize]
    terms (100000 by default) and the at most 250 terms of the article
    that took it over the limit, at which indexing stops. *)
Theorem index_size_bounded s :
  engineReachable s ->
  1 <= indexLimit (SearchEngine.config s)
  /\ Z.of_nat (JsMap.size (SearchEngine.index s))
     <= indexLimit (SearchEngine.config s) + 250
  /\ (forall stats,
         SearchEngine.getStats s = Ok stats ->
         Z.of_nat (SearchEngine.indexedWords stats)
         <= indexLimit (SearchEngine.config s) + 250).
Proof.
  intros Hreach.
  assert (1 <= indexLimit (SearchEngine.config s)
          /\ Z.of_nat (JsMap.size (SearchEngine.index s))
             <= indexLimit (SearchEngine.config s) + 250) as [Hlimit Hsize].
  { induction Hreach as [cfg s Hnew|s documents s' _ IH E|s s' _ IH E
                        |s s' _ IH E].
    - unfold SearchEngine.new in Hnew.
      destruct (SearchEngine.belowOne (SearchEngine.maxResults cfg));
        [discriminate|].
      destruct (SearchEngine.belowOne (SearchEngine.maxQueryLength cfg));
        [discriminate|].
      destruct (SearchEngine.belowOne (SearchEngine.maxIndexSize cfg)) eqn:Eb;
        [discriminate|].
      injection Hnew as <-. unfold indexLimit. simpl.
      unfold SearchEngine.belowOne in Eb.
      destruct (SearchEngine.maxIndexSize cfg) as [n|]; simpl; [|lia].
      destruct (n =? 0) eqn:E0; lia.
    - destruct IH as [Hlimit Hsize].
      unfold SearchEngine.indexArticles, SearchEngine.checkDisposed in E.
      destruct (SearchEngine.disposed s); simpl in E; [discriminate|].
      destruct documents as [l|]; [|injection E as <-; now split].
      pose proof (indexLoop_size (SearchEngine.config s) l [] []) as Hloop.
      destruct (SearchEngine.indexLoop (SearchEngine.config s) [] [] l)
        as [idx arts].
      injection E as <-. simpl in *. split; [assumption|]. apply Hloop. lia.
    - destruct IH as [Hlimit Hsize].
      unfold SearchEngine.clear, SearchEngine.checkDisposed in E.
      destruct (SearchEngine.disposed s); simpl in E; [discriminate|].
      injection E as <-. simpl. split; [assumption | lia].
    - destruct IH as [Hlimit Hsize].
      unfold SearchEngine.dispose, SearchEngine.clear,
        SearchEngine.checkDisposed in E.
      destruct (SearchEngine.disposed s); simpl in E; [discriminate|].
      injection E as <-. simpl. split; [assumption | lia]. }
  split; [assumption|]. split; [assumption|].
  intros stats. unfold SearchEngine.getStats, SearchEngine.checkDisposed.
  destruct (SearchEngine.disposed s); simpl; [discriminate|].
  now intros [= <-].
Qed.

(** The engine of the two guides is reached by a constructor call and
    an indexing call. *)
Lemma guideEngine_reachable : engineReachable guideEngine.
Proof.
  exact (EngineIndexArticles _ _ _
           (EngineNew SearchEngine.noConfig freshEngine new_engine)
           index_guides).
Qed.

(** Its index holds six terms. *)
Lemma index_size_witness :
  Z.of_nat (JsMap.size (SearchEngine.index guideEngine)) <= 100000 + 250
  /\ JsMap.size (SearchEngine.index guideEngine) = 6%nat.
Proof.
  split; [|reflexivity].
  apply (index_size_bounded guideEngine guideEngine_reachable).
Defined.

(** ** The search engine: what a search answers *)

(** Every posting of the index weighs between 1 and 1000. *)
Definition weightsInRange (idx : JsMap.t (list SearchIndex)) : Prop :=
  forall key items i,
    In (key, items) idx -> In i items -> 1 <= weight i <= 1000.

Lemma In_set {V : Type} (m : JsMap.t V) k v k' v' :
  In (k', v') (JsMap.set m k v) -> (k' = k /\ v' = v) \/ In (k', v') m.
Proof.
  induction m as [|[k0 v0] r IH]; simpl.
  - intros [[= <- <-]|[]]. now left.
  - destruct (String.eqb k0 k) eqn:E.
    + apply String.eqb_eq in E. subst k0.
      intros [[= <- <-]|H]; [now left | right; now right].
    + intros [H|H]; [right; now left|].
      destruct (IH H) as [?|?]; [now left | right; now right].
Qed.

Lemma bump_weights d w l :
  1 <= w <= 1000 ->
  (forall i, In i l -> 1 <= weight i <= 1000) ->
  forall i, In i (SearchEngine.bump d w l) -> 1 <= weight i <= 1000.
Proof.
  intros Hw. induction l as [|x r IH]; intros Hl i; simpl; [intros []|].
  destruct (String.eqb (articleId x) d).
  - intros [<-|H]; [|apply Hl; now right]. simpl.
    pose proof (Hl x (or_introl eq_refl)). lia.
  - intros [<-|H]; [apply Hl; now left|].
    apply IH; [|assumption]. intros j Hj. apply Hl. now right.
Qed.

Lemma addWord_weights a content w idx word :
  1 <= w <= 1000 ->
  weightsInRange idx ->
  weightsInRange (SearchEngine.addWord a content w idx word).
Proof.
  intros Hw Hidx key items i Hin Hi. unfold SearchEngine.addWord in Hin.
  assert (forall j,
             In j (match JsMap.get idx word with Some l => l | None => [] end) ->
             1 <= weight j <= 1000) as Hold.
  { intros j Hj. destruct (JsMap.get idx word) as [l|] eqn:Eg; [|destruct Hj].
    apply get_In in Eg. eapply Hidx; eassumption. }
  destruct (SearchEngine.hasPosting _ _); apply In_set in Hin;
    destruct Hin as [[_ ->]|Hin]; try (eapply Hidx; eassumption).
  - eapply bump_weights; eassumption.
  - apply in_app_or in Hi. destruct Hi as [Hi|[<-|[]]]; [now apply Hold|].
    simpl. lia.
Qed.

Lemma addItem_weights cfg a idx item :
  1 <= snd item <= 1000 ->
  weightsInRange idx -> weightsInRange (SearchEngine.addItem cfg a idx item).
Proof.
  intros Hw. unfold SearchEngine.addItem. destruct item as [content w].
  simpl in Hw. destruct (isEmpty content); [auto|].
  generalize (SearchEngine.tokenize cfg content) as words.
  intros words. revert idx.
  induction words as [|x r IH]; intros idx Hidx; simpl; [assumption|].
  apply IH. now apply addWord_weights.
Qed.

Lemma indexArticle_weights cfg idx a idx' :
  SearchEngine.indexArticle cfg idx a = Ok idx' ->
  weightsInRange idx -> weightsInRange idx'.
Proof.
  intros H. apply indexArticle_Ok in H. subst idx'.
  pose proof (indexItems_weights cfg a) as Hitems. revert idx.
  induction Hitems as [|item r Hitem _ IH]; intros idx Hidx; simpl;
    [assumption|].
  apply IH. apply addItem_weights; [lia | assumption].
Qed.

Lemma indexLoop_weights cfg documents :
  forall idx arts,
    weightsInRange idx ->
    weightsInRange (fst (SearchEngine.indexLoop cfg idx arts documents)).
Proof.
  induction documents as [|u r IH]; intros idx arts Hidx; simpl; [assumption|].
  destruct u as [|a]; [now apply IH|].
  destruct (SearchEngine.indexArticle cfg idx a) as [idx'|] eqn:E;
    [|now apply IH].
  apply indexArticle_weights in E; [|assumption].
  destruct (_ <? _); [assumption | now apply IH].
Qed.

Lemma reachable_weights s :
  engineReachable s -> weightsInRange (SearchEngine.index s).
Proof.
  induction 1 as [cfg s Hnew|s documents s' _ IH E|s s' _ IH E|s s' _ IH E].
  - unfold SearchEngine.new in Hnew.
    repeat (destruct (SearchEngine.belowOne _); [discriminate|]).
    injection Hnew as <-. intros key items i [].
  - unfold SearchEngine.indexArticles, SearchEngine.checkDisposed in E.
    destruct (SearchEngine.disposed s); simpl in E; [discriminate|].
    destruct documents as [l|]; [|now injection E as <-].
    pose proof (indexLoop_weights (SearchEngine.config s) l [] []) as Hloop.
    destruct (SearchEngine.indexLoop (SearchEngine.config s) [] [] l).
    injection E as <-. apply Hloop. intros key items i [].
  - unfold SearchEngine.clear, SearchEngine.checkDisposed in E.
    destruct (SearchEngine.disposed s); simpl in E; [discriminate|].
    injection E as <-. intros key items i [].
  - unfold SearchEngine.dispose, SearchEngine.clear,
      SearchEngine.checkDisposed in E.
    destruct (SearchEngine.disposed s); simpl in E; [discriminate|].
    injection E as <-. intros key items i [].
Qed.

(** Every entry of the result map has a score of at least 1. *)
Definition scoresPositive (resultMap : JsMap.t SearchEngine.Hit) : Prop :=
  forall k hit, In (k, hit) resultMap -> 1 <= fst hit.

Lemma addHit_positive cfg keyword resultMap i :
  1 <= weight i ->
  scoresPositive resultMap ->
  scoresPositive (SearchEngine.addHit cfg keyword resultMap i).
Proof.
  intros Hw Hmap k hit Hin. unfold SearchEngine.addHit in Hin.
  destruct (match JsMap.get resultMap (articleId i) with
            | Some hit0 => hit0
            | None => (0, [])
            end) as [score0 highlights0] eqn:E.
  apply In_set in Hin. destruct Hin as [[_ ->]|Hin]; [|now apply (Hmap k)].
  simpl.
  destruct (JsMap.get resultMap (articleId i)) as [hit0|] eqn:Eg.
  - apply get_In in Eg. apply Hmap in Eg. subst hit0. simpl in Eg. lia.
  - injection E as <- <-. lia.
Qed.

Lemma addKeyword_positive s resultMap keyword :
  weightsInRange (SearchEngine.index s) ->
  scoresPositive resultMap ->
  scoresPositive (SearchEngine.addKeyword s resultMap keyword).
Proof.
  intros Hidx. unfold SearchEngine.addKeyword.
  assert (forall i, In i (SearchEngine.searchIndex (SearchEngine.index s) keyword)
                    -> 1 <= weight i) as Hw.
  { intros i Hi. apply searchIndex_In in Hi.
    destruct Hi as (key & items & H1 & _ & H2).
    now apply (Hidx key items i H1 H2). }
  revert resultMap Hw.
  induction (SearchEngine.searchIndex (SearchEngine.index s) keyword)
    as [|i r IH]; intros resultMap Hw Hmap; simpl; [assumption|].
  apply IH; [intros j Hj; apply Hw; now right|].
  apply addHit_positive; [apply Hw; now left | assumption].
Qed.

Lemma toResults_entries s resultMap r :
  In r (SearchEngine.toResults s resultMap) ->
  exists k hs,
    In (k, (score r, hs)) resultMap
    /\ JsMap.get (SearchEngine.articles s) k = Some (article r)
    /\ highlights r = firstn 10 hs.
Proof.
  unfold SearchEngine.toResults. intros H. apply in_flat_map in H.
  destruct H as ([k [sc hs]] & Hin & Hr).
  destruct (JsMap.get (SearchEngine.articles s) k) as [a|] eqn:Eg;
    [|destruct Hr].
  destruct Hr as [<-|[]]. simpl. eauto.
Qed.

(** X24: every result of a search is an article of the engine, the one
    it keeps under the id of the result, with a score of at least 1 and
    at most ten highlights. *)
Theorem search_results_indexed s query results :
  engineReachable s ->
  SearchEngine.search s query = Ok results ->
  Forall (fun r =>
            JsMap.get (SearchEngine.articles s) (id (article r))
            = Some (article r)
            /\ 1 <= score r
            /\ (length (highlights r) <= 10)%nat) results.
Proof.
  intros Hreach Hsearch.
  destruct (reachable_wf s Hreach) as [_ Hkeyed].
  pose proof (reachable_weights s Hreach) as Hweights.
  assert (forall validatedQuery r,
             In r (SearchEngine.searchValidated s validatedQuery) ->
             JsMap.get (SearchEngine.articles s) (id (article r))
             = Some (article r)
             /\ 1 <= score r
             /\ (length (highlights r) <= 10)%nat) as Hvalid.
  { intros q r. unfold SearchEngine.searchValidated.
    destruct (SearchEngine.tokenize (SearchEngine.config s) q) as [|k ks];
      [intros []|].
    intros Hr. apply In_firstn_list in Hr. apply sortBy_In in Hr.
    apply toResults_entries in Hr. destruct Hr as (key & hs & Hin & Hget & Hhs).
    assert (scoresPositive
              (fold_left (SearchEngine.addKeyword s) (k :: ks) [])) as Hpos.
    { generalize (k :: ks) as keywords. intros keywords.
      assert (scoresPositive []) as Hempty by (intros ? ? []).
      revert Hempty. generalize (@nil (string * SearchEngine.Hit)) as resultMap.
      induction keywords as [|x r' IH]; intros resultMap Hmap; simpl;
        [assumption|].
      apply IH. now apply addKeyword_positive. }
    split; [|split].
    - rewrite (Hkeyed key (article r) Hget). exact Hget.
    - apply (Hpos key _ Hin).
    - rewrite Hhs. apply firstn_le_length. }
  unfold SearchEngine.search, SearchEngine.checkDisposed in Hsearch.
  destruct (SearchEngine.disposed s); simpl in Hsearch; [discriminate|].
  apply Forall_forall. intros r Hr.
  destruct query as [q|]; [|injection Hsearch as <-; destruct Hr].
  destruct (_ <? _); [injection Hsearch as <-; destruct Hr|].
  destruct (isEmpty _); [injection Hsearch as <-; destruct Hr|].
  injection Hsearch as <-. eapply Hvalid. exact Hr.
Qed.

(** Both guides answer [guide]. *)
Lemma search_results_witness :
  exists results,
    SearchEngine.search guideEngine (Some "guide") = Ok results
    /\ map idOf results = ["doc1"; "doc2"]
    /\ Forall (fun r =>
                 JsMap.get (SearchEngine.articles guideEngine) (id (article r))
                 = Some (article r)
                 /\ 1 <= score r
                 /\ (length (highlights r) <= 10)%nat) results.
Proof.
  eexists. split; [vm_compute; reflexivity|]. split; [reflexivity|].
  apply (search_results_indexed guideEngine (Some "guide") _
           guideEngine_reachable).
  vm_compute. reflexivity.
Defined.

(** ** The plugin manager *)

(** *** The chains are bounded *)

(** Neither chain is longer than the limit of the configuration. *)
Definition chainsBounded (s : PluginManager.State) : Prop :=
  Z.of_nat (length (PluginManager.articleProcessors s))
  <= Z.max 0 (PluginManager.processorLimit s)
  /\ Z.of_nat (length (PluginManager.searchExtensions s))
     <= Z.max 0 (PluginManager.processorLimit s).

Lemma registerArticleProcessor_bounded s n fn s' :
  PluginManager.registerArticleProcessor s n fn = Ok s' ->
  chainsBounded s -> chainsBounded s'.
Proof.
  unfold PluginManager.registerArticleProcessor, PluginManager.checkDisposed.
  destruct (PluginManager.disposed s); simpl; [discriminate|].
  destruct (_ <=? _) eqn:E; intros [= <-]; [auto|].
  intros [H1 H2]. unfold chainsBounded, PluginManager.processorLimit in *.
  simpl. rewrite length_app. simpl. split; lia.
Qed.

Lemma registerSearchExtension_bounded s n fn s' :
  PluginManager.registerSearchExtension s n fn = Ok s' ->
  chainsBounded s -> chainsBounded s'.
Proof.
  unfold PluginManager.registerSearchExtension, PluginManager.checkDisposed.
  destruct (PluginManager.disposed s); simpl; [discriminate|].
  destruct (_ <=? _) eqn:E; intros [= <-]; [auto|].
  intros [H1 H2]. unfold chainsBounded, PluginManager.processorLimit in *.
  simpl. rewrite length_app. simpl. split; lia.
Qed.

Lemma register_bounded n s r :
  chainsBounded s -> chainsBounded (PluginManager.register n s r).
Proof.
  intros H. unfold PluginManager.register. destruct r as [fn|fn].
  - destruct (PluginManager.registerArticleProcessor s n fn) eqn:E;
      [|assumption].
    eapply registerArticleProcessor_bounded; eassumption.
  - destruct (PluginManager.registerSearchExtension s n fn) eqn:E;
      [|assumption].
    eapply registerSearchExtension_bounded; eassumption.
Qed.

Lemma registerPlugin_bounded s plugin :
  chainsBounded s -> chainsBounded (fst (PluginManager.registerPlugin s plugin)).
Proof.
  intros H. unfold PluginManager.registerPlugin.
  destruct (PluginManager.checkDisposed s); [|assumption].
  destruct plugin as [p|]; [|assumption].
  destruct (JsMap.has _ _); [assumption|].
  assert (chainsBounded
            (fold_left (PluginManager.register (PluginManager.name p))
               (PluginManager.registrations (PluginManager.activate p)) s))
    as H'.
  { revert s H.
    induction (PluginManager.registrations (PluginManager.activate p))
      as [|r rs IH]; intros s H; simpl; [assumption|].
    apply IH. now apply register_bounded. }
  set (s1 := fold_left _ _ s) in *.
  destruct (PluginManager.call _ _); [|exact H'].
  exact H'.
Qed.

Lemma unregisterPlugin_fields s name :
  PluginManager.config (fst (PluginManager.unregisterPlugin s name))
  = PluginManager.config s
  /\ PluginManager.disposed (fst (PluginManager.unregisterPlugin s name))
     = PluginManager.disposed s.
Proof.
  unfold PluginManager.unregisterPlugin.
  destruct (PluginManager.checkDisposed s); [|now split].
  destruct (isEmpty (trim name)); [now split|].
  destruct (JsMap.get (PluginManager.plugins s) name) as [p|]; [|now split].
  destruct (match PluginManager.deactivate p with
            | Some d => PluginManager.call d (PluginManager.timeoutOf s)
            | None => Ok tt
            end); now split.
Qed.

Lemma unregisterPlugin_bounded s name :
  chainsBounded s ->
  chainsBounded (fst (PluginManager.unregisterPlugin s name)).
Proof.
  intros [H1 H2]. unfold PluginManager.unregisterPlugin.
  destruct (PluginManager.checkDisposed s); [|now split].
  destruct (isEmpty (trim name)); [now split|].
  destruct (JsMap.get (PluginManager.plugins s) name) as [p|]; [|now split].
  destruct (match PluginManager.deactivate p with
            | Some d => PluginManager.call d (PluginManager.timeoutOf s)
            | None => Ok tt
            end); [|now split].
  unfold chainsBounded, PluginManager.processorLimit in *. simpl.
  pose proof (filter_length_le
                (fun p0 : string * PluginManager.ArticleProcessor =>
                   negb (String.eqb (fst p0) name))
                (PluginManager.articleProcessors s)).
  pose proof (filter_length_le
                (fun p0 : string * PluginManager.SearchExtension =>
                   negb (String.eqb (fst p0) name))
                (PluginManager.searchExtensions s)).
  split; lia.
Qed.

Lemma unregisterAll_fields names :
  forall s,
    PluginManager.config
      (fold_left (fun st n => fst (PluginManager.unregisterPlugin st n)) names s)
    = PluginManager.config s
    /\ PluginManager.disposed
         (fold_left (fun st n => fst (PluginManager.unregisterPlugin st n))
            names s)
       = PluginManager.disposed s.
Proof.
  induction names as [|n r IH]; intros s; simpl; [now split|].
  destruct (IH (fst (PluginManager.unregisterPlugin s n))) as [-> ->].
  apply unregisterPlugin_fields.
Qed.

Lemma cleanup_bounded s : chainsBounded (PluginManager.cleanup s).
Proof.
  unfold chainsBounded, PluginManager.cleanup, PluginManager.processorLimit.
  simpl. split; lia.
Qed.

(** X25: however plugins are registered and removed, the chain of
    article processors and the chain of search extensions never grow
    beyond [maxProcessors] (100 by default): a registration over the
    limit is dropped. *)
Theorem chains_never_exceed_limit s :
  pluginsReachable s ->
  Z.of_nat (length (PluginManager.articleProcessors s))
  <= Z.max 0 (PluginManager.processorLimit s)
  /\ Z.of_nat (length (PluginManager.searchExtensions s))
     <= Z.max 0 (PluginManager.processorLimit s).
Proof.
  intros H. change (chainsBounded s).
  induction H as [cfg|s plugin _ IH|s name _ IH|s n fn s' _ IH E
                 |s n fn s' _ IH E|s _ IH|s _ IH].
  - unfold chainsBounded. simpl. split; lia.
  - now apply registerPlugin_bounded.
  - now apply unregisterPlugin_bounded.
  - eapply registerArticleProcessor_bounded; eassumption.
  - eapply registerSearchExtension_bounded; eassumption.
  - apply cleanup_bounded.
  - unfold PluginManager.dispose.
    destruct (PluginManager.disposed s); [assumption|].
    pose proof (cleanup_bounded s) as [H1 H2].
    unfold chainsBounded, PluginManager.processorLimit in *. simpl in *.
    split; lia.
Qed.

(** A plugin that registers the tagging processor, and one whose
    deactivation hook never settles. *)
Definition taggerPlugin : PluginManager.Plugin :=
  {| PluginManager.name := "tagger";
     PluginManager.version := "1.0.0";
     PluginManager.description := None;
     PluginManager.activate :=
       {| PluginManager.registrations :=
            [PluginManager.RegisterArticleProcessor tagging];
          PluginManager.outcome :=
            PluginManager.Returns (PluginManager.Resolves 0 tt) |};
     PluginManager.deactivate := None |}.

Definition stuckPlugin : PluginManager.Plugin :=
  {| PluginManager.name := "stuck";
     PluginManager.version := "1.0.0";
     PluginManager.description := None;
     PluginManager.activate :=
       {| PluginManager.registrations :=
            [PluginManager.RegisterArticleProcessor renaming];
          PluginManager.outcome :=
            PluginManager.Returns (PluginManager.Resolves 0 tt) |};
     PluginManager.deactivate :=
       Some (PluginManager.Returns PluginManager.Never) |}.

(** The manager after both were registered. *)
Definition twoPlugins : PluginManager.State :=
  fst (PluginManager.registerPlugin
         (fst (PluginManager.registerPlugin defaultPlugins (Some taggerPlugin)))
         (Some stuckPlugin)).

Lemma twoPlugins_reachable : pluginsReachable twoPlugins.
Proof.
  exact (ReachRegisterPlugin _ (Some stuckPlugin)
           (ReachRegisterPlugin _ (Some taggerPlugin)
              (ReachNew
                 {| PluginManager.timeout := None;
                    PluginManager.maxProcessors := None |}))).
Qed.

(** Two processors are registered, under the limit of 100. *)
Lemma chains_witness :
  Z.of_nat (length (PluginManager.articleProcessors twoPlugins)) <= 100
  /\ length (PluginManager.articleProcessors twoPlugins) = 2%nat.
Proof.
  split; [|reflexivity].
  apply (chains_never_exceed_limit twoPlugins twoPlugins_reachable).
Defined.

(** *** Removing a plugin *)

Definition ownedBy (name : string) {A : Type} (p : string * A) : bool :=
  String.eqb (fst p) name.

(** X26: when [unregisterPlugin] succeeds on a registered plugin, the
    plugin is gone from the registry and from the active set, the
    processors and search extensions it had registered are gone from the
    chains, and the other plugins and their processors are as before, in
    their order. *)
Theorem unregisterPlugin_removes s name s' :
  pluginsReachable s ->
  JsMap.has (PluginManager.plugins s) name = true ->
  PluginManager.unregisterPlugin s name = (s', Ok tt) ->
  PluginManager.getPluginInfo s' name = Ok None
  /\ ~ In name (PluginManager.activePlugins s')
  /\ PluginManager.articleProcessors s'
     = List.filter (fun p => negb (ownedBy name p))
         (PluginManager.articleProcessors s)
  /\ PluginManager.searchExtensions s'
     = List.filter (fun p => negb (ownedBy name p))
         (PluginManager.searchExtensions s)
  /\ Forall (fun p => fst p <> name) (PluginManager.articleProcessors s')
  /\ Forall (fun p => fst p <> name) (PluginManager.searchExtensions s')
  /\ (forall other,
         other <> name ->
         PluginManager.getPluginInfo s' other
         = PluginManager.getPluginInfo s other).
Proof.
  intros Hreach Hhas. apply reachable_consistent in Hreach.
  destruct Hreach as [Hnd Hact].
  unfold PluginManager.unregisterPlugin, PluginManager.getPluginInfo,
    PluginManager.checkDisposed.
  destruct (PluginManager.disposed s) eqn:Ed; [discriminate|].
  destruct (isEmpty (trim name)); [discriminate|].
  apply has_true_get in Hhas. destruct Hhas as [p Hp]. rewrite Hp.
  destruct (match PluginManager.deactivate p with
            | Some d => PluginManager.call d (PluginManager.timeoutOf s)
            | None => Ok tt
            end); [|discriminate].
  intros [= <-]. simpl.
  split; [now rewrite get_delete_same|].
  split; [intros H; apply filter_In in H; destruct H as [_ H];
          now rewrite String.eqb_refl in H|].
  split; [reflexivity|]. split; [reflexivity|].
  split; [|split].
  - apply Forall_forall. intros q Hq. apply filter_In in Hq.
    destruct Hq as [_ Hq]. now apply negb_true_iff, String.eqb_neq in Hq.
  - apply Forall_forall. intros q Hq. apply filter_In in Hq.
    destruct Hq as [_ Hq]. now apply negb_true_iff, String.eqb_neq in Hq.
  - intros other Hne. now rewrite get_delete_other by congruence.
Qed.

(** Removing the tagger leaves the other plugin and its processor. *)
Lemma unregisterPlugin_witness :
  exists s',
    PluginManager.unregisterPlugin twoPlugins "tagger" = (s', Ok tt)
    /\ PluginManager.getPluginInfo s' "tagger" = Ok None
    /\ map fst (PluginManager.articleProcessors s') = ["stuck"]
    /\ PluginManager.getPluginInfo s' "stuck" = Ok (Some stuckPlugin).
Proof.
  eexists. split; [reflexivity|].
  destruct (unregisterPlugin_removes twoPlugins "tagger" _
              twoPlugins_reachable eq_refl eq_refl)
    as (H1 & _ & H3 & _ & _ & _ & H7).
  split; [exact H1|]. split; [now rewrite H3|].
  rewrite H7 by discriminate. reflexivity.
Defined.

(** *** The statistics of the processors *)

Lemma countKey_owners {A : Type} (l : list (string * A)) :
  forall m,
    fold_left
      (fun m p =>
         JsMap.set m (fst p)
           (match JsMap.get m (fst p) with
            | Some n => n + 1
            | None => 1
            end))
      l m
    = fold_left Utils.countKey (map fst l) m.
Proof.
  induction l as [|p r IH]; intros m; simpl; [reflexivity|].
  now rewrite IH.
Qed.

Lemma count_occ_owned {A : Type} (l : list (string * A)) name :
  count_occ string_dec (map fst l) name
  = length (List.filter (ownedBy name) l).
Proof.
  induction l as [|p r IH]; simpl; [reflexivity|]. unfold ownedBy at 1.
  destruct (string_dec (fst p) name) as [E|E].
  - rewrite E, String.eqb_refl. simpl. now rewrite IH.
  - apply String.eqb_neq in E. now rewrite E.
Qed.

(** X27: the statistics of the processors count, for every plugin, the
    article processors it has in the chain, and give no entry to a
    plugin that has none; the totals are the lengths of the two
    chains. *)
Theorem processorStats_count s stats :
  PluginManager.getProcessorStats s = Ok stats ->
  (forall name,
      JsMap.get (PluginManager.processorsByPlugin stats) name
      = tally (length (List.filter (ownedBy name)
                         (PluginManager.articleProcessors s))))
  /\ PluginManager.totalProcessors stats
     = length (PluginManager.articleProcessors s)
  /\ PluginManager.totalSearchExtensions stats
     = length (PluginManager.searchExtensions s).
Proof.
  unfold PluginManager.getProcessorStats, PluginManager.checkDisposed.
  destruct (PluginManager.disposed s); simpl; [discriminate|].
  intros [= <-]. simpl. split; [|now split].
  intros name. rewrite countKey_owners, countKey_tally.
  now rewrite count_occ_owned.
Qed.

(** One processor of the tagger, none of a plugin that is unknown. *)
Lemma processorStats_witness :
  exists stats,
    PluginManager.getProcessorStats twoPlugins = Ok stats
    /\ JsMap.get (PluginManager.processorsByPlugin stats) "tagger" = Some 1
    /\ JsMap.get (PluginManager.processorsByPlugin stats) "other" = None.
Proof.
  eexists. split; [reflexivity|].
  destruct (processorStats_count twoPlugins _ eq_refl) as [H _].
  rewrite !H. split; reflexivity.
Defined.

(** *** Cleaning up *)

(** [unregisterPlugin(name)] removes the plugin [p]: the name is not
    blank and the deactivation hook, if there is one, ends well within
    the time allowed. *)
Definition unloads (timeoutMs : Z) (name : string) (p : PluginManager.Plugin)
  : bool :=
  negb (isEmpty (trim name))
  && isOk (match PluginManager.deactivate p with
           | Some d => PluginManager.call d timeoutMs
           | None => Ok tt
           end).

Lemma unregisterPlugin_plugins s name k :
  NoDup (JsMap.keys (PluginManager.plugins s)) ->
  PluginManager.disposed s = false ->
  JsMap.get (PluginManager.plugins (fst (PluginManager.unregisterPlugin s name)))
    k
  = match JsMap.get (PluginManager.plugins s) k with
    | Some p =>
        if String.eqb name k && unloads (PluginManager.timeoutOf s) k p
        then None else Some p
    | None => None
    end.
Proof.
  intros Hnd Hd. unfold PluginManager.unregisterPlugin,
    PluginManager.checkDisposed, unloads.
  rewrite Hd.
  destruct (String.eqb name k) eqn:Ek.
  - apply String.eqb_eq in Ek. subst k.
    destruct (isEmpty (trim name)); simpl.
    + now destruct (JsMap.get (PluginManager.plugins s) name).
    + destruct (JsMap.get (PluginManager.plugins s) name) as [p|] eqn:Ep;
        simpl; [|now rewrite Ep].
      destruct (match PluginManager.deactivate p with
                | Some d => PluginManager.call d (PluginManager.timeoutOf s)
                | None => Ok tt
                end); simpl.
      * now apply get_delete_same.
      * now rewrite Ep.
  - simpl. apply String.eqb_neq in Ek.
    destruct (isEmpty (trim name)); simpl;
      [now destruct (JsMap.get (PluginManager.plugins s) k)|].
    destruct (JsMap.get (PluginManager.plugins s) name) as [p|] eqn:Ep;
      simpl; [|now destruct (JsMap.get (PluginManager.plugins s) k)].
    destruct (match PluginManager.deactivate p with
              | Some d => PluginManager.call d (PluginManager.timeoutOf s)
              | None => Ok tt
              end); simpl.
    + rewrite get_delete_other by assumption.
      now destruct (JsMap.get (PluginManager.plugins s) k).
    + now destruct (JsMap.get (PluginManager.plugins s) k).
Qed.

Lemma unregisterPlugin_keys s name :
  NoDup (JsMap.keys (PluginManager.plugins s)) ->
  NoDup (JsMap.keys
           (PluginManager.plugins (fst (PluginManager.unregisterPlugin s name)))).
Proof.
  intros Hnd. unfold PluginManager.unregisterPlugin.
  destruct (PluginManager.checkDisposed s); [|assumption].
  destruct (isEmpty (trim name)); [assumption|].
  destruct (JsMap.get (PluginManager.plugins s) name) as [p|]; [|assumption].
  destruct (match PluginManager.deactivate p with
            | Some d => PluginManager.call d (PluginManager.timeoutOf s)
            | None => Ok tt
            end); [|assumption].
  simpl. now apply NoDup_keys_delete.
Qed.

Lemma unregisterAll_plugins names k :
  forall s,
    NoDup (JsMap.keys (PluginManager.plugins s)) ->
    PluginManager.disposed s = false ->
    JsMap.get
      (PluginManager.plugins
         (fold_left (fun st n => fst (PluginManager.unregisterPlugin st n))
            names s)) k
    = match JsMap.get (PluginManager.plugins s) k with
      | Some p =>
          if existsb (fun n => String.eqb n k) names
             && unloads (PluginManager.timeoutOf s) k p
          then None else Some p
      | None => None
      end.
Proof.
  induction names as [|n r IH]; intros s Hnd Hd.
  - simpl. now destruct (JsMap.get (PluginManager.plugins s) k).
  - cbn [fold_left existsb].
    destruct (unregisterPlugin_fields s n) as [Hcfg Hdis].
    rewrite IH; [|now apply unregisterPlugin_keys | congruence].
    rewrite unregisterPlugin_plugins by assumption.
    assert (PluginManager.timeoutOf (fst (PluginManager.unregisterPlugin s n))
            = PluginManager.timeoutOf s) as ->
        by (unfold PluginManager.timeoutOf; now rewrite Hcfg).
    destruct (JsMap.get (PluginManager.plugins s) k) as [p|]; [|reflexivity].
    destruct (String.eqb n k); simpl;
      destruct (unloads (PluginManager.timeoutOf s) k p) eqn:Eu; simpl;
      rewrite ?Eu, ?andb_true_r, ?andb_false_r; reflexivity.
Qed.

(** X28: [cleanup] empties both chains and unloads every plugin whose
    name is not blank and whose deactivation hook, if it has one, ends
    well in time; a plugin under a blank name, or one whose hook throws,
    is rejected or does not settle in time, stays registered and
    active. *)
Theorem cleanup_unloads s :
  pluginsReachable s ->
  PluginManager.disposed s = false ->
  let s' := PluginManager.cleanup s in
  PluginManager.articleProcessors s' = []
  /\ PluginManager.searchExtensions s' = []
  /\ (forall name,
         JsMap.get (PluginManager.plugins s') name
         = match JsMap.get (PluginManager.plugins s) name with
           | Some p =>
               if unloads (PluginManager.timeoutOf s) name p
               then None else Some p
           | None => None
           end)
  /\ (forall name,
         In name (PluginManager.activePlugins s')
         <-> JsMap.has (PluginManager.plugins s') name = true).
Proof.
  intros Hreach Hd s'.
  pose proof (reachable_consistent _ (ReachCleanup s Hreach)) as [_ Hact'].
  apply reachable_consistent in Hreach. destruct Hreach as [Hnd Hact].
  split; [reflexivity|]. split; [reflexivity|]. split.
  - intros name. unfold s', PluginManager.cleanup.
    cbn [PluginManager.plugins].
    rewrite unregisterAll_plugins by assumption.
    destruct (JsMap.get (PluginManager.plugins s) name) as [p|] eqn:Ep;
      [|reflexivity].
    assert (existsb (fun n => String.eqb n name) (PluginManager.activePlugins s)
            = true) as ->; [|reflexivity].
    apply existsb_exists. exists name. split; [|apply String.eqb_refl].
    apply Hact. apply has_In_keys. apply has_true_get. eauto.
  - intros name. fold s' in Hact'. rewrite Hact'. symmetry.
    apply has_In_keys.
Qed.

(** The tagger is unloaded; the plugin whose hook never settles
    stays. *)
Lemma cleanup_witness :
  PluginManager.articleProcessors (PluginManager.cleanup twoPlugins) = []
  /\ JsMap.get (PluginManager.plugins (PluginManager.cleanup twoPlugins))
       "tagger" = None
  /\ JsMap.get (PluginManager.plugins (PluginManager.cleanup twoPlugins))
       "stuck" = Some stuckPlugin.
Proof.
  destruct (cleanup_unloads twoPlugins twoPlugins_reachable eq_refl)
    as (H1 & _ & H3 & _).
  split; [exact H1|]. rewrite !H3. split; reflexivity.
Defined.

(** *** Registering a plugin *)

Lemma register_appends name r s :
  exists processors extensions,
    PluginManager.articleProcessors (PluginManager.register name s r)
    = (PluginManager.articleProcessors s ++ processors)%list
    /\ PluginManager.searchExtensions (PluginManager.register name s r)
       = (PluginManager.searchExtensions s ++ extensions)%list
    /\ Forall (fun q => fst q = name) processors
    /\ Forall (fun q => fst q = name) extensions.
Proof.
  unfold PluginManager.register, PluginManager.registerArticleProcessor,
    PluginManager.registerSearchExtension.
  destruct r as [fn|fn]; destruct (PluginManager.checkDisposed s); cbn [bind];
    try (exists [], []; rewrite !app_nil_r; now repeat split);
    destruct (_ <=? _);
    try (exists [], []; rewrite !app_nil_r; now repeat split).
  - exists [(name, fn)], []. simpl. rewrite app_nil_r.
    repeat split; repeat constructor.
  - exists [], [(name, fn)]. simpl. rewrite app_nil_r.
    repeat split; repeat constructor.
Qed.

Lemma registrations_append name regs :
  forall s,
    exists processors extensions,
      PluginManager.articleProcessors
        (fold_left (PluginManager.register name) regs s)
      = (PluginManager.articleProcessors s ++ processors)%list
      /\ PluginManager.searchExtensions
           (fold_left (PluginManager.register name) regs s)
         = (PluginManager.searchExtensions s ++ extensions)%list
      /\ Forall (fun q => fst q = name) processors
      /\ Forall (fun q => fst q = name) extensions.
Proof.
  induction regs as [|r rs IH]; intros s; simpl.
  - exists [], []. rewrite !app_nil_r. now repeat split.
  - destruct (register_appends name r s) as (p1 & e1 & Hp1 & He1 & Fp1 & Fe1).
    destruct (IH (PluginManager.register name s r))
      as (p2 & e2 & Hp2 & He2 & Fp2 & Fe2).
    exists (p1 ++ p2)%list, (e1 ++ e2)%list.
    rewrite Hp2, He2, Hp1, He1, <- !app_assoc.
    repeat split; try reflexivity; apply Forall_app; now split.
Qed.

(** X29: when [registerPlugin] succeeds for a plugin whose name was not
    registered, the plugin is the one [getPluginInfo] answers for its
    name, its name is active, and the chains are the chains of before
    followed by what its activation hook registered, all under its
    name; the other plugins are as before. *)
Theorem registerPlugin_registers s p s' :
  JsMap.has (PluginManager.plugins s) (PluginManager.name p) = false ->
  PluginManager.registerPlugin s (Some p) = (s', Ok tt) ->
  PluginManager.getPluginInfo s' (PluginManager.name p) = Ok (Some p)
  /\ In (PluginManager.name p) (PluginManager.activePlugins s')
  /\ (exists processors extensions,
         PluginManager.articleProcessors s'
         = (PluginManager.articleProcessors s ++ processors)%list
         /\ PluginManager.searchExtensions s'
            = (PluginManager.searchExtensions s ++ extensions)%list
         /\ Forall (fun q => fst q = PluginManager.name p) processors
         /\ Forall (fun q => fst q = PluginManager.name p) extensions)
  /\ (forall other,
         other <> PluginManager.name p ->
         PluginManager.getPluginInfo s' other
         = PluginManager.getPluginInfo s other).
Proof.
  intros Hnew. unfold PluginManager.registerPlugin,
    PluginManager.getPluginInfo, PluginManager.checkDisposed.
  destruct (PluginManager.disposed s) eqn:Hd; [discriminate|].
  rewrite Hnew.
  pose proof (registrations_registry (PluginManager.name p)
                (PluginManager.registrations (PluginManager.activate p)) s)
    as Hreg.
  pose proof (registrations_append (PluginManager.name p)
                (PluginManager.registrations (PluginManager.activate p)) s)
    as Happ.
  cbv zeta in Hreg.
  set (s1 := fold_left _ _ s) in *.
  destruct Hreg as (Hplugins & Hactive & Hcfg & Hdis).
  destruct (PluginManager.call _ _); [|discriminate].
  intros [= <-]. cbn [PluginManager.disposed PluginManager.plugins
    PluginManager.activePlugins PluginManager.articleProcessors
    PluginManager.searchExtensions].
  rewrite Hdis, Hd. cbn [bind].
  split; [now rewrite get_set_same|].
  split; [apply In_addToSet; now left|].
  split; [exact Happ|].
  intros other Hne. rewrite get_set_other by congruence. now rewrite Hplugins.
Qed.

(** The tagger registers on the manager of the one stuck plugin. *)
Lemma registerPlugin_witness :
  exists s',
    PluginManager.registerPlugin
      (fst (PluginManager.registerPlugin defaultPlugins (Some stuckPlugin)))
      (Some taggerPlugin)
    = (s', Ok tt)
    /\ PluginManager.getPluginInfo s' "tagger" = Ok (Some taggerPlugin)
    /\ map fst (PluginManager.articleProcessors s') = ["stuck"; "tagger"].
Proof.
  eexists. split; [reflexivity|].
  destruct (registerPlugin_registers
              (fst (PluginManager.registerPlugin defaultPlugins
                      (Some stuckPlugin)))
              taggerPlugin _ eq_refl eq_refl) as (H1 & _).
  split; [exact H1 | reflexivity].
Defined.

(** ** BlogCore: loading the blog *)

(** The store knows the id of every article of the list. *)
Definition allStored (am : ArticleManager.State) (l : list Article) : Prop :=
  forall a, In a l -> JsMap.has (ArticleManager.articles am) (id a) = true.

Lemma addArticle_stored am a am' l :
  ArticleManager.addArticle am a = Ok am' ->
  allStored am l -> allStored am' (l ++ [a]).
Proof.
  unfold ArticleManager.addArticle, ArticleManager.checkDisposed.
  destruct (ArticleManager.disposed am); simpl; [discriminate|].
  intros [= <-] Hl b Hb. simpl. apply has_In_keys. apply In_keys_set.
  apply in_app_or in Hb. destruct Hb as [Hb|[<-|[]]]; [|now left].
  right. apply has_In_keys. now apply Hl.
Qed.

Lemma loadItem_stored h pm acc item :
  allStored (fst acc) (snd acc) ->
  allStored (fst (BlogCore.loadItem h pm acc item))
    (snd (BlogCore.loadItem h pm acc item)).
Proof.
  intros H. unfold BlogCore.loadItem. destruct item as [|i c]; [assumption|].
  destruct (ArticleManager.createArticleFromMarkdown h (fst acc) i c) as [a|];
    [|assumption].
  destruct (ArticleManager.addArticle (fst acc) _) as [am|] eqn:E;
    [|assumption].
  simpl. eapply addArticle_stored; eassumption.
Qed.

Lemma loadItems_stored h pm items :
  forall acc,
    allStored (fst acc) (snd acc) ->
    allStored (fst (fold_left (BlogCore.loadItem h pm) items acc))
      (snd (fold_left (BlogCore.loadItem h pm) items acc)).
Proof.
  induction items as [|x r IH]; intros acc H; simpl; [assumption|].
  apply IH. now apply loadItem_stored.
Qed.

(** The documents of the engine after a round of indexing are documents
    of the list or documents it had. *)
Lemma indexLoop_keys cfg (P : string -> Prop) documents :
  (forall a, In (SearchEngine.AnArticle a) documents -> P (id a)) ->
  forall idx arts,
    (forall k, JsMap.has arts k = true -> P k) ->
    forall k,
      JsMap.has (snd (SearchEngine.indexLoop cfg idx arts documents)) k = true ->
      P k.
Proof.
  induction documents as [|u r IH]; intros Hdocs idx arts Harts k; simpl;
    [apply Harts|].
  assert (forall a, In (SearchEngine.AnArticle a) r -> P (id a)) as Hr
      by (intros a Ha; apply Hdocs; now right).
  destruct u as [|a]; [now apply IH|].
  destruct (SearchEngine.indexArticle cfg idx a) as [idx'|];
    [|now apply IH].
  assert (forall k0, JsMap.has (JsMap.set arts (id a) a) k0 = true -> P k0)
    as Hset.
  { intros k0 Hk0. apply has_In_keys, In_keys_set in Hk0.
    destruct Hk0 as [->|Hk0]; [apply Hdocs; now left|].
    apply Harts. now apply has_In_keys. }
  destruct (_ <? _); [apply Hset | now apply IH].
Qed.

(** X30: after [initialize] on a blog whose engine holds no document,
    whatever [findArticles] answers is an article whose id the store
    knows: the engine indexes nothing but what was stored.  The blog is
    then initialized and a second [initialize] changes nothing. *)
Theorem initialize_search_in_store h s items s' :
  SearchEngine.articles (BlogCore.searchEngine s) = [] ->
  BlogCore.initialized s = false ->
  BlogCore.initializing s = false ->
  BlogCore.initialize h s (Some items) = Ok s' ->
  (forall query results,
      BlogCore.findArticles s' query = Ok results ->
      Forall (fun r =>
                JsMap.has (ArticleManager.articles (BlogCore.articles s'))
                  (id (article r)) = true) results)
  /\ BlogCore.isInitialized s' = true
  /\ (forall h' items', BlogCore.initialize h' s' items' = Ok s').
Proof.
  intros Hempty Hinit Hing Hs'.
  set (loaded :=
         fold_left (BlogCore.loadItem h (BlogCore.plugins s)) items
           (BlogCore.articles s, [])).
  set (engine :=
         match snd loaded with
         | [] => BlogCore.searchEngine s
         | processedArticles =>
             match
               SearchEngine.indexArticles (BlogCore.searchEngine s)
                 (Some (map SearchEngine.AnArticle processedArticles))
             with
             | Ok engine' => engine'
             | Throw _ => BlogCore.searchEngine s
             end
         end).
  assert (s' = {| BlogCore.articles := fst loaded;
                  BlogCore.searchEngine := engine;
                  BlogCore.plugins := BlogCore.plugins s;
                  BlogCore.initialized := true;
                  BlogCore.initializing := false;
                  BlogCore.disposed := false |}) as ->.
  { unfold BlogCore.initialize, BlogCore.checkDisposed in Hs'.
    destruct (BlogCore.disposed s) eqn:Hd; [discriminate|]. cbn [bind] in Hs'.
    rewrite Hinit, Hing in Hs'.
    destruct items as [|x r]; injection Hs' as <-; reflexivity. }
  split; [|split; [reflexivity|]].
  2:{ intros h' items'. reflexivity. }
  cbn [BlogCore.articles].
  assert (allStored (fst loaded) (snd loaded)) as Hstored.
  { apply loadItems_stored. intros a []. }
  assert (forall k a,
             JsMap.get (SearchEngine.articles engine) k = Some a ->
             id a = k
             /\ JsMap.has (ArticleManager.articles (fst loaded)) k = true)
    as Hkeys.
  { unfold engine. clearbody loaded.
    destruct (snd loaded) as [|p ps] eqn:Ep;
      [intros k a; now rewrite Hempty|].
    unfold SearchEngine.indexArticles.
    destruct (SearchEngine.checkDisposed (BlogCore.searchEngine s)) as [u|e];
      cbn [bind]; [|intros k a; now rewrite Hempty].
    pose proof (indexLoop_keyed
                  (SearchEngine.config (BlogCore.searchEngine s))
                  (map SearchEngine.AnArticle (p :: ps)) [] []) as Hkeyed.
    pose proof (indexLoop_keys
                  (SearchEngine.config (BlogCore.searchEngine s))
                  (fun k =>
                     JsMap.has (ArticleManager.articles (fst loaded)) k = true)
                  (map SearchEngine.AnArticle (p :: ps))) as Hin.
    assert (forall a,
               In (SearchEngine.AnArticle a)
                 (map SearchEngine.AnArticle (p :: ps)) ->
               JsMap.has (ArticleManager.articles (fst loaded)) (id a) = true)
      as Hdocs.
    { intros a Ha. apply in_map_iff in Ha. destruct Ha as (b & E & Hb).
      injection E as E. subst b. now apply Hstored. }
    specialize (Hin Hdocs [] []).
    destruct (SearchEngine.indexLoop _ [] [] _) as [idx arts].
    cbn [SearchEngine.articles snd] in *. intros k a Hget. split.
    - apply (Hkeyed ltac:(intros k0 a0; discriminate) k a Hget).
    - apply Hin; [intros k0; discriminate|]. apply has_true_get. eauto. }
  clearbody engine loaded.
  intros query results. unfold BlogCore.findArticles, BlogCore.checkDisposed.
  cbn [BlogCore.disposed BlogCore.searchEngine bind].
  destruct (SearchEngine.search engine query) as [l|] eqn:Es;
    intros [= <-]; [|constructor].
  apply Forall_forall. intros r Hr.
  unfold SearchEngine.search, SearchEngine.checkDisposed in Es.
  destruct (SearchEngine.disposed _); simpl in Es; [discriminate|].
  assert (forall q, In r (SearchEngine.searchValidated engine q) ->
            JsMap.has (ArticleManager.articles (fst loaded))
              (id (article r)) = true) as Hvalid.
  { intros q. unfold SearchEngine.searchValidated.
    destruct (SearchEngine.tokenize _ q); [intros []|].
    intros H. apply In_firstn_list in H. apply sortBy_In in H.
    apply toResults_entries in H. destruct H as (key & hs & _ & Hget & _).
    destruct (Hkeys key (article r) Hget) as [-> Hhas]. exact Hhas. }
  destruct query as [q|]; [|injection Es as <-; destruct Hr].
  destruct (_ <? _); [injection Es as <-; destruct Hr|].
  destruct (isEmpty _); [injection Es as <-; destruct Hr|].
  injection Es as <-. eapply Hvalid. exact Hr.
Qed.

(** A blog that was just made. *)
Definition freshBlog : BlogCore.State :=
  {| BlogCore.articles := freshStore;
     BlogCore.searchEngine := freshEngine;
     BlogCore.plugins := defaultPlugins;
     BlogCore.initialized := false;
     BlogCore.initializing := false;
     BlogCore.disposed := false |}.

Definition someItems : list BlogCore.Item :=
  [BlogCore.AnItem "a" helloSource; BlogCore.NotAnItem;
   BlogCore.AnItem " " "no id"; BlogCore.AnItem "b" "Plain body text"].

(** Two of the four items are loaded and both answer [body]. *)
Lemma initialize_witness :
  exists s' results,
    BlogCore.initialize exampleHost freshBlog (Some someItems) = Ok s'
    /\ BlogCore.findArticles s' (Some "body") = Ok results
    /\ map idOf results = ["a"; "b"]
    /\ Forall (fun r =>
                 JsMap.has (ArticleManager.articles (BlogCore.articles s'))
                   (id (article r)) = true) results.
Proof.
  eexists. eexists. split; [vm_compute; reflexivity|].
  split; [vm_compute; reflexivity|]. split; [reflexivity|].
  refine (proj1 (initialize_search_in_store exampleHost freshBlog someItems _
                   eq_refl eq_refl eq_refl _) (Some "body") _ _);
    vm_compute; reflexivity.
Defined.
